(** * Dynamic Smagorinsky closure of freeShearLayer: the filter and the
      coefficient estimator of [src/turbulence.c], the writer of
      [src/output.c]

    A [real ***] array is a function of three [int] indices.  The loops of
    the source are kept as loops over a store of named arrays, and each
    loop nest is then shown to act cell by cell.

    [type.h] is not under [src/], and the code is read twice, statement
    for statement.
    - First with [real] the field of real numbers, where a division by
      zero ends the run.  This reading serves for what does not depend on
      the arithmetic: which cells a loop nest reads and assigns, where a
      divisor is zero, the order of the lines written, and the equality
      of two values that the same operations compute.
    - Then, in module [B64], with [real] the C type [double]: binary64
      numbers, with rounding, infinities and NaN, where no statement ends
      the run.  The statements on the values the program computes are
      made in this reading; the two failing inputs of the first reading,
      whose values are 0, 1 and 1/3, are run again in it. *)

From Stdlib Require Import Floats.
From Stdlib Require Import Reals ZArith List Bool FinFun FunctionalExtensionality Lia Lra.
Import ListNotations.

Set Implicit Arguments.

Local Open Scope Z_scope.

(** ** Values and arrays *)

(** [type.h]: the floating type of the solver. *)
Notation real := R (only parsing).

(** A [real ***] as the code indexes it: [U[i][j][k]]. *)
(** A three-index array of values of type [T]. *)
Definition ArrayOf (T : Type) : Type := Z -> Z -> Z -> T.

Definition Array3 : Type := Z -> Z -> Z -> real.

Definition cell : Type := (Z * Z * Z)%type.

(** ** Counted loops *)

Section Loops.
Variable St : Type.

  (** [for (i = i0; ...; i++) body], with [n] iterations left. *)
Fixpoint for_from (n : nat) (i : Z) (body : Z -> St -> St) (s : St) : St :=
    match n with
    | O => s
    | S n' => for_from n' (i + 1) body (body i s)
    end.

  (** [for (i = lo; i < hi; i++) body]. *)
Definition for_ (lo hi : Z) (body : Z -> St -> St) (s : St) : St :=
    for_from (Z.to_nat (hi - lo)) lo body s.

  (** The same loop when the body can leave the real numbers (a division
      by zero): the first such iteration ends the run with [None]. *)
Fixpoint forE_from (n : nat) (i : Z) (body : Z -> St -> option St) (s : St)
    : option St :=
    match n with
    | O => Some s
    | S n' =>
        match body i s with
        | Some s' => forE_from n' (i + 1) body s'
        | None => None
        end
    end.

Definition forE (lo hi : Z) (body : Z -> St -> option St) (s : St) : option St :=
    forE_from (Z.to_nat (hi - lo)) lo body s.

  (** The triple nest [for i { for j { for k { body } } }]. *)
Definition for3 (ilo ihi jlo jhi klo khi : Z) (body : Z -> Z -> Z -> St -> St)
    : St -> St :=
    for_ ilo ihi (fun i => for_ jlo jhi (fun j => for_ klo khi (fun k => body i j k))).

Definition for3E (ilo ihi jlo jhi klo khi : Z)
    (body : Z -> Z -> Z -> St -> option St) : St -> option St :=
    forE ilo ihi (fun i => forE jlo jhi (fun j => forE klo khi (fun k => body i j k))).

  (** A run of a fallible body over a list of indices. *)
Fixpoint foldE (A : Type) (body : A -> St -> option St) (l : list A) (s : St)
    : option St :=
    match l with
    | [] => Some s
    | a :: l' =>
        match body a s with
        | Some s' => foldE body l' s'
        | None => None
        end
    end.
End Loops.

(** The indices [lo, lo+1, ..., hi-1] a counted loop visits, in order. *)
Definition zrange (lo hi : Z) : list Z :=
  map (fun n => lo + Z.of_nat n) (seq 0 (Z.to_nat (hi - lo))).

(** The cells a triple nest visits, in order. *)
Definition cells (ilo ihi jlo jhi klo khi : Z) : list cell :=
  flat_map (fun i =>
    flat_map (fun j => map (fun k => (i, j, k)) (zrange klo khi)) (zrange jlo jhi))
    (zrange ilo ihi).

Definition inbox (ilo ihi jlo jhi klo khi i j k : Z) : Prop :=
  ilo <= i < ihi /\ jlo <= j < jhi /\ klo <= k < khi.

Definition inboxb (ilo ihi jlo jhi klo khi i j k : Z) : bool :=
  (ilo <=? i) && (i <? ihi) && (jlo <=? j) && (j <? jhi) && (klo <=? k) && (k <? khi).

(** ** Stores of named arrays *)

(** The names of the arrays of a function, with decidable equality. *)
Class Name (V : Type) : Type := {
  name_eqb : V -> V -> bool;
  name_eqb_eq : forall x y, name_eqb x y = true <-> x = y
}.

(** One array of values of type [T] for each name of [V]. *)
Definition StoreOf (T V : Type) : Type := V -> ArrayOf T.

Definition Store (V : Type) : Type := V -> Array3.

(** The assignment [x[i][j][k] = v]. *)
Definition wr {T V : Type} `{Name V} (x : V) (i j k : Z) (v : T) (s : StoreOf T V)
  : StoreOf T V :=
  fun y a b c =>
    if name_eqb y x
    then if (a =? i) && (b =? j) && (c =? k) then v else s y a b c
    else s y a b c.

(** The pointer assignment [x = p], [p] a whole array. *)
Definition bind_array {T V : Type} `{Name V} (x : V) (p : ArrayOf T) (s : StoreOf T V)
  : StoreOf T V :=
  fun y => if name_eqb y x then p else s y.

(** What one iteration leaves in cell [(a,b,c)] of [y], run from [s]. *)
Definition cellval {T V : Type}
  (body : Z -> Z -> Z -> StoreOf T V -> option (StoreOf T V))
  (s : StoreOf T V) (y : V) (a b c : Z) : T :=
  match body a b c s with
  | Some s' => s' y a b c
  | None => s y a b c
  end.

(** ** Facts on loops *)

Section LoopFacts.
Variable St : Type.

Lemma forE_from_total (f : Z -> St -> St) n i s :
    forE_from n i (fun i s => Some (f i s)) s = Some (for_from n i f s).
  Proof.
    revert i s; induction n as [|n IH]; intros i s; simpl; [reflexivity|].
    apply IH.
  Qed.

Lemma forE_from_fold (body : Z -> St -> option St) n i s :
    forE_from n i body s = foldE body (map (fun m => i + Z.of_nat m) (seq 0 n)) s.
  Proof.
    revert i s; induction n as [|n IH]; intros i s; [reflexivity|].
    cbn [forE_from seq map foldE]. rewrite Z.add_0_r.
    destruct (body i s) as [s'|]; [|reflexivity].
    rewrite IH, <- seq_shift, map_map. f_equal.
    apply map_ext; intros m. lia.
  Qed.

Lemma forE_fold (body : Z -> St -> option St) lo hi s :
    forE lo hi body s = foldE body (zrange lo hi) s.
  Proof. apply forE_from_fold. Qed.

Lemma foldE_app (A : Type) (body : A -> St -> option St) l1 l2 s :
    foldE body (l1 ++ l2) s =
    match foldE body l1 s with Some s' => foldE body l2 s' | None => None end.
  Proof.
    revert s; induction l1 as [|a l1 IH]; intros s; simpl; [reflexivity|].
    destruct (body a s); [apply IH|reflexivity].
  Qed.

Lemma foldE_ext (A : Type) (f g : A -> St -> option St) l s :
    (forall a s, f a s = g a s) -> foldE f l s = foldE g l s.
  Proof.
    intros E; revert s; induction l as [|a l IH]; intros s; simpl; [reflexivity|].
    rewrite E; destruct (g a s); [apply IH|reflexivity].
  Qed.

Lemma foldE_map (A B : Type) (g : A -> B) (body : B -> St -> option St) l s :
    foldE body (map g l) s = foldE (fun a => body (g a)) l s.
  Proof.
    revert s; induction l as [|a l IH]; intros s; simpl; [reflexivity|].
    destruct (body (g a) s); [apply IH|reflexivity].
  Qed.

Lemma foldE_flat_map (A B : Type) (g : A -> list B)
    (body : B -> St -> option St) l s :
    foldE body (flat_map g l) s = foldE (fun a => foldE body (g a)) l s.
  Proof.
    revert s; induction l as [|a l IH]; intros s; simpl; [reflexivity|].
    rewrite foldE_app. destruct (foldE body (g a) s); [apply IH|reflexivity].
  Qed.

  (** A triple nest is one run over its cells. *)
Lemma for3E_fold (body : Z -> Z -> Z -> St -> option St) ilo ihi jlo jhi klo khi s :
    for3E ilo ihi jlo jhi klo khi body s =
    foldE (fun c : cell => let '(i, j, k) := c in body i j k)
      (cells ilo ihi jlo jhi klo khi) s.
  Proof.
    unfold for3E, cells. rewrite forE_fold, foldE_flat_map.
    apply foldE_ext; intros i s1.
    rewrite forE_fold, foldE_flat_map.
    apply foldE_ext; intros j s2.
    rewrite forE_fold, foldE_map. reflexivity.
  Qed.

Lemma for3_for3E (body : Z -> Z -> Z -> St -> St) ilo ihi jlo jhi klo khi s :
    for3E ilo ihi jlo jhi klo khi (fun i j k s => Some (body i j k s)) s =
    Some (for3 ilo ihi jlo jhi klo khi body s).
  Proof.
    unfold for3E, for3, forE, for_.
    assert (K : forall i j (s : St),
      forE_from (Z.to_nat (khi - klo)) klo (fun k s => Some (body i j k s)) s =
      Some (for_from (Z.to_nat (khi - klo)) klo (fun k => body i j k) s))
      by (intros; apply forE_from_total).
    assert (J : forall i (s : St),
      forE_from (Z.to_nat (jhi - jlo)) jlo
        (fun j => forE_from (Z.to_nat (khi - klo)) klo (fun k s => Some (body i j k s))) s =
      Some (for_from (Z.to_nat (jhi - jlo)) jlo
        (fun j => for_from (Z.to_nat (khi - klo)) klo (fun k => body i j k)) s)).
    { intros i s1. rewrite <- forE_from_total.
      rewrite !forE_from_fold. apply foldE_ext. intros; apply K. }
    rewrite <- forE_from_total, !forE_from_fold. apply foldE_ext. intros; apply J.
  Qed.
End LoopFacts.

Lemma in_zrange lo hi i : In i (zrange lo hi) <-> lo <= i < hi.
Proof.
  unfold zrange. rewrite in_map_iff. split.
  - intros (n & <- & Hn). apply in_seq in Hn. lia.
  - intros Hi. exists (Z.to_nat (i - lo)). split; [lia|]. apply in_seq. lia.
Qed.

Lemma NoDup_zrange lo hi : NoDup (zrange lo hi).
Proof.
  unfold zrange. apply Injective_map_NoDup; [|apply seq_NoDup].
  intros a b. lia.
Qed.

Lemma in_cells ilo ihi jlo jhi klo khi i j k :
  In (i, j, k) (cells ilo ihi jlo jhi klo khi) <->
  inbox ilo ihi jlo jhi klo khi i j k.
Proof.
  unfold cells, inbox. rewrite in_flat_map. split.
  - intros (i' & Hi & H). apply in_flat_map in H. destruct H as (j' & Hj & H).
    apply in_map_iff in H. destruct H as (k' & E & Hk). inversion E; subst.
    rewrite in_zrange in Hi, Hj, Hk. tauto.
  - intros (Hi & Hj & Hk). exists i. split; [apply in_zrange; exact Hi|].
    apply in_flat_map. exists j. split; [apply in_zrange; exact Hj|].
    apply in_map_iff. exists k. split; [reflexivity|apply in_zrange; exact Hk].
Qed.

Lemma NoDup_flat_map (A B : Type) (g : A -> list B) l :
  NoDup l -> (forall a, NoDup (g a)) ->
  (forall a a' b, In b (g a) -> In b (g a') -> a = a') ->
  NoDup (flat_map g l).
Proof.
  intros Hl Hg Hd. induction Hl as [|a l Ha Hl IH]; simpl; [constructor|].
  induction (g a) as [|b gb IHb] eqn:E in Hg, Hd |- *.
  - exact IH.
  - assert (Hb : NoDup (b :: gb)) by (rewrite <- E; apply Hg).
    inversion Hb as [|? ? Hnb Hgb]; subst.
    simpl. constructor.
    + rewrite in_app_iff. intros [Hin|Hin]; [exact (Hnb Hin)|].
      apply in_flat_map in Hin. destruct Hin as (a' & Ha' & Hb').
      assert (a = a') by (apply (Hd a a' b); [rewrite E; left; reflexivity|exact Hb']).
      subst a'. exact (Ha Ha').
    + clear IHb.
      assert (Happ : forall l1, NoDup l1 -> (forall b, In b l1 -> In b (g a)) ->
                NoDup (l1 ++ flat_map g l)).
      { induction 1 as [|b' l1 Hb' Hl1 IH1]; intros Hsub; simpl; [exact IH|].
        constructor.
        - rewrite in_app_iff. intros [Hin|Hin]; [exact (Hb' Hin)|].
          apply in_flat_map in Hin. destruct Hin as (a' & Ha' & Hb'').
          assert (a = a') by (apply (Hd a a' b'); [apply Hsub; left; reflexivity|exact Hb'']).
          subst a'. exact (Ha Ha').
        - apply IH1. intros b0 Hb0. apply Hsub. right. exact Hb0. }
      apply Happ; [exact Hgb|]. intros b0 Hb0. rewrite E. right. exact Hb0.
Qed.

Lemma NoDup_cells ilo ihi jlo jhi klo khi : NoDup (cells ilo ihi jlo jhi klo khi).
Proof.
  unfold cells. apply NoDup_flat_map; [apply NoDup_zrange| |].
  - intros i. apply NoDup_flat_map; [apply NoDup_zrange| |].
    + intros j. apply Injective_map_NoDup; [|apply NoDup_zrange].
      intros a b E. inversion E. reflexivity.
    + intros j j' c H1 H2. apply in_map_iff in H1, H2.
      destruct H1 as (k1 & <- & _), H2 as (k2 & E & _). inversion E. reflexivity.
  - intros i i' c H1 H2. apply in_flat_map in H1, H2.
    destruct H1 as (j1 & _ & H1), H2 as (j2 & _ & H2).
    apply in_map_iff in H1, H2.
    destruct H1 as (k1 & <- & _), H2 as (k2 & E & _). inversion E. reflexivity.
Qed.

Lemma inboxb_spec ilo ihi jlo jhi klo khi i j k :
  inboxb ilo ihi jlo jhi klo khi i j k = true <-> inbox ilo ihi jlo jhi klo khi i j k.
Proof. unfold inboxb, inbox. rewrite !andb_true_iff. lia. Qed.

(** ** A loop nest whose iterations are local to their cell *)

Section CellLoop.
Context {T V : Type} `{Name V}.

  (** [W] tells the arrays the body assigns. *)
Variable W : V -> bool.
Variable body : Z -> Z -> Z -> StoreOf T V -> option (StoreOf T V).

  (** Two stores look the same to the iteration at [(i,j,k)]: they agree on
      the arrays the loop does not assign, and on cell [(i,j,k)] of all. *)
Definition agree_at (i j k : Z) (s t : StoreOf T V) : Prop :=
    (forall y a b c, W y = false -> s y a b c = t y a b c) /\
    (forall y, s y i j k = t y i j k).

  (** The iteration at [(i,j,k)] assigns cell [(i,j,k)] of arrays of [W] only. *)
Definition body_frame : Prop :=
    forall i j k s s', body i j k s = Some s' ->
    forall y a b c, W y = false \/ (a, b, c) <> (i, j, k) -> s' y a b c = s y a b c.

  (** What it assigns, and whether it fails, depends on what [agree_at] keeps. *)
Definition body_ext : Prop :=
    forall i j k s t, agree_at i j k s t ->
    match body i j k s, body i j k t with
    | Some s', Some t' => forall y, s' y i j k = t' y i j k
    | None, None => True
    | _, _ => False
    end.

Hypothesis Hframe : body_frame.
Hypothesis Hext : body_ext.

Let step (c : cell) : StoreOf T V -> option (StoreOf T V) :=
    let '(i, j, k) := c in body i j k.

Lemma foldE_cells_some (s0 : StoreOf T V) l :
    NoDup l ->
    (forall i j k, In (i, j, k) l -> body i j k s0 <> None) ->
    forall s,
      (forall y a b c, W y = false -> s y a b c = s0 y a b c) ->
      (forall y a b c, In (a, b, c) l -> s y a b c = s0 y a b c) ->
      exists s', foldE step l s = Some s' /\
        (forall y a b c, In (a, b, c) l -> s' y a b c = cellval body s0 y a b c) /\
        (forall y a b c, ~ In (a, b, c) l -> s' y a b c = s y a b c).
  Proof.
    induction 1 as [|[[i j] k] l Hc Hl IH]; intros Hsome s HW Hin.
    - exists s. simpl. split; [reflexivity|]. split; [intros; contradiction|reflexivity].
    - cbn [foldE step].
      assert (Ag : agree_at i j k s s0).
      { split; [exact HW|]. intros y. apply Hin. left. reflexivity. }
      pose proof (Hext Ag) as E.
      pose proof (Hsome i j k (or_introl eq_refl)) as N0.
      destruct (body i j k s) as [s1|] eqn:B1;
        destruct (body i j k s0) as [t1|] eqn:B0; try contradiction; try congruence.
      pose proof (Hframe B1) as F1.
      destruct (IH (fun a b c Hq => Hsome a b c (or_intror Hq)) s1) as (s' & Hs' & Hv & Hr).
      + intros y a b c Wy. rewrite F1 by (left; exact Wy). apply HW, Wy.
      + intros y a b c Hq. rewrite F1.
        * apply Hin. right. exact Hq.
        * right. intros Eq. apply Hc. rewrite <- Eq. exact Hq.
      + exists s'. split; [exact Hs'|]. split.
        * intros y a b c [Eq|Hq]; [|apply Hv, Hq].
          inversion Eq; subst a b c. rewrite Hr by exact Hc.
          unfold cellval. rewrite B0. apply E.
        * intros y a b c Hn. rewrite Hr by (intros Hq; apply Hn; right; exact Hq).
          apply F1. right. intros Eq. apply Hn. left. symmetry. exact Eq.
  Qed.

Lemma foldE_cells_none (s0 : StoreOf T V) l :
    NoDup l ->
    forall s s',
      (forall y a b c, W y = false -> s y a b c = s0 y a b c) ->
      (forall y a b c, In (a, b, c) l -> s y a b c = s0 y a b c) ->
      foldE step l s = Some s' ->
      forall i j k, In (i, j, k) l -> body i j k s0 <> None.
  Proof.
    induction 1 as [|[[i j] k] l Hc Hl IH]; intros s s' HW Hin Hrun a b c Hq.
    - contradiction.
    - cbn [foldE step] in Hrun.
      assert (Ag : agree_at i j k s s0).
      { split; [exact HW|]. intros y. apply Hin. left. reflexivity. }
      pose proof (Hext Ag) as E.
      destruct (body i j k s) as [s1|] eqn:B1; [|discriminate].
      destruct Hq as [Eq|Hq].
      + inversion Eq; subst a b c.
        destruct (body i j k s0); [discriminate|contradiction].
      + pose proof (Hframe B1) as F1.
        apply (IH s1 s'); [| |exact Hrun|exact Hq].
        * intros y a' b' c' Wy. rewrite F1 by (left; exact Wy). apply HW, Wy.
        * intros y a' b' c' Hq'. rewrite F1.
          -- apply Hin. right. exact Hq'.
          -- right. intros Eq. apply Hc. rewrite <- Eq. exact Hq'.
  Qed.

  (** The nest succeeds when every iteration, run from the first store,
      succeeds, and then each cell of the box holds what its own iteration
      computes from the first store. *)
Lemma for3E_cellwise ilo ihi jlo jhi klo khi (s0 : StoreOf T V) :
    (forall i j k, inbox ilo ihi jlo jhi klo khi i j k -> body i j k s0 <> None) ->
    exists s', for3E ilo ihi jlo jhi klo khi body s0 = Some s' /\
      (forall y a b c, inbox ilo ihi jlo jhi klo khi a b c ->
         s' y a b c = cellval body s0 y a b c) /\
      (forall y a b c, ~ inbox ilo ihi jlo jhi klo khi a b c ->
         s' y a b c = s0 y a b c).
  Proof.
    intros Hsome. rewrite for3E_fold.
    destruct (@foldE_cells_some s0 (cells ilo ihi jlo jhi klo khi)
                (NoDup_cells _ _ _ _ _ _)) with (s := s0)
      as (s' & Hs' & Hv & Hr); auto.
    - intros i j k Hq. apply Hsome, in_cells, Hq.
    - exists s'. split; [exact Hs'|]. split.
      + intros y a b c Hq. apply Hv, in_cells, Hq.
      + intros y a b c Hq. apply Hr. rewrite in_cells. exact Hq.
  Qed.

  (** Conversely a nest that succeeds had no failing iteration. *)
Lemma for3E_succeeds ilo ihi jlo jhi klo khi (s0 s' : StoreOf T V) :
    for3E ilo ihi jlo jhi klo khi body s0 = Some s' ->
    forall i j k, inbox ilo ihi jlo jhi klo khi i j k -> body i j k s0 <> None.
  Proof.
    rewrite for3E_fold. intros Hrun i j k Hq.
    apply (@foldE_cells_none s0 (cells ilo ihi jlo jhi klo khi)
             (NoDup_cells _ _ _ _ _ _) s0 s'); auto.
    apply in_cells, Hq.
  Qed.

  (** Arrays outside [W] come out of the nest as they went in. *)
Lemma for3E_frame ilo ihi jlo jhi klo khi (s0 s' : StoreOf T V) :
    for3E ilo ihi jlo jhi klo khi body s0 = Some s' ->
    forall y a b c, W y = false -> s' y a b c = s0 y a b c.
  Proof.
    intros Hrun y a b c Wy.
    destruct (@for3E_cellwise ilo ihi jlo jhi klo khi s0) as (s1 & Hs1 & Hv & Hr).
    - exact (for3E_succeeds Hrun).
    - rewrite Hrun in Hs1. inversion Hs1; subst s1.
      destruct (inboxb ilo ihi jlo jhi klo khi a b c) eqn:Eb.
      + apply inboxb_spec in Eb. rewrite Hv by exact Eb.
        unfold cellval. destruct (body a b c s0) eqn:B; [|reflexivity].
        apply (Hframe B). left. exact Wy.
      + apply Hr. rewrite <- inboxb_spec, Eb. discriminate.
  Qed.
End CellLoop.

(** ** Assignments and agreement *)

Section StoreFacts.
Context {T V : Type} `{Name V}.

Lemma name_eqb_refl (x : V) : name_eqb x x = true.
  Proof. apply name_eqb_eq. reflexivity. Qed.

Lemma name_eqb_neq (x y : V) : x <> y -> name_eqb x y = false.
  Proof.
    intros N. destruct (name_eqb x y) eqn:E; [|reflexivity].
    apply name_eqb_eq in E. contradiction.
  Qed.

Lemma wr_same x i j k v (s : StoreOf T V) : wr x i j k v s x i j k = v.
  Proof. unfold wr. rewrite name_eqb_refl, !Z.eqb_refl. reflexivity. Qed.

Lemma wr_other x i j k v (s : StoreOf T V) y a b c :
    name_eqb y x = false \/ (a, b, c) <> (i, j, k) ->
    wr x i j k v s y a b c = s y a b c.
  Proof.
    unfold wr. intros [E|N]; [rewrite E; reflexivity|].
    destruct (name_eqb y x); [|reflexivity].
    destruct (a =? i) eqn:Ea, (b =? j) eqn:Eb, (c =? k) eqn:Ec; try reflexivity.
    apply Z.eqb_eq in Ea, Eb, Ec. subst. contradiction.
  Qed.

Variable W : V -> bool.

  (** [s'] differs from [s] at most in cell [(i,j,k)] of arrays of [W]. *)
Definition frame_rel (i j k : Z) (s s' : StoreOf T V) : Prop :=
    forall y a b c, W y = false \/ (a, b, c) <> (i, j, k) -> s' y a b c = s y a b c.

Lemma frame_refl i j k s : frame_rel i j k s s.
  Proof. intros y a b c _. reflexivity. Qed.

Lemma frame_wr x i j k v s s1 :
    W x = true -> frame_rel i j k s s1 -> frame_rel i j k s (wr x i j k v s1).
  Proof.
    intros Wx F y a b c Hq. rewrite wr_other; [apply F, Hq|].
    destruct Hq as [Wy|N]; [left|right; exact N].
    apply name_eqb_neq. intros ->. congruence.
  Qed.

Lemma agree_wr x i j k (v v' : T) (s t : StoreOf T V) :
    W x = true -> v = v' -> agree_at W i j k s t ->
    agree_at W i j k (wr x i j k v s) (wr x i j k v' t).
  Proof.
    intros Wx <- [A1 A2]. split.
    - intros y a b c Wy.
      assert (E : name_eqb y x = false)
        by (apply name_eqb_neq; intros ->; congruence).
      rewrite !wr_other by (left; exact E). apply A1, Wy.
    - intros y. unfold wr. destruct (name_eqb y x); [|apply A2].
      rewrite !Z.eqb_refl. reflexivity.
  Qed.

Lemma agree_refl i j k (s : StoreOf T V) : agree_at W i j k s s.
  Proof. split; reflexivity. Qed.
End StoreFacts.

(** A loop nest whose body cannot fail, cell by cell. *)
Lemma for3_cellwise {T V : Type} `{Name V} (W : V -> bool)
  (body : Z -> Z -> Z -> StoreOf T V -> StoreOf T V) ilo ihi jlo jhi klo khi (s0 : StoreOf T V) :
  (forall i j k s, frame_rel W i j k s (body i j k s)) ->
  (forall i j k s t, agree_at W i j k s t ->
     forall y, body i j k s y i j k = body i j k t y i j k) ->
  forall y a b c,
    for3 ilo ihi jlo jhi klo khi body s0 y a b c =
    if inboxb ilo ihi jlo jhi klo khi a b c then body a b c s0 y a b c
    else s0 y a b c.
Proof.
  intros F E y a b c.
  destruct (for3E_cellwise (W := W) (body := fun i j k s => Some (body i j k s)))
    with (ilo := ilo) (ihi := ihi) (jlo := jlo) (jhi := jhi) (klo := klo)
         (khi := khi) (s0 := s0) as (s' & Hs' & Hv & Hr).
  - intros i j k s s1 B. inversion B; subst s1. apply F.
  - intros i j k s t Ag. apply E, Ag.
  - intros; discriminate.
  - rewrite for3_for3E in Hs'. injection Hs' as <-.
    destruct (inboxb ilo ihi jlo jhi klo khi a b c) eqn:Eb.
    + apply inboxb_spec in Eb. rewrite Hv by exact Eb. reflexivity.
    + apply Hr. rewrite <- inboxb_spec, Eb. discriminate.
Qed.

(** The common case of a body that is one assignment [x[i][j][k] = e]. *)
Lemma for3_single_write {T V : Type} `{Name V} (x : V)
  (e : Z -> Z -> Z -> StoreOf T V -> T) ilo ihi jlo jhi klo khi (s0 : StoreOf T V) :
  (forall i j k s t,
     (forall y a b c, name_eqb y x = false -> s y a b c = t y a b c) ->
     s x i j k = t x i j k -> e i j k s = e i j k t) ->
  forall y a b c,
    for3 ilo ihi jlo jhi klo khi (fun i j k s => wr x i j k (e i j k s) s) s0 y a b c =
    if name_eqb y x && inboxb ilo ihi jlo jhi klo khi a b c then e a b c s0
    else s0 y a b c.
Proof.
  intros He y a b c.
  rewrite (for3_cellwise (W := fun y => name_eqb y x)).
  - destruct (inboxb ilo ihi jlo jhi klo khi a b c); [|rewrite andb_false_r; reflexivity].
    rewrite andb_true_r. destruct (name_eqb y x) eqn:Ey.
    + apply name_eqb_eq in Ey. subst y. apply wr_same.
    + apply wr_other. left. exact Ey.
  - intros i j k s. apply frame_wr; [apply name_eqb_refl|apply frame_refl].
  - intros i j k s t Ag y'.
    apply (agree_wr (W := fun y => name_eqb y x)); [apply name_eqb_refl| |exact Ag].
    destruct Ag as [A1 A2]. apply He; [exact A1|apply A2].
Qed.

(** * The filter [filter_] *)

(** The three arrays of [filter_]: its argument and its two buffers. *)
Inductive fvar : Type := U | U_ | U__.

Definition fvar_eqb (x y : fvar) : bool :=
  match x, y with
  | U, U | U_, U_ | U__, U__ => true
  | _, _ => false
  end.

#[export] Instance fvar_Name : Name fvar.
Proof.
  refine {| name_eqb := fvar_eqb |}.
  intros [] []; simpl; split; intros E; try reflexivity; discriminate.
Defined.

(** The kernel [real h[3]] and the read [h[l]]. *)
Definition kernel : Type := list real.

Definition hk (h : kernel) (l : Z) : real := nth (Z.to_nat l) h 0%R.

(** The sum the inner loop [for (l = 0; l < 3; l++) tmp += x_l * h[l]]
    leaves in [tmp], which starts at [0.]. *)
Definition tap (h : kernel) (x0 x1 x2 : real) : real :=
  (0 + x0 * hk h 0 + x1 * hk h 1 + x2 * hk h 2)%R.

Definition const3 (c : real) : Array3 := fun _ _ _ => c.

(** [real FilterKer[3] = { 1./3., 1./3., 1./3. };] *)
Definition FilterKer : kernel := [1 / 3; 1 / 3; 1 / 3]%R.

Section Filter.
  (** [def.h]: the interior sizes of the grid. *)
Variables LEN HIG DEP : Z.

  (** Modelled from the spec: [def.h] is not under [src/]; the fields hold
      (LEN+2) x (HIG+2) x (DEP+2) cells, one ghost layer on every face, and
      the interior loops [for (i = 1; i < LENN; i++)] of [output.c] visit
      the [LEN] interior cells, so [LENN] is [LEN + 1] and likewise for the
      other two axes. *)
Definition LENN : Z := LEN + 1.
Definition HIGG : Z := HIG + 1.
Definition DEPP : Z := DEP + 1.

  (** First pass: along [j], from [U] into [U__]. *)
Definition pass1_body (h : kernel) (i j k : Z) (s : Store fvar) : Store fvar :=
    let tmp := 0%R in
    let tmp := for_ 0 3 (fun l tmp => (tmp + s U i (j + l - 1)%Z k * hk h l)%R) tmp in
    wr U__ i j k tmp s.

  (** Second pass: along [k], from [U__] into [U_]. *)
Definition pass2_body (h : kernel) (i j k : Z) (s : Store fvar) : Store fvar :=
    let tmp := 0%R in
    let tmp := for_ 0 3 (fun l tmp => (tmp + s U__ i j (k + l - 1)%Z * hk h l)%R) tmp in
    wr U_ i j k tmp s.

  (** Third pass: along [i], from [U_] back into [U__]. *)
Definition pass3_body (h : kernel) (i j k : Z) (s : Store fvar) : Store fvar :=
    let tmp := 0%R in
    let tmp := for_ 0 3 (fun l tmp => (tmp + s U_ (i + l - 1)%Z j k * hk h l)%R) tmp in
    wr U__ i j k tmp s.

  (** The store at entry.  [helpers.h] is not under [src/]: what the two
      buffers that [Array3D] returns hold is unknown, and is the parameter
      [m_] for [U_] and [m__] for [U__]. *)
Definition filter_entry (m_ m__ Uin : Array3) : Store fvar :=
    fun x => match x with U => Uin | U_ => m_ | U__ => m__ end.

  (** The three loop nests of [filter_], in order. *)
Definition filter_run (m_ m__ Uin : Array3) (h : kernel) : Store fvar :=
    let s := filter_entry m_ m__ Uin in
    let s := for3 0 LENN 1 HIGG 0 DEPP (pass1_body h) s in
    let s := for3 0 LENN 0 HIGG 1 DEPP (pass2_body h) s in
    let s := for3 1 LENN 0 HIGG 0 DEPP (pass3_body h) s in
    s.

  (** [return U__;] *)
Definition filter_ (m_ m__ Uin : Array3) (h : kernel) : Array3 :=
    filter_run m_ m__ Uin h U__.

  (** The cells each pass assigns. *)
Definition box1 (i j k : Z) : bool := inboxb 0 LENN 1 HIGG 0 DEPP i j k.
Definition box2 (i j k : Z) : bool := inboxb 0 LENN 0 HIGG 1 DEPP i j k.
Definition box3 (i j k : Z) : bool := inboxb 1 LENN 0 HIGG 0 DEPP i j k.

  (** The cells of a field: those of the padded grid. *)
Definition padded (i j k : Z) : bool := inboxb 0 (LEN + 2) 0 (HIG + 2) 0 (DEP + 2) i j k.

  (** The interior cells: the padded grid less its ghost layer. *)
Definition interior (i j k : Z) : bool := inboxb 1 LENN 1 HIGG 1 DEPP i j k.

  (** Which cells hold a defined value, pass by pass.  A cell of the
      argument is defined when it is a cell of the field; a cell a pass
      assigns is defined when the three cells it read were. *)
Definition def1 (i j k : Z) : bool :=
    box1 i j k && padded i (j - 1) k && padded i j k && padded i (j + 1) k.

Definition def2 (i j k : Z) : bool :=
    box2 i j k && def1 i j (k - 1) && def1 i j k && def1 i j (k + 1).

Definition def3 (i j k : Z) : bool :=
    box3 i j k && def2 (i - 1) j k && def2 i j k && def2 (i + 1) j k.
End Filter.

(** ** The passes of [filter_], cell by cell *)

Lemma inner_loop (h : kernel) (g : Z -> real) :
  for_ 0 3 (fun l tmp => (tmp + g l * hk h l)%R) 0%R = tap h (g 0) (g 1) (g 2).
Proof. reflexivity. Qed.

Section FilterFacts.
Variables LEN HIG DEP : Z.
Variables m_ m__ Uin : Array3.
Variable h : kernel.

  (** [U__] after the first pass. *)
Definition after1 (a b c : Z) : real :=
    if box1 LEN HIG DEP a b c then tap h (Uin a (b - 1) c) (Uin a b c) (Uin a (b + 1) c)
    else m__ a b c.

  (** [U_] after the second pass. *)
Definition after2 (a b c : Z) : real :=
    if box2 LEN HIG DEP a b c then tap h (after1 a b (c - 1)) (after1 a b c) (after1 a b (c + 1))
    else m_ a b c.

  (** [U__] after the third pass. *)
Definition after3 (a b c : Z) : real :=
    if box3 LEN HIG DEP a b c then tap h (after2 (a - 1) b c) (after2 a b c) (after2 (a + 1) b c)
    else after1 a b c.

Lemma pass1_run (s : Store fvar) y a b c :
    for3 0 (LENN LEN) 1 (HIGG HIG) 0 (DEPP DEP) (pass1_body h) s y a b c =
    if name_eqb y U__ && box1 LEN HIG DEP a b c
    then tap h (s U a (b - 1) c) (s U a b c) (s U a (b + 1) c)
    else s y a b c.
  Proof.
    unfold pass1_body.
    rewrite (for3_single_write (x := U__) (
      (fun i j k s => for_ 0 3 (fun l tmp => (tmp + s U i (j + l - 1)%Z k * hk h l)%R) 0%R))).
    - rewrite (inner_loop h (fun l => s U a (b + l - 1) c)).
      replace (b + 0 - 1) with (b - 1) by lia.
      replace (b + 1 - 1) with b by lia.
      replace (b + 2 - 1) with (b + 1) by lia. reflexivity.
    - intros i j k s1 t A _.
      rewrite (inner_loop h (fun l => s1 U i (j + l - 1) k)),
              (inner_loop h (fun l => t U i (j + l - 1) k)).
      rewrite !(A U) by reflexivity. reflexivity.
  Qed.

Lemma pass2_run (s : Store fvar) y a b c :
    for3 0 (LENN LEN) 0 (HIGG HIG) 1 (DEPP DEP) (pass2_body h) s y a b c =
    if name_eqb y U_ && box2 LEN HIG DEP a b c
    then tap h (s U__ a b (c - 1)) (s U__ a b c) (s U__ a b (c + 1))
    else s y a b c.
  Proof.
    unfold pass2_body.
    rewrite (for3_single_write (x := U_) (
      (fun i j k s => for_ 0 3 (fun l tmp => (tmp + s U__ i j (k + l - 1)%Z * hk h l)%R) 0%R))).
    - rewrite (inner_loop h (fun l => s U__ a b (c + l - 1))).
      replace (c + 0 - 1) with (c - 1) by lia.
      replace (c + 1 - 1) with c by lia.
      replace (c + 2 - 1) with (c + 1) by lia. reflexivity.
    - intros i j k s1 t A _.
      rewrite (inner_loop h (fun l => s1 U__ i j (k + l - 1))),
              (inner_loop h (fun l => t U__ i j (k + l - 1))).
      rewrite !(A U__) by reflexivity. reflexivity.
  Qed.

Lemma pass3_run (s : Store fvar) y a b c :
    for3 1 (LENN LEN) 0 (HIGG HIG) 0 (DEPP DEP) (pass3_body h) s y a b c =
    if name_eqb y U__ && box3 LEN HIG DEP a b c
    then tap h (s U_ (a - 1) b c) (s U_ a b c) (s U_ (a + 1) b c)
    else s y a b c.
  Proof.
    unfold pass3_body.
    rewrite (for3_single_write (x := U__) (
      (fun i j k s => for_ 0 3 (fun l tmp => (tmp + s U_ (i + l - 1)%Z j k * hk h l)%R) 0%R))).
    - rewrite (inner_loop h (fun l => s U_ (a + l - 1) b c)).
      replace (a + 0 - 1) with (a - 1) by lia.
      replace (a + 1 - 1) with a by lia.
      replace (a + 2 - 1) with (a + 1) by lia. reflexivity.
    - intros i j k s1 t A _.
      rewrite (inner_loop h (fun l => s1 U_ (i + l - 1) j k)),
              (inner_loop h (fun l => t U_ (i + l - 1) j k)).
      rewrite !(A U_) by reflexivity. reflexivity.
  Qed.

  (** The array [filter_] returns, cell by cell. *)
Lemma filter_cellwise a b c :
    filter_ LEN HIG DEP m_ m__ Uin h a b c = after3 a b c.
  Proof.
    unfold filter_, filter_run. cbv zeta.
    rewrite pass3_run. cbn [name_eqb fvar_Name fvar_eqb andb].
    unfold after3. 
    assert (E2 : forall a b c,
      for3 0 (LENN LEN) 0 (HIGG HIG) 1 (DEPP DEP) (pass2_body h)
        (for3 0 (LENN LEN) 1 (HIGG HIG) 0 (DEPP DEP) (pass1_body h)
           (filter_entry m_ m__ Uin)) U_ a b c = after2 a b c).
    { intros a' b' c'. rewrite pass2_run. cbn [name_eqb fvar_Name fvar_eqb andb].
      unfold after2, after1. rewrite !pass1_run.
      cbn [name_eqb fvar_Name fvar_eqb andb filter_entry]. reflexivity. }
    rewrite !E2. destruct (box3 LEN HIG DEP a b c); [reflexivity|].
    rewrite pass2_run. cbn [name_eqb fvar_Name fvar_eqb andb].
    rewrite pass1_run. reflexivity.
  Qed.

End FilterFacts.

(** ** Where the passes are defined *)

Section FilterRegions.
Variables LEN HIG DEP : Z.

Lemma interior_spec i j k :
  interior LEN HIG DEP i j k = true <-> 1 <= i <= LEN /\ 1 <= j <= HIG /\ 1 <= k <= DEP.
Proof.
  unfold interior, LENN, HIGG, DEPP. rewrite inboxb_spec. unfold inbox. lia.
Qed.

Lemma padded_spec i j k :
  padded LEN HIG DEP i j k = true <->
  0 <= i <= LEN + 1 /\ 0 <= j <= HIG + 1 /\ 0 <= k <= DEP + 1.
Proof. unfold padded. rewrite inboxb_spec. unfold inbox. lia. Qed.

Lemma def1_spec i j k :
  def1 LEN HIG DEP i j k = true <-> 0 <= i <= LEN /\ 1 <= j <= HIG /\ 0 <= k <= DEP.
Proof.
  unfold def1, box1, LENN, HIGG, DEPP. rewrite !andb_true_iff, !padded_spec, inboxb_spec.
  unfold inbox. lia.
Qed.

Lemma def2_spec i j k :
  def2 LEN HIG DEP i j k = true <->
  0 <= i <= LEN /\ 1 <= j <= HIG /\ 1 <= k <= DEP - 1.
Proof.
  unfold def2, box2, LENN, HIGG, DEPP. rewrite !andb_true_iff, !def1_spec, inboxb_spec.
  unfold inbox. lia.
Qed.

(** The cells of the returned array all of whose stencil points, through
    the three passes, were defined: one plane short of the interior along
    [i] and along [k]. *)
Lemma def3_spec i j k :
  def3 LEN HIG DEP i j k = true <->
  1 <= i <= LEN - 1 /\ 1 <= j <= HIG /\ 1 <= k <= DEP - 1.
Proof.
  unfold def3, box3, LENN, HIGG, DEPP. rewrite !andb_true_iff, !def2_spec, inboxb_spec.
  unfold inbox. lia.
Qed.

Lemma def3_interior i j k :
  def3 LEN HIG DEP i j k = true -> interior LEN HIG DEP i j k = true.
Proof. rewrite def3_spec, interior_spec. lia. Qed.

Lemma def1_box1 i j k : def1 LEN HIG DEP i j k = true -> box1 LEN HIG DEP i j k = true.
Proof. unfold def1. rewrite !andb_true_iff. tauto. Qed.

Lemma def2_box2 i j k : def2 LEN HIG DEP i j k = true -> box2 LEN HIG DEP i j k = true.
Proof. unfold def2. rewrite !andb_true_iff. tauto. Qed.

Lemma def3_box3 i j k : def3 LEN HIG DEP i j k = true -> box3 LEN HIG DEP i j k = true.
Proof. unfold def3. rewrite !andb_true_iff. tauto. Qed.

End FilterRegions.

(** ** The third pass reads a plane no pass assigned *)

(** At an interior cell of the last plane, [i = LEN], the third pass reads
    [U_[LEN+1][j][k]], which the second pass, whose [i] stops at [LEN],
    left as [Array3D] returned it. *)
Lemma filter_last_plane (LEN HIG DEP : Z) (m_ m__ Uin : Array3) (h : kernel) j k :
  1 <= LEN -> 0 <= j <= HIG -> 0 <= k <= DEP ->
  filter_ LEN HIG DEP m_ m__ Uin h LEN j k =
  tap h (after2 LEN HIG DEP m_ m__ Uin h (LEN - 1) j k)
        (after2 LEN HIG DEP m_ m__ Uin h LEN j k)
        (m_ (LEN + 1) j k).
Proof.
  intros HL Hj Hk. rewrite filter_cellwise. unfold after3.
  assert (B3 : box3 LEN HIG DEP LEN j k = true).
  { unfold box3, LENN, HIGG, DEPP. apply inboxb_spec. unfold inbox. lia. }
  rewrite B3. f_equal. unfold after2.
  assert (B2 : box2 LEN HIG DEP (LEN + 1) j k = false).
  { unfold box2, LENN. destruct (inboxb _ _ _ _ _ _ _ _ _) eqn:E; [|reflexivity].
    apply inboxb_spec in E. unfold inbox in E. lia. }
  rewrite B2. reflexivity.
Qed.

(** C2, at a failing input.  On the grid with one interior cell, the zero
    field filtered by the box kernel comes out as 0 at the interior cell
    (1,1,1) when the fresh buffers held zeros, and as 1/3 when the buffer
    [U_] held ones: the value at an interior cell is not a function of the
    argument alone. *)
Theorem filter_interior_depends_on_buffer :
  interior 1 1 1 1 1 1 = true /\
  filter_ 1 1 1 (const3 0) (const3 0) (const3 0) FilterKer 1 1 1 = 0%R /\
  filter_ 1 1 1 (const3 1) (const3 0) (const3 0) FilterKer 1 1 1 = (1 / 3)%R.
Proof.
  split; [reflexivity|].
  split; rewrite (@filter_last_plane 1 1 1) by lia;
    unfold after2, after1, tap, hk, FilterKer, const3; simpl; lra.
Qed.

(** * The estimator [DynamicSmagorinsky] *)

(** The arrays of [DynamicSmagorinsky]: its five arguments and its locals. *)
Inductive var : Type :=
| rho | ru | rv | rw | mu_SGS
| magStrain
| u | v | w
| u_ | v_ | w_
| uu_ | uv_ | uw_ | vu_ | vv_ | vw_ | wu_ | wv_ | ww_
| L11 | L12 | L13 | L21 | L22 | L23 | L31 | L32 | L33
| A11 | A12 | A13 | A21 | A22 | A23 | A31 | A32 | A33
| A11_ | A12_ | A13_ | A21_ | A22_ | A23_ | A31_ | A32_ | A33_
| B11_ | B12_ | B13_ | B21_ | B22_ | B23_ | B31_ | B32_ | B33_.

Scheme Equality for var.

#[export] Instance var_Name : Name var.
Proof.
  refine {| name_eqb := var_beq |}.
  intros x y. split; [apply internal_var_dec_bl|apply internal_var_dec_lb].
Defined.

(** The buffers [Array3D] hands out during one call: the one a name is
    bound to, and the one [filter_] uses as [U_] when its result is bound
    to that name. *)
Inductive buffer : Type :=
| Own (x : var)
| Scratch (x : var).

(** In this reading a division by zero ends the run: [None] marks the
    place where a divisor is zero.  What the machine computes there, an
    infinity or a NaN, is in module [B64]. *)
Definition rdiv (x y : real) : option real :=
  if Req_dec_T y 0 then None else Some (x / y)%R.

(** ** Statements over a store *)

(** A statement yields the next store, or no store when a division by zero
    took the run out of the real numbers. *)
Definition stmtOf (T V : Type) : Type := StoreOf T V -> option (StoreOf T V).

Definition stmt (V : Type) : Type := Store V -> option (Store V).

(** [x[i][j][k] = e;] *)
Definition assign {T V : Type} `{Name V} (x : V) (i j k : Z) (e : StoreOf T V -> T)
  : stmtOf T V :=
  fun st => Some (wr x i j k (e st) st).

(** [p q] in sequence. *)
Definition seq {T V : Type} (p q : stmtOf T V) : stmtOf T V :=
  fun st =>
    match p st with
    | Some st' => q st'
    | None => None
    end.

(** [a = e;] for a local scalar [a], then [k]. *)
Definition local {T V : Type} (e : StoreOf T V -> T) (k : T -> stmtOf T V)
  : stmtOf T V :=
  fun st => k (e st) st.

(** [q = num / den;] for a local scalar [q], then [k]. *)
Definition divide {V : Type} (num den : Store V -> real) (k : real -> stmt V)
  : stmt V :=
  fun st =>
    match rdiv (num st) (den st) with
    | Some q => k q st
    | None => None
    end.

(** A change of the store that cannot fail, as a statement. *)
Definition lift {T V : Type} (f : StoreOf T V -> StoreOf T V) : stmtOf T V :=
  fun st => Some (f st).

Notation "p ;; q" := (seq p q) (at level 100, q at level 200, right associativity).
Notation "'LET' a ':=' e 'IN' k" := (local e (fun a => k))
  (at level 10, a name, e at level 99, k at level 200).
Notation "'DIV' a ':=' n 'OVER' d 'IN' k" := (divide n d (fun a => k))
  (at level 10, a name, n at level 99, d at level 99, k at level 200).

(** What a loop nest over the box leaves, when no iteration fails: every
    cell of the box holds what its own iteration computes from the store
    the nest started in. *)
Definition cellwise {T V : Type} (ilo ihi jlo jhi klo khi : Z)
  (body : Z -> Z -> Z -> stmtOf T V) (s : StoreOf T V) : StoreOf T V :=
  fun y a b c =>
    if inboxb ilo ihi jlo jhi klo khi a b c then cellval body s y a b c
    else s y a b c.

Section DynamicSmagorinsky.
(** [def.h]: the interior sizes, the factors [1/(2 h)] of the central
    differences, the squared filter width and the guard of the division. *)
Variables LEN HIG DEP : Z.
Variables _2deltaX _2deltaY _2deltaZ DD small : real.

(** What every buffer [Array3D] returns holds ([helpers.h] is not under
    [src/]). *)
Variable fresh : buffer -> Array3.

(** [x = Array3D( LEN+2, HIG+2, DEP+2 );] *)
Definition Array3D (x : var) (st : Store var) : Store var :=
  bind_array x (fresh (Own x)) st.

(** [x = filter_(src, FilterKer);] *)
Definition call_filter (x src : var) (st : Store var) : Store var :=
  bind_array x
    (filter_ LEN HIG DEP (fresh (Scratch x)) (fresh (Own x)) (st src) FilterKer) st.

Definition DS_alloc (st : Store var) : Store var :=
  let st := Array3D magStrain st in
  let st := Array3D u st in
  let st := Array3D v st in
  let st := Array3D w st in
  let st := Array3D A11 st in
  let st := Array3D A12 st in
  let st := Array3D A13 st in
  let st := Array3D A21 st in
  let st := Array3D A22 st in
  let st := Array3D A23 st in
  let st := Array3D A31 st in
  let st := Array3D A32 st in
  let st := Array3D A33 st in
  let st := Array3D B11_ st in
  let st := Array3D B12_ st in
  let st := Array3D B13_ st in
  let st := Array3D B21_ st in
  let st := Array3D B22_ st in
  let st := Array3D B23_ st in
  let st := Array3D B31_ st in
  let st := Array3D B32_ st in
  let st := Array3D B33_ st in
  let st := Array3D L11 st in
  let st := Array3D L12 st in
  let st := Array3D L13 st in
  let st := Array3D L21 st in
  let st := Array3D L22 st in
  let st := Array3D L23 st in
  let st := Array3D L31 st in
  let st := Array3D L32 st in
  let st := Array3D L33 st in
  st.

(** Conservative to primitive variables. *)
Definition prim_body (i j k : Z) : stmt var :=
  DIV rr := (fun _ => 1%R) OVER (fun st => st rho i j k) IN
  assign u i j k (fun st => st ru i j k * rr)%R ;;
  assign v i j k (fun st => st rv i j k * rr)%R ;;
  assign w i j k (fun st => st rw i j k * rr)%R.

(** The products [u_i u_j], kept in the arrays of the Leonard tensor. *)
Definition prod_body (i j k : Z) : stmt var :=
  assign L11 i j k (fun st => st u i j k * st u i j k)%R ;;
  assign L12 i j k (fun st => st u i j k * st v i j k)%R ;;
  assign L13 i j k (fun st => st u i j k * st w i j k)%R ;;
  assign L21 i j k (fun st => st v i j k * st u i j k)%R ;;
  assign L22 i j k (fun st => st v i j k * st v i j k)%R ;;
  assign L23 i j k (fun st => st v i j k * st w i j k)%R ;;
  assign L31 i j k (fun st => st w i j k * st u i j k)%R ;;
  assign L32 i j k (fun st => st w i j k * st v i j k)%R ;;
  assign L33 i j k (fun st => st w i j k * st w i j k)%R.

Definition DS_filter_velocities (st : Store var) : Store var :=
  let st := call_filter u_ u st in
  let st := call_filter v_ v st in
  let st := call_filter w_ w st in
  let st := call_filter uu_ L11 st in
  let st := call_filter uv_ L12 st in
  let st := call_filter uw_ L13 st in
  let st := call_filter vu_ L21 st in
  let st := call_filter vv_ L22 st in
  let st := call_filter vw_ L23 st in
  let st := call_filter wu_ L31 st in
  let st := call_filter wv_ L32 st in
  let st := call_filter ww_ L33 st in
  st.

(** Leonard stresses, the two strain tensors and the tensors A and B. *)
Definition main_body (i j k : Z) : stmt var :=
  assign L11 i j k (fun st => st uu_ i j k - st u_ i j k * st u_ i j k)%R ;;
  assign L12 i j k (fun st => st uv_ i j k - st u_ i j k * st v_ i j k)%R ;;
  assign L13 i j k (fun st => st uw_ i j k - st u_ i j k * st w_ i j k)%R ;;
  assign L21 i j k (fun st => st vu_ i j k - st v_ i j k * st u_ i j k)%R ;;
  assign L22 i j k (fun st => st vv_ i j k - st v_ i j k * st v_ i j k)%R ;;
  assign L23 i j k (fun st => st vw_ i j k - st v_ i j k * st w_ i j k)%R ;;
  assign L31 i j k (fun st => st wu_ i j k - st w_ i j k * st u_ i j k)%R ;;
  assign L32 i j k (fun st => st wv_ i j k - st w_ i j k * st v_ i j k)%R ;;
  assign L33 i j k (fun st => st ww_ i j k - st w_ i j k * st w_ i j k)%R ;;
  LET du_dx := (fun st => (st u (i + 1)%Z j k - st u (i - 1)%Z j k) * _2deltaX)%R IN
  LET du_dy := (fun st => (st u i (j + 1)%Z k - st u i (j - 1)%Z k) * _2deltaY)%R IN
  LET du_dz := (fun st => (st u i j (k + 1)%Z - st u i j (k - 1)%Z) * _2deltaZ)%R IN
  LET dv_dx := (fun st => (st v (i + 1)%Z j k - st v (i - 1)%Z j k) * _2deltaX)%R IN
  LET dv_dy := (fun st => (st v i (j + 1)%Z k - st v i (j - 1)%Z k) * _2deltaY)%R IN
  LET dv_dz := (fun st => (st v i j (k + 1)%Z - st v i j (k - 1)%Z) * _2deltaZ)%R IN
  LET dw_dx := (fun st => (st w (i + 1)%Z j k - st w (i - 1)%Z j k) * _2deltaX)%R IN
  LET dw_dy := (fun st => (st w i (j + 1)%Z k - st w i (j - 1)%Z k) * _2deltaY)%R IN
  LET dw_dz := (fun st => (st w i j (k + 1)%Z - st w i j (k - 1)%Z) * _2deltaZ)%R IN
  let S11 := du_dx in
  let S12 := (/ 2 * (du_dy + dv_dx))%R in
  let S13 := (/ 2 * (du_dz + dw_dx))%R in
  let S21 := (/ 2 * (dv_dx + du_dy))%R in
  let S22 := dv_dy in
  let S23 := (/ 2 * (dv_dz + dw_dy))%R in
  let S31 := (/ 2 * (dw_dx + du_dz))%R in
  let S32 := (/ 2 * (dw_dy + dv_dz))%R in
  let S33 := dw_dz in
  let S := sqrt (2 * (S11 * S11 + S12 * S12 + S13 * S13
                      + S21 * S21 + S22 * S22 + S23 * S23
                      + S31 * S31 + S32 * S32 + S33 * S33))%R in
  assign magStrain i j k (fun _ => S) ;;
  LET du_dx := (fun st => (st u_ (i + 1)%Z j k - st u_ (i - 1)%Z j k) * _2deltaX)%R IN
  LET du_dy := (fun st => (st u_ i (j + 1)%Z k - st u_ i (j - 1)%Z k) * _2deltaY)%R IN
  LET du_dz := (fun st => (st u_ i j (k + 1)%Z - st u_ i j (k - 1)%Z) * _2deltaZ)%R IN
  LET dv_dx := (fun st => (st v_ (i + 1)%Z j k - st v_ (i - 1)%Z j k) * _2deltaX)%R IN
  LET dv_dy := (fun st => (st v_ i (j + 1)%Z k - st v_ i (j - 1)%Z k) * _2deltaY)%R IN
  LET dv_dz := (fun st => (st v_ i j (k + 1)%Z - st v_ i j (k - 1)%Z) * _2deltaZ)%R IN
  LET dw_dx := (fun st => (st w_ (i + 1)%Z j k - st w_ (i - 1)%Z j k) * _2deltaX)%R IN
  LET dw_dy := (fun st => (st w_ i (j + 1)%Z k - st w_ i (j - 1)%Z k) * _2deltaY)%R IN
  LET dw_dz := (fun st => (st w_ i j (k + 1)%Z - st w_ i j (k - 1)%Z) * _2deltaZ)%R IN
  let S11_ := du_dx in
  let S12_ := (/ 2 * (du_dy + dv_dx))%R in
  let S13_ := (/ 2 * (du_dz + dw_dx))%R in
  let S21_ := (/ 2 * (dv_dx + du_dy))%R in
  let S22_ := dv_dy in
  let S23_ := (/ 2 * (dv_dz + dw_dy))%R in
  let S31_ := (/ 2 * (dw_dx + du_dz))%R in
  let S32_ := (/ 2 * (dw_dy + dv_dz))%R in
  let S33_ := dw_dz in
  let S_ := sqrt (2 * (S11_ * S11_ + S12_ * S12_ + S13_ * S13_
                       + S21_ * S21_ + S22_ * S22_ + S23_ * S23_
                       + S31_ * S31_ + S32_ * S32_ + S33_ * S33_))%R in
  assign B11_ i j k (fun _ => S_ * S11_)%R ;;
  assign B12_ i j k (fun _ => S_ * S12_)%R ;;
  assign B13_ i j k (fun _ => S_ * S13_)%R ;;
  assign B21_ i j k (fun _ => S_ * S21_)%R ;;
  assign B22_ i j k (fun _ => S_ * S22_)%R ;;
  assign B23_ i j k (fun _ => S_ * S23_)%R ;;
  assign B31_ i j k (fun _ => S_ * S31_)%R ;;
  assign B32_ i j k (fun _ => S_ * S32_)%R ;;
  assign B33_ i j k (fun _ => S_ * S33_)%R ;;
  assign A11 i j k (fun _ => S * S11)%R ;;
  assign A12 i j k (fun _ => S * S12)%R ;;
  assign A13 i j k (fun _ => S * S13)%R ;;
  assign A21 i j k (fun _ => S * S21)%R ;;
  assign A22 i j k (fun _ => S * S22)%R ;;
  assign A23 i j k (fun _ => S * S23)%R ;;
  assign A31 i j k (fun _ => S * S31)%R ;;
  assign A32 i j k (fun _ => S * S32)%R ;;
  assign A33 i j k (fun _ => S * S33)%R.

Definition DS_filter_A (st : Store var) : Store var :=
  let st := call_filter A11_ A11 st in
  let st := call_filter A12_ A12 st in
  let st := call_filter A13_ A13 st in
  let st := call_filter A21_ A21 st in
  let st := call_filter A22_ A22 st in
  let st := call_filter A23_ A23 st in
  let st := call_filter A31_ A31 st in
  let st := call_filter A32_ A32 st in
  let st := call_filter A33_ A33 st in
  st.

(** [if ( Cd > 0.15 ) Cd = 0.15; else if ( Cd < 0.0 ) Cd = 0.0;] *)
Definition clip (Cd : real) : real :=
  if Rlt_dec (15 / 100) Cd then (15 / 100)%R
  else if Rlt_dec Cd 0 then 0%R
  else Cd.

(** The tensor M, the deviatoric Leonard tensor, the coefficient and the
    eddy viscosity. *)
Definition final_body (i j k : Z) : stmt var :=
  LET M11 := (fun st => DD * (4 * st B11_ i j k - st A11_ i j k))%R IN
  LET M12 := (fun st => DD * (4 * st B12_ i j k - st A12_ i j k))%R IN
  LET M13 := (fun st => DD * (4 * st B13_ i j k - st A13_ i j k))%R IN
  LET M21 := (fun st => DD * (4 * st B21_ i j k - st A21_ i j k))%R IN
  LET M22 := (fun st => DD * (4 * st B22_ i j k - st A22_ i j k))%R IN
  LET M23 := (fun st => DD * (4 * st B23_ i j k - st A23_ i j k))%R IN
  LET M31 := (fun st => DD * (4 * st B31_ i j k - st A31_ i j k))%R IN
  LET M32 := (fun st => DD * (4 * st B32_ i j k - st A32_ i j k))%R IN
  LET M33 := (fun st => DD * (4 * st B33_ i j k - st A33_ i j k))%R IN
  LET _trace13 :=
    (fun st => - (1 / 3) * (st L11 i j k + st L22 i j k + st L33 i j k))%R IN
  assign L11 i j k (fun st => st L11 i j k + _trace13)%R ;;
  assign L22 i j k (fun st => st L22 i j k + _trace13)%R ;;
  assign L33 i j k (fun st => st L33 i j k + _trace13)%R ;;
  LET LLMM :=
    (fun st => st L11 i j k * M11 + st L12 i j k * M12 + st L13 i j k * M13
               + st L21 i j k * M21 + st L22 i j k * M22 + st L23 i j k * M23
               + st L31 i j k * M31 + st L32 i j k * M32 + st L33 i j k * M33)%R IN
  let MMMM := (M11 * M11 + M12 * M12 + M13 * M13
               + M21 * M21 + M22 * M22 + M23 * M23
               + M31 * M31 + M32 * M32 + M33 * M33)%R in
  DIV q := (fun _ => LLMM) OVER (fun _ => MMMM + small)%R IN
  let Cd := (- / 2 * q)%R in
  let Cd := clip Cd in
  assign mu_SGS i j k (fun st => st rho i j k * Cd * DD * st magStrain i j k)%R.

(** The run up to the last loop nest. *)
Definition DS_pre : stmt var :=
  lift DS_alloc ;;
  for3E 0 (LENN LEN + 1) 0 (HIGG HIG + 1) 0 (DEPP DEP + 1) prim_body ;;
  for3E 0 (LENN LEN + 1) 0 (HIGG HIG + 1) 0 (DEPP DEP + 1) prod_body ;;
  lift DS_filter_velocities ;;
  for3E 1 (LENN LEN) 1 (HIGG HIG) 1 (DEPP DEP) main_body ;;
  lift DS_filter_A.

(** The whole function.  The calls to [free3D] that end it are left out:
    the store keeps the last contents of the local arrays. *)
Definition DynamicSmagorinsky : stmt var :=
  DS_pre ;;
  for3E 1 (LENN LEN) 1 (HIGG HIG) 1 (DEPP DEP) final_body.
End DynamicSmagorinsky.

(** The arrays each loop nest assigns. *)
Definition W_prim (y : var) : bool :=
  match y with u | v | w => true | _ => false end.

Definition W_prod (y : var) : bool :=
  match y with
  | L11 | L12 | L13 | L21 | L22 | L23 | L31 | L32 | L33 => true
  | _ => false
  end.

Definition W_main (y : var) : bool :=
  match y with
  | L11 | L12 | L13 | L21 | L22 | L23 | L31 | L32 | L33
  | magStrain
  | B11_ | B12_ | B13_ | B21_ | B22_ | B23_ | B31_ | B32_ | B33_
  | A11 | A12 | A13 | A21 | A22 | A23 | A31 | A32 | A33 => true
  | _ => false
  end.

Definition W_final (y : var) : bool :=
  match y with L11 | L22 | L33 | mu_SGS => true | _ => false end.

(** ** Statements that are local to a cell *)

Section LocalStatements.
Context {T V : Type} `{Name V}.
Variable W : V -> bool.
Variables i j k : Z.

(** An expression reads only what [agree_at] keeps. *)
Definition reads_local (e : StoreOf T V -> T) : Prop :=
  forall s t, agree_at W i j k s t -> e s = e t.

(** A statement assigns only cell [(i,j,k)] of arrays of [W], and what it
    does depends only on what [agree_at] keeps. *)
Definition stmt_local (p : stmtOf T V) : Prop :=
  (forall s s', p s = Some s' -> frame_rel W i j k s s') /\
  (forall s t, agree_at W i j k s t ->
     match p s, p t with
     | Some s', Some t' => agree_at W i j k s' t'
     | None, None => True
     | _, _ => False
     end).

Lemma frame_trans (s1 s2 s3 : StoreOf T V) :
  frame_rel W i j k s1 s2 -> frame_rel W i j k s2 s3 -> frame_rel W i j k s1 s3.
Proof. intros F G y a b c Hq. rewrite G by exact Hq. apply F, Hq. Qed.

Lemma local_assign x e :
  W x = true -> reads_local e -> stmt_local (assign x i j k e).
Proof.
  intros Wx He. split.
  - intros s s' E. injection E as <-. apply frame_wr; [exact Wx|apply frame_refl].
  - intros s t Ag. cbn. apply agree_wr; [exact Wx|apply He, Ag|exact Ag].
Qed.

Lemma local_seq p q : stmt_local p -> stmt_local q -> stmt_local (p ;; q).
Proof.
  intros [Fp Ep] [Fq Eq]. split.
  - intros s s' E. unfold seq in E. destruct (p s) as [s1|] eqn:P; [|discriminate].
    apply frame_trans with s1; [apply Fp, P|apply Fq, E].
  - intros s t Ag. unfold seq. pose proof (Ep s t Ag) as A1.
    destruct (p s) as [s1|], (p t) as [t1|]; try contradiction; [|exact I].
    apply Eq, A1.
Qed.

Lemma local_local e f :
  reads_local e -> (forall a, stmt_local (f a)) -> stmt_local (local e f).
Proof.
  intros He Hf. split.
  - intros s s' E. apply (proj1 (Hf (e s))), E.
  - intros s t Ag. unfold local. rewrite <- (He s t Ag). apply (proj2 (Hf (e s))), Ag.
Qed.

Lemma reads_local_const (c : T) : reads_local (fun _ => c).
Proof. intros s t _. reflexivity. Qed.
End LocalStatements.

(** The same for a division, which can fail over the real numbers. *)
Section LocalDivide.
Context {V : Type} `{Name V}.
Variable W : V -> bool.
Variables i j k : Z.

Lemma local_divide (num den : Store V -> real) (f : real -> stmt V) :
  reads_local W i j k num -> reads_local W i j k den -> (forall a, stmt_local W i j k (f a)) ->
  stmt_local W i j k (divide num den f).
Proof.
  intros Hn Hd Hf. split.
  - intros s s' E. unfold divide in E.
    destruct (rdiv (num s) (den s)) as [q|]; [|discriminate].
    apply (proj1 (Hf q)), E.
  - intros s t Ag. unfold divide. rewrite <- (Hn s t Ag), <- (Hd s t Ag).
    destruct (rdiv (num s) (den s)) as [q|]; [|exact I].
    apply (proj2 (Hf q)), Ag.
Qed.
End LocalDivide.

Section LocalLoops.
Context {T V : Type} `{Name V}.
Variable W : V -> bool.
Variable body : Z -> Z -> Z -> stmtOf T V.
Hypothesis Hlocal : forall i j k, stmt_local W i j k (body i j k).

Lemma local_body_frame : body_frame W body.
Proof.
  intros i j k s s' E y a b c Hq. exact (proj1 (Hlocal i j k) s s' E y a b c Hq).
Qed.

Lemma local_body_ext : body_ext W body.
Proof.
  intros i j k s t Ag. pose proof (proj2 (Hlocal i j k) s t Ag) as A.
  destruct (body i j k s), (body i j k t); try exact A.
  apply A.
Qed.

(** A nest of local iterations, none of which fails, leaves [cellwise]. *)
Lemma for3E_local ilo ihi jlo jhi klo khi (s0 : StoreOf T V) :
  (forall i j k, inbox ilo ihi jlo jhi klo khi i j k -> body i j k s0 <> None) ->
  for3E ilo ihi jlo jhi klo khi body s0 =
  Some (cellwise ilo ihi jlo jhi klo khi body s0).
Proof.
  intros Hs.
  destruct (@for3E_cellwise _ _ W body local_body_frame local_body_ext
              ilo ihi jlo jhi klo khi s0 Hs) as (s' & E & Hv & Hr).
  rewrite E. f_equal.
  extensionality y. extensionality a. extensionality b. extensionality c.
  unfold cellwise. destruct (inboxb ilo ihi jlo jhi klo khi a b c) eqn:Eb.
  - apply Hv, inboxb_spec, Eb.
  - apply Hr. rewrite <- inboxb_spec, Eb. discriminate.
Qed.

(** A nest that does not fail had no failing iteration. *)
Lemma for3E_local_succeeds ilo ihi jlo jhi klo khi (s0 s' : StoreOf T V) :
  for3E ilo ihi jlo jhi klo khi body s0 = Some s' ->
  forall i j k, inbox ilo ihi jlo jhi klo khi i j k -> body i j k s0 <> None.
Proof. apply (@for3E_succeeds _ _ W body local_body_frame local_body_ext). Qed.
End LocalLoops.

(** ** The loop nests of the estimator are local *)

(** Reads of [s] become reads of [t] when the two stores agree. *)
Ltac transport_reads s Ag :=
  repeat match goal with
  | |- context [s ?y ?a ?b ?c] =>
      first [ rewrite (proj1 Ag y a b c eq_refl) | rewrite (proj2 Ag y) ]
  end.

Ltac solve_reads :=
  let s := fresh "s" in let t := fresh "t" in let Ag := fresh "Ag" in
  intros s t Ag; cbv beta; transport_reads s Ag; reflexivity.

Ltac solve_local :=
  repeat lazymatch goal with
  | |- stmt_local _ _ _ _ (seq _ _) => apply local_seq
  | |- stmt_local _ _ _ _ (assign _ _ _ _ _) =>
      apply local_assign; [reflexivity | solve_reads]
  | |- stmt_local _ _ _ _ (local _ _) => apply local_local; [solve_reads | intro]
  | |- stmt_local _ _ _ _ (divide _ _ _) =>
      apply local_divide; [solve_reads | solve_reads | intro]
  | |- stmt_local _ _ _ _ (let _ := _ in _) => cbv zeta
  | |- stmt_local _ _ _ _ ((fun _ => _) _) => cbv beta
  end.

Section EstimatorLocal.
Variables _2deltaX _2deltaY _2deltaZ DD small : real.

Lemma prim_body_local i j k : stmt_local W_prim i j k (prim_body i j k).
Proof. unfold prim_body. solve_local. Qed.

Lemma prod_body_local i j k : stmt_local W_prod i j k (prod_body i j k).
Proof. unfold prod_body. solve_local. Qed.

Lemma main_body_local i j k :
  stmt_local W_main i j k (main_body _2deltaX _2deltaY _2deltaZ i j k).
Proof. unfold main_body. solve_local. Qed.

Lemma final_body_local i j k :
  stmt_local W_final i j k (final_body DD small i j k).
Proof. unfold final_body. solve_local. Qed.
End EstimatorLocal.

(** ** Statements that cannot fail *)

Definition stmt_total {T V : Type} (p : stmtOf T V) : Prop := forall s, p s <> None.

Lemma total_assign {T V : Type} `{Name V} (x : V) i j k (e : StoreOf T V -> T) :
  stmt_total (assign x i j k e).
Proof. intros s. discriminate. Qed.

Lemma total_seq {T V : Type} (p q : stmtOf T V) :
  stmt_total p -> stmt_total q -> stmt_total (p ;; q).
Proof.
  intros Hp Hq s. unfold seq. destruct (p s) as [s1|] eqn:E; [apply Hq|].
  destruct (Hp s E).
Qed.

Lemma total_local {T V : Type} (e : StoreOf T V -> T) (f : T -> stmtOf T V) :
  (forall a, stmt_total (f a)) -> stmt_total (local e f).
Proof. intros Hf s. apply Hf. Qed.

Ltac solve_total :=
  repeat lazymatch goal with
  | |- stmt_total (seq _ _) => apply total_seq
  | |- stmt_total (assign _ _ _ _ _) => apply total_assign
  | |- stmt_total (local _ _) => apply total_local; intro
  | |- stmt_total (let _ := _ in _) => cbv zeta
  | |- stmt_total ((fun _ => _) _) => cbv beta
  end.

Lemma prod_body_total i j k : stmt_total (prod_body i j k).
Proof. unfold prod_body. solve_total. Qed.

Lemma main_body_total dx dy dz i j k : stmt_total (main_body dx dy dz i j k).
Proof. unfold main_body. solve_total. Qed.

Lemma rdiv_some (x y : real) : y <> 0%R -> rdiv x y = Some (x / y)%R.
Proof. intros N. unfold rdiv. destruct (Req_dec_T y 0); [contradiction|reflexivity]. Qed.

Lemma rdiv_none (x y : real) : rdiv x y = None <-> y = 0%R.
Proof.
  unfold rdiv. destruct (Req_dec_T y 0); split; intros E; try reflexivity;
    try discriminate; try assumption; contradiction.
Qed.

(** ** Tensors at a cell *)

Record tensor : Type := T9 {
  t11 : real; t12 : real; t13 : real;
  t21 : real; t22 : real; t23 : real;
  t31 : real; t32 : real; t33 : real
}.

(** The nine-term double contraction [a : b]. *)
Definition ddot (a b : tensor) : real :=
  (t11 a * t11 b + t12 a * t12 b + t13 a * t13 b
   + t21 a * t21 b + t22 a * t22 b + t23 a * t23 b
   + t31 a * t31 b + t32 a * t32 b + t33 a * t33 b)%R.



(** The strain tensor of the velocity [(u, v, w)] at [(i,j,k)], by central
    differences with the factors [dx], [dy], [dz]. *)
Definition strain (dx dy dz : real) (u v w : Array3) (i j k : Z) : tensor :=
  let du_dx := ((u (i + 1)%Z j k - u (i - 1)%Z j k) * dx)%R in
  let du_dy := ((u i (j + 1)%Z k - u i (j - 1)%Z k) * dy)%R in
  let du_dz := ((u i j (k + 1)%Z - u i j (k - 1)%Z) * dz)%R in
  let dv_dx := ((v (i + 1)%Z j k - v (i - 1)%Z j k) * dx)%R in
  let dv_dy := ((v i (j + 1)%Z k - v i (j - 1)%Z k) * dy)%R in
  let dv_dz := ((v i j (k + 1)%Z - v i j (k - 1)%Z) * dz)%R in
  let dw_dx := ((w (i + 1)%Z j k - w (i - 1)%Z j k) * dx)%R in
  let dw_dy := ((w i (j + 1)%Z k - w i (j - 1)%Z k) * dy)%R in
  let dw_dz := ((w i j (k + 1)%Z - w i j (k - 1)%Z) * dz)%R in
  T9 du_dx (/ 2 * (du_dy + dv_dx)) (/ 2 * (du_dz + dw_dx))
     (/ 2 * (dv_dx + du_dy)) dv_dy (/ 2 * (dv_dz + dw_dy))
     (/ 2 * (dw_dx + du_dz)) (/ 2 * (dw_dy + dv_dz)) dw_dz.

(** The Leonard tensor a store holds at a cell. *)
Definition Leonard (s : Store var) (i j k : Z) : tensor :=
  T9 (s L11 i j k) (s L12 i j k) (s L13 i j k)
     (s L21 i j k) (s L22 i j k) (s L23 i j k)
     (s L31 i j k) (s L32 i j k) (s L33 i j k).

(** The tensor [M = DD (4 B - filtered A)] of the last loop nest. *)
Definition Mtensor (DD : real) (s : Store var) (i j k : Z) : tensor :=
  T9 (DD * (4 * s B11_ i j k - s A11_ i j k)) (DD * (4 * s B12_ i j k - s A12_ i j k))
     (DD * (4 * s B13_ i j k - s A13_ i j k)) (DD * (4 * s B21_ i j k - s A21_ i j k))
     (DD * (4 * s B22_ i j k - s A22_ i j k)) (DD * (4 * s B23_ i j k - s A23_ i j k))
     (DD * (4 * s B31_ i j k - s A31_ i j k)) (DD * (4 * s B32_ i j k - s A32_ i j k))
     (DD * (4 * s B33_ i j k - s A33_ i j k))%R.

(** The deviatoric part: a third of the trace off the diagonal. *)
Definition dev (l : tensor) : tensor :=
  let _trace13 := (- (1 / 3) * (t11 l + t22 l + t33 l))%R in
  T9 (t11 l + _trace13) (t12 l) (t13 l)
     (t21 l) (t22 l + _trace13) (t23 l)
     (t31 l) (t32 l) (t33 l + _trace13)%R.

(** ** What one iteration of each loop nest leaves in its cell *)

Ltac run_cell body :=
  unfold cellval;
  lazy beta iota zeta delta
    [body seq assign local divide wr name_eqb var_Name var_beq];
  rewrite ?Z.eqb_refl; cbn [andb].

Section CellValues.
Variables dx dy dz DD small : real.
Variable s : Store var.
Variables i j k : Z.

Lemma prim_cell_fails : prim_body i j k s = None <-> s rho i j k = 0%R.
Proof.
  unfold prim_body, divide. rewrite <- (rdiv_none 1 (s rho i j k)).
  destruct (rdiv 1 (s rho i j k)); [|tauto].
  split; discriminate.
Qed.

Lemma prim_cell_u :
  s rho i j k <> 0%R ->
  cellval prim_body s u i j k = (s ru i j k * (1 / s rho i j k))%R /\
  cellval prim_body s v i j k = (s rv i j k * (1 / s rho i j k))%R /\
  cellval prim_body s w i j k = (s rw i j k * (1 / s rho i j k))%R.
Proof.
  intros N. unfold cellval, prim_body, divide. rewrite (rdiv_some _ N).
  repeat split; run_cell prim_body; reflexivity.
Qed.

Lemma prod_cell :
  cellval prod_body s L11 i j k = (s u i j k * s u i j k)%R /\
  cellval prod_body s L12 i j k = (s u i j k * s v i j k)%R /\
  cellval prod_body s L13 i j k = (s u i j k * s w i j k)%R /\
  cellval prod_body s L21 i j k = (s v i j k * s u i j k)%R /\
  cellval prod_body s L22 i j k = (s v i j k * s v i j k)%R /\
  cellval prod_body s L23 i j k = (s v i j k * s w i j k)%R /\
  cellval prod_body s L31 i j k = (s w i j k * s u i j k)%R /\
  cellval prod_body s L32 i j k = (s w i j k * s v i j k)%R /\
  cellval prod_body s L33 i j k = (s w i j k * s w i j k)%R.
Proof. repeat split; run_cell prod_body; reflexivity. Qed.

Lemma main_cell_Leonard :
  cellval (main_body dx dy dz) s L11 i j k = (s uu_ i j k - s u_ i j k * s u_ i j k)%R /\
  cellval (main_body dx dy dz) s L12 i j k = (s uv_ i j k - s u_ i j k * s v_ i j k)%R /\
  cellval (main_body dx dy dz) s L13 i j k = (s uw_ i j k - s u_ i j k * s w_ i j k)%R /\
  cellval (main_body dx dy dz) s L21 i j k = (s vu_ i j k - s v_ i j k * s u_ i j k)%R /\
  cellval (main_body dx dy dz) s L22 i j k = (s vv_ i j k - s v_ i j k * s v_ i j k)%R /\
  cellval (main_body dx dy dz) s L23 i j k = (s vw_ i j k - s v_ i j k * s w_ i j k)%R /\
  cellval (main_body dx dy dz) s L31 i j k = (s wu_ i j k - s w_ i j k * s u_ i j k)%R /\
  cellval (main_body dx dy dz) s L32 i j k = (s wv_ i j k - s w_ i j k * s v_ i j k)%R /\
  cellval (main_body dx dy dz) s L33 i j k = (s ww_ i j k - s w_ i j k * s w_ i j k)%R.
Proof. repeat split; run_cell main_body; reflexivity. Qed.

End CellValues.

Section FinalCell.
Variables DD small : real.
Variable s : Store var.
Variables i j k : Z.

Lemma final_cell_fails :
  final_body DD small i j k s = None <->
  (ddot (Mtensor DD s i j k) (Mtensor DD s i j k) + small = 0)%R.
Proof.
  rewrite <- (rdiv_none (ddot (dev (Leonard s i j k)) (Mtensor DD s i j k))).
  lazy beta iota zeta delta
    [final_body seq assign local divide wr name_eqb var_Name var_beq].
  rewrite ?Z.eqb_refl; cbn [andb].
  match goal with
  | |- match rdiv ?a ?b with _ => _ end = None <-> _ =>
      change (rdiv (ddot (dev (Leonard s i j k)) (Mtensor DD s i j k))
                   (ddot (Mtensor DD s i j k) (Mtensor DD s i j k) + small))
        with (rdiv a b)
  end.
  match goal with
  | |- match ?r with _ => _ end = None <-> _ => destruct r
  end; split; intros E; try reflexivity; discriminate.
Qed.

Hypothesis Hden :
  (ddot (Mtensor DD s i j k) (Mtensor DD s i j k) + small <> 0)%R.

End FinalCell.

(** Outside the arrays a local iteration assigns, a cell keeps its value. *)
Lemma cellval_frame {T V : Type} (W : V -> bool) (body : Z -> Z -> Z -> stmtOf T V)
  (s : StoreOf T V) (y : V) (a b c : Z) :
  (forall i j k, stmt_local W i j k (body i j k)) ->
  W y = false -> cellval body s y a b c = s y a b c.
Proof.
  intros Hl Wy. unfold cellval. destruct (body a b c s) as [s'|] eqn:E; [|reflexivity].
  apply (proj1 (Hl a b c) s s' E). left. exact Wy.
Qed.

Lemma cellwise_frame {T V : Type} (W : V -> bool) (body : Z -> Z -> Z -> stmtOf T V)
  ilo ihi jlo jhi klo khi (s : StoreOf T V) (y : V) (a b c : Z) :
  (forall i j k, stmt_local W i j k (body i j k)) ->
  W y = false -> cellwise ilo ihi jlo jhi klo khi body s y a b c = s y a b c.
Proof.
  intros Hl Wy. unfold cellwise.
  destruct (inboxb ilo ihi jlo jhi klo khi a b c); [|reflexivity].
  apply cellval_frame with W; assumption.
Qed.

Lemma cellwise_in {T V : Type} (body : Z -> Z -> Z -> stmtOf T V)
  ilo ihi jlo jhi klo khi (s : StoreOf T V) (y : V) (a b c : Z) :
  inboxb ilo ihi jlo jhi klo khi a b c = true ->
  cellwise ilo ihi jlo jhi klo khi body s y a b c = cellval body s y a b c.
Proof. intros E. unfold cellwise. rewrite E. reflexivity. Qed.


(** ** The stores between the loop nests *)

Section Stages.
Variables LEN HIG DEP : Z.
Variables dx dy dz DD small : real.
Variable fresh : buffer -> Array3.
Variable st : Store var.

Definition stage_prim : Store var :=
  cellwise 0 (LENN LEN + 1) 0 (HIGG HIG + 1) 0 (DEPP DEP + 1) prim_body
    (DS_alloc fresh st).

Definition stage_prod : Store var :=
  cellwise 0 (LENN LEN + 1) 0 (HIGG HIG + 1) 0 (DEPP DEP + 1) prod_body stage_prim.

Definition stage_filt : Store var :=
  DS_filter_velocities LEN HIG DEP fresh stage_prod.

Definition stage_main : Store var :=
  cellwise 1 (LENN LEN) 1 (HIGG HIG) 1 (DEPP DEP) (main_body dx dy dz) stage_filt.

Definition stage_pre : Store var :=
  DS_filter_A LEN HIG DEP fresh stage_main.

Definition stage_final : Store var :=
  cellwise 1 (LENN LEN) 1 (HIGG HIG) 1 (DEPP DEP) (final_body DD small) stage_pre.
End Stages.

Lemma ddot_self_nonneg (m : tensor) : (0 <= ddot m m)%R.
Proof.
  unfold ddot.
  repeat apply Rplus_le_le_0_compat; apply Rle_0_sqr.
Qed.

Lemma guard_nonzero (small : real) (m : tensor) :
  (0 < small)%R -> (ddot m m + small <> 0)%R.
Proof. intros Hs. pose proof (ddot_self_nonneg m). lra. Qed.

Lemma padded_box LEN HIG DEP a b c :
  inboxb 0 (LENN LEN + 1) 0 (HIGG HIG + 1) 0 (DEPP DEP + 1) a b c =
  padded LEN HIG DEP a b c.
Proof.
  unfold padded, LENN, HIGG, DEPP.
  replace (LEN + 1 + 1) with (LEN + 2) by lia.
  replace (HIG + 1 + 1) with (HIG + 2) by lia.
  replace (DEP + 1 + 1) with (DEP + 2) by lia. reflexivity.
Qed.

Section Runs.
Variables LEN HIG DEP : Z.
Variables dx dy dz DD small : real.
Variable fresh : buffer -> Array3.

(** The first loop nest succeeds exactly when the density is not zero at
    any cell of the padded grid. *)
Lemma prim_run_iff (s : Store var) :
  for3E 0 (LENN LEN + 1) 0 (HIGG HIG + 1) 0 (DEPP DEP + 1) prim_body s <> None <->
  (forall a b c, padded LEN HIG DEP a b c = true -> s rho a b c <> 0%R).
Proof.
  split.
  - intros Hrun a b c Hp E.
    destruct (for3E 0 (LENN LEN + 1) 0 (HIGG HIG + 1) 0 (DEPP DEP + 1) prim_body s)
      as [s'|] eqn:R; [|apply Hrun; reflexivity].
    apply (for3E_local_succeeds _ prim_body_local _ R (i := a) (j := b) (k := c)).
    + apply inboxb_spec. rewrite padded_box. exact Hp.
    + apply prim_cell_fails, E.
  - intros Hrho. rewrite (for3E_local _ prim_body_local); [discriminate|].
    intros a b c Hb E. apply prim_cell_fails in E. revert E. apply Hrho.
    rewrite <- padded_box. apply inboxb_spec, Hb.
Qed.

Lemma prim_run (s : Store var) :
  (forall a b c, padded LEN HIG DEP a b c = true -> s rho a b c <> 0%R) ->
  for3E 0 (LENN LEN + 1) 0 (HIGG HIG + 1) 0 (DEPP DEP + 1) prim_body s =
  Some (cellwise 0 (LENN LEN + 1) 0 (HIGG HIG + 1) 0 (DEPP DEP + 1) prim_body s).
Proof.
  intros Hrho. apply (for3E_local _ prim_body_local).
  intros a b c Hb E. apply prim_cell_fails in E. revert E. apply Hrho.
  rewrite <- padded_box. apply inboxb_spec, Hb.
Qed.

Lemma prod_run ilo ihi jlo jhi klo khi (s : Store var) :
  for3E ilo ihi jlo jhi klo khi prod_body s =
  Some (cellwise ilo ihi jlo jhi klo khi prod_body s).
Proof.
  apply (for3E_local _ prod_body_local). intros a b c _. apply prod_body_total.
Qed.

Lemma main_run ilo ihi jlo jhi klo khi (s : Store var) :
  for3E ilo ihi jlo jhi klo khi (main_body dx dy dz) s =
  Some (cellwise ilo ihi jlo jhi klo khi (main_body dx dy dz) s).
Proof.
  apply (for3E_local _ (main_body_local dx dy dz)). intros a b c _. apply main_body_total.
Qed.

Lemma final_run ilo ihi jlo jhi klo khi (s : Store var) :
  (0 < small)%R ->
  for3E ilo ihi jlo jhi klo khi (final_body DD small) s =
  Some (cellwise ilo ihi jlo jhi klo khi (final_body DD small) s).
Proof.
  intros Hs. apply (for3E_local _ (final_body_local DD small)).
  intros a b c _ E. apply final_cell_fails in E. revert E. apply guard_nonzero, Hs.
Qed.

Lemma DS_alloc_arguments (st : Store var) :
  DS_alloc fresh st rho = st rho /\ DS_alloc fresh st ru = st ru /\
  DS_alloc fresh st rv = st rv /\ DS_alloc fresh st rw = st rw /\
  DS_alloc fresh st mu_SGS = st mu_SGS.
Proof. repeat split; reflexivity. Qed.

Variable st : Store var.
Hypothesis Hrho : forall a b c, padded LEN HIG DEP a b c = true -> st rho a b c <> 0%R.

(** The run up to the last loop nest succeeds and ends in [stage_pre]. *)
Lemma DS_pre_run :
  DS_pre LEN HIG DEP dx dy dz fresh st =
  Some (stage_pre LEN HIG DEP dx dy dz fresh st).
Proof.
  unfold DS_pre, seq, lift.
  rewrite prim_run by exact Hrho.
  rewrite prod_run, main_run. reflexivity.
Qed.

(** The whole run succeeds and ends in [stage_final]. *)
Lemma DynamicSmagorinsky_run :
  (0 < small)%R ->
  DynamicSmagorinsky LEN HIG DEP dx dy dz DD small fresh st =
  Some (stage_final LEN HIG DEP dx dy dz DD small fresh st).
Proof.
  intros Hs. unfold DynamicSmagorinsky, seq. rewrite DS_pre_run.
  apply final_run, Hs.
Qed.
End Runs.

(** ** Reading the stores between the loop nests *)

(** The six cells the central differences at [(i,j,k)] read. *)
Definition near (i j k a b c : Z) : Prop :=
  (b = j /\ c = k /\ (a = i + 1 \/ a = i - 1)) \/
  (a = i /\ c = k /\ (b = j + 1 \/ b = j - 1)) \/
  (a = i /\ b = j /\ (c = k + 1 \/ c = k - 1)).

(** The cells the central differences of the interior read. *)
Definition differencing_reads (LEN HIG DEP a b c : Z) : bool :=
  interior LEN HIG DEP (a - 1) b c || interior LEN HIG DEP (a + 1) b c ||
  interior LEN HIG DEP a (b - 1) c || interior LEN HIG DEP a (b + 1) c ||
  interior LEN HIG DEP a b (c - 1) || interior LEN HIG DEP a b (c + 1).

Definition is_local_array (y : var) : bool :=
  match y with
  | rho | ru | rv | rw | mu_SGS => false
  | _ => true
  end.

Definition is_filtered_velocity (y : var) : bool :=
  match y with
  | u_ | v_ | w_ | uu_ | uv_ | uw_ | vu_ | vv_ | vw_ | wu_ | wv_ | ww_ => true
  | _ => false
  end.

Definition is_filtered_A (y : var) : bool :=
  match y with
  | A11_ | A12_ | A13_ | A21_ | A22_ | A23_ | A31_ | A32_ | A33_ => true
  | _ => false
  end.

Lemma strain_ext dx dy dz (u v w u' v' w' : Array3) i j k :
  (forall a b c, near i j k a b c ->
     u a b c = u' a b c /\ v a b c = v' a b c /\ w a b c = w' a b c) ->
  strain dx dy dz u v w i j k = strain dx dy dz u' v' w' i j k.
Proof.
  intros Hn.
  destruct (Hn (i + 1) j k) as (U1 & V1 & W1); [unfold near; lia|].
  destruct (Hn (i - 1) j k) as (U2 & V2 & W2); [unfold near; lia|].
  destruct (Hn i (j + 1) k) as (U3 & V3 & W3); [unfold near; lia|].
  destruct (Hn i (j - 1) k) as (U4 & V4 & W4); [unfold near; lia|].
  destruct (Hn i j (k + 1)) as (U5 & V5 & W5); [unfold near; lia|].
  destruct (Hn i j (k - 1)) as (U6 & V6 & W6); [unfold near; lia|].
  unfold strain.
  rewrite U1, U2, U3, U4, U5, U6, V1, V2, V3, V4, V5, V6, W1, W2, W3, W4, W5, W6.
  reflexivity.
Qed.

Lemma near_differencing LEN HIG DEP i j k a b c :
  interior LEN HIG DEP i j k = true -> near i j k a b c ->
  differencing_reads LEN HIG DEP a b c = true.
Proof.
  intros I N. unfold differencing_reads. rewrite !orb_true_iff.
  destruct N as [(-> & -> & [-> | ->]) | [(-> & -> & [-> | ->]) | (-> & -> & [-> | ->])]].
  - do 5 left. replace (i + 1 - 1) with i by lia. exact I.
  - do 4 left. right. replace (i - 1 + 1) with i by lia. exact I.
  - do 3 left. right. replace (j + 1 - 1) with j by lia. exact I.
  - do 2 left. right. replace (j - 1 + 1) with j by lia. exact I.
  - left. right. replace (k + 1 - 1) with k by lia. exact I.
  - right. replace (k - 1 + 1) with k by lia. exact I.
Qed.

Lemma differencing_padded LEN HIG DEP a b c :
  differencing_reads LEN HIG DEP a b c = true -> padded LEN HIG DEP a b c = true.
Proof.
  unfold differencing_reads. rewrite !orb_true_iff, padded_spec.
  intros [[[[[I | I] | I] | I] | I] | I]; apply interior_spec in I; lia.
Qed.

Section StageReads.
Variables LEN HIG DEP : Z.
Variables dx dy dz DD small : real.
Variable fresh : buffer -> Array3.
Variable st : Store var.



Lemma DS_filter_A_other (s : Store var) y :
  is_filtered_A y = false -> DS_filter_A LEN HIG DEP fresh s y = s y.
Proof. destruct y; intros E; try discriminate E; reflexivity. Qed.
End StageReads.

Section LoopKeeps.
Variables dx dy dz DD small : real.
Variables ilo ihi jlo jhi klo khi : Z.
Variable s : Store var.
Variable y : var.
Variables a b c : Z.

Lemma prim_keeps :
  W_prim y = false -> cellwise ilo ihi jlo jhi klo khi prim_body s y a b c = s y a b c.
Proof. apply cellwise_frame, prim_body_local. Qed.

Lemma prod_keeps :
  W_prod y = false -> cellwise ilo ihi jlo jhi klo khi prod_body s y a b c = s y a b c.
Proof. apply cellwise_frame, prod_body_local. Qed.


Lemma final_keeps :
  W_final y = false ->
  cellwise ilo ihi jlo jhi klo khi (final_body DD small) s y a b c = s y a b c.
Proof. apply cellwise_frame, final_body_local. Qed.

End LoopKeeps.

Section StageFacts.
Variables LEN HIG DEP : Z.
Variables dx dy dz DD small : real.
Variable fresh : buffer -> Array3.
Variable st : Store var.



Lemma interior_box i j k :
  interior LEN HIG DEP i j k = true ->
  inboxb 1 (LENN LEN) 1 (HIGG HIG) 1 (DEPP DEP) i j k = true.
Proof. intros I. exact I. Qed.

Lemma near_padded i j k a b c :
  interior LEN HIG DEP i j k = true -> near i j k a b c ->
  padded LEN HIG DEP a b c = true.
Proof.
  intros I N. apply differencing_padded. exact (near_differencing _ _ _ I N).
Qed.

Hypothesis Hrho : forall a b c, padded LEN HIG DEP a b c = true -> st rho a b c <> 0%R.

(** The Leonard tensor the main loop nest leaves. *)
Lemma stage_pre_Leonard i j k :
  interior LEN HIG DEP i j k = true ->
  let s := stage_filt LEN HIG DEP fresh st in
  Leonard (stage_pre LEN HIG DEP dx dy dz fresh st) i j k =
  T9 (s uu_ i j k - s u_ i j k * s u_ i j k) (s uv_ i j k - s u_ i j k * s v_ i j k)
     (s uw_ i j k - s u_ i j k * s w_ i j k) (s vu_ i j k - s v_ i j k * s u_ i j k)
     (s vv_ i j k - s v_ i j k * s v_ i j k) (s vw_ i j k - s v_ i j k * s w_ i j k)
     (s wu_ i j k - s w_ i j k * s u_ i j k) (s wv_ i j k - s w_ i j k * s v_ i j k)
     (s ww_ i j k - s w_ i j k * s w_ i j k)%R.
Proof.
  intros I s. unfold Leonard, stage_pre.
  rewrite !DS_filter_A_other by reflexivity. unfold stage_main.
  rewrite !cellwise_in by exact I.
  destruct (main_cell_Leonard dx dy dz (stage_filt LEN HIG DEP fresh st) i j k)
    as (E1 & E2 & E3 & E4 & E5 & E6 & E7 & E8 & E9).
  rewrite E1, E2, E3, E4, E5, E6, E7, E8, E9. reflexivity.
Qed.

Hypothesis Hsmall : (0 < small)%R.




End StageFacts.

(** ** Algebra of the last loop nest *)


(** ** Inputs for the examples *)

(** Density one, no momentum, output zero. *)
Definition unit_store : Store var :=
  fun y => match y with rho => const3 1 | _ => const3 0 end.

(** Every fresh buffer zeroed. *)
Definition zero_fresh : buffer -> Array3 := fun _ => const3 0.

(** Every fresh buffer zeroed, but for the scratch buffer of the call that
    filters [u v], which holds ones. *)
Definition uv_fresh : buffer -> Array3 :=
  fun b => match b with Scratch uv_ => const3 1 | _ => const3 0 end.

Lemma unit_store_density (LEN HIG DEP : Z) :
  forall a b c, padded LEN HIG DEP a b c = true -> unit_store rho a b c <> 0%R.
Proof. intros a b c _. unfold unit_store, const3. lra. Qed.

(** * The estimator: main results *)



(** Density one everywhere but at the corner (0,0,0) of the grid, where it
    is zero. *)
Definition corner_void : Store var :=
  fun y a b c =>
    match y with
    | rho => if (a =? 0) && (b =? 0) && (c =? 0) then 0%R else 1%R
    | _ => 0%R
    end.

Lemma corner_not_read LEN HIG DEP : differencing_reads LEN HIG DEP 0 0 0 = false.
Proof.
  unfold differencing_reads, interior, inboxb. cbn.
  rewrite !andb_false_r. reflexivity.
Qed.

(** C10.  The first loop nest divides by the density at every cell of the
    padded grid: it succeeds exactly when the density is zero at none of
    them.  The cells the central differences of the interior read are
    cells of the grid, the strain depends on the velocities at those
    cells only, and a density that is zero at none of them can still make
    the first loop nest fail. *)
Theorem primitive_recovery_domain (LEN HIG DEP : Z) :
  0 <= LEN -> 0 <= HIG -> 0 <= DEP ->
  (forall s : Store var,
     for3E 0 (LENN LEN + 1) 0 (HIGG HIG + 1) 0 (DEPP DEP + 1) prim_body s <> None <->
     (forall a b c, padded LEN HIG DEP a b c = true -> s rho a b c <> 0%R)) /\
  (forall a b c, differencing_reads LEN HIG DEP a b c = true ->
     padded LEN HIG DEP a b c = true) /\
  (forall dx dy dz (u v w u' v' w' : Array3),
     (forall a b c, differencing_reads LEN HIG DEP a b c = true ->
        u a b c = u' a b c /\ v a b c = v' a b c /\ w a b c = w' a b c) ->
     forall i j k, interior LEN HIG DEP i j k = true ->
       strain dx dy dz u v w i j k = strain dx dy dz u' v' w' i j k) /\
  (exists s : Store var,
     (forall a b c, differencing_reads LEN HIG DEP a b c = true -> s rho a b c <> 0%R) /\
     for3E 0 (LENN LEN + 1) 0 (HIGG HIG + 1) 0 (DEPP DEP + 1) prim_body s = None).
Proof.
  intros HL HH HD. split; [apply prim_run_iff|].
  split; [apply differencing_padded|]. split.
  - intros dx dy dz u v w u' v' w' Hag i j k I. apply strain_ext.
    intros a b c N. apply Hag. exact (near_differencing _ _ _ I N).
  - exists corner_void. split.
    + intros a b c Hd. unfold corner_void.
      destruct (a =? 0) eqn:Ea, (b =? 0) eqn:Eb, (c =? 0) eqn:Ec; cbn; try lra.
      apply Z.eqb_eq in Ea, Eb, Ec. subst.
      rewrite corner_not_read in Hd. discriminate.
    + destruct (for3E 0 (LENN LEN + 1) 0 (HIGG HIG + 1) 0 (DEPP DEP + 1) prim_body
                  corner_void) as [s'|] eqn:R; [|reflexivity].
      exfalso.
      assert (N : for3E 0 (LENN LEN + 1) 0 (HIGG HIG + 1) 0 (DEPP DEP + 1) prim_body
                    corner_void <> None) by (rewrite R; discriminate).
      apply (proj1 (prim_run_iff LEN HIG DEP _) N 0 0 0); [|reflexivity].
      apply padded_spec. lia.
Qed.

Lemma primitive_recovery_domain_witness :
  (forall s : Store var,
     for3E 0 (LENN 1 + 1) 0 (HIGG 1 + 1) 0 (DEPP 1 + 1) prim_body s <> None <->
     (forall a b c, padded 1 1 1 a b c = true -> s rho a b c <> 0%R)) /\
  (forall a b c, differencing_reads 1 1 1 a b c = true -> padded 1 1 1 a b c = true) /\
  (forall dx dy dz (u v w u' v' w' : Array3),
     (forall a b c, differencing_reads 1 1 1 a b c = true ->
        u a b c = u' a b c /\ v a b c = v' a b c /\ w a b c = w' a b c) ->
     forall i j k, interior 1 1 1 i j k = true ->
       strain dx dy dz u v w i j k = strain dx dy dz u' v' w' i j k) /\
  (exists s : Store var,
     (forall a b c, differencing_reads 1 1 1 a b c = true -> s rho a b c <> 0%R) /\
     for3E 0 (LENN 1 + 1) 0 (HIGG 1 + 1) 0 (DEPP 1 + 1) prim_body s = None).
Proof. apply (@primitive_recovery_domain 1 1 1); lia. Defined.

(** ** A run in which the Leonard tensor is not symmetric *)

Lemma tap_zero (h : kernel) : tap h 0 0 0 = 0%R.
Proof. unfold tap. ring. Qed.

Lemma filter_zero LEN HIG DEP (h : kernel) a b c :
  filter_ LEN HIG DEP (const3 0) (const3 0) (const3 0) h a b c = 0%R.
Proof.
  rewrite filter_cellwise.
  assert (E1 : forall a b c,
            after1 LEN HIG DEP (const3 0) (const3 0) h a b c = 0%R).
  { intros. unfold after1, const3. rewrite tap_zero.
    destruct (box1 LEN HIG DEP _ _ _); reflexivity. }
  assert (E2 : forall a b c,
            after2 LEN HIG DEP (const3 0) (const3 0) (const3 0) h a b c = 0%R).
  { intros. unfold after2. rewrite !E1, tap_zero. unfold const3.
    destruct (box2 LEN HIG DEP _ _ _); reflexivity. }
  unfold after3. rewrite !E2, E1, tap_zero.
  destruct (box3 LEN HIG DEP _ _ _); reflexivity.
Qed.

(** On the grid with one interior cell, the zero field filtered at (1,1,1)
    is a third of what the buffer [U_] held at (2,1,1). *)
Lemma filter_corner (x : real) :
  filter_ 1 1 1 (const3 x) (const3 0) (const3 0) FilterKer 1 1 1 = (x / 3)%R.
Proof.
  rewrite (@filter_last_plane 1 1 1) by lia.
  unfold after2, after1, tap, hk, FilterKer, const3; simpl; lra.
Qed.

Lemma filter_calls LEN HIG DEP (fresh : buffer -> Array3) (s : Store var) :
  let f x src :=
    filter_ LEN HIG DEP (fresh (Scratch x)) (fresh (Own x)) (s src) FilterKer in
  DS_filter_velocities LEN HIG DEP fresh s u_ = f u_ u /\
  DS_filter_velocities LEN HIG DEP fresh s v_ = f v_ v /\
  DS_filter_velocities LEN HIG DEP fresh s w_ = f w_ w /\
  DS_filter_velocities LEN HIG DEP fresh s uv_ = f uv_ L12 /\
  DS_filter_velocities LEN HIG DEP fresh s vu_ = f vu_ L21.
Proof. repeat split; reflexivity. Qed.

Section AtRest.
Variables LEN HIG DEP : Z.
Variable fresh : buffer -> Array3.
Hypothesis Hu : fresh (Own u) = const3 0.
Hypothesis Hv : fresh (Own v) = const3 0.
Hypothesis H12 : fresh (Own L12) = const3 0.
Hypothesis H21 : fresh (Own L21) = const3 0.

(** With no momentum the velocities, and their products, are zero. *)
Lemma at_rest_velocity :
  stage_prim LEN HIG DEP fresh unit_store u = const3 0 /\
  stage_prim LEN HIG DEP fresh unit_store v = const3 0.
Proof.
  split; extensionality a; extensionality b; extensionality c;
    unfold stage_prim, cellwise;
    destruct (inboxb 0 (LENN LEN + 1) 0 (HIGG HIG + 1) 0 (DEPP DEP + 1) a b c).
  - destruct (@prim_cell_u (DS_alloc fresh unit_store) a b c) as (E & _).
    + change (1 <> 0)%R. lra.
    + rewrite E. change (0 * (1 / 1) = 0)%R. field.
  - change (fresh (Own u) a b c = const3 0 a b c). rewrite Hu. reflexivity.
  - destruct (@prim_cell_u (DS_alloc fresh unit_store) a b c) as (_ & E & _).
    + change (1 <> 0)%R. lra.
    + rewrite E. change (0 * (1 / 1) = 0)%R. field.
  - change (fresh (Own v) a b c = const3 0 a b c). rewrite Hv. reflexivity.
Qed.

Lemma at_rest_products :
  stage_prod LEN HIG DEP fresh unit_store L12 = const3 0 /\
  stage_prod LEN HIG DEP fresh unit_store L21 = const3 0 /\
  stage_prod LEN HIG DEP fresh unit_store u = const3 0 /\
  stage_prod LEN HIG DEP fresh unit_store v = const3 0.
Proof.
  destruct at_rest_velocity as (Eu & Ev).
  assert (K : forall a b c,
            stage_prim LEN HIG DEP fresh unit_store L12 a b c = 0%R /\
            stage_prim LEN HIG DEP fresh unit_store L21 a b c = 0%R).
  { intros a b c. unfold stage_prim. rewrite !prim_keeps by reflexivity.
    change (fresh (Own L12) a b c = 0%R /\ fresh (Own L21) a b c = 0%R).
    rewrite H12, H21. split; reflexivity. }
  repeat split; extensionality a; extensionality b; extensionality c;
    unfold stage_prod.
  - unfold cellwise.
    destruct (inboxb 0 (LENN LEN + 1) 0 (HIGG HIG + 1) 0 (DEPP DEP + 1) a b c);
      [|apply K].
    destruct (prod_cell (stage_prim LEN HIG DEP fresh unit_store) a b c)
      as (_ & E & _). rewrite E, Eu, Ev. unfold const3. ring.
  - unfold cellwise.
    destruct (inboxb 0 (LENN LEN + 1) 0 (HIGG HIG + 1) 0 (DEPP DEP + 1) a b c);
      [|apply K].
    destruct (prod_cell (stage_prim LEN HIG DEP fresh unit_store) a b c)
      as (_ & _ & _ & E & _). rewrite E, Eu, Ev. unfold const3. ring.
  - rewrite prod_keeps by reflexivity. rewrite Eu. reflexivity.
  - rewrite prod_keeps by reflexivity. rewrite Ev. reflexivity.
Qed.
End AtRest.

(** C6, at a failing input.  On the grid with one interior cell, with
    density one and no momentum, when every fresh buffer held zeros but
    the buffer [U_] of the call that filters [u v], which held ones, the
    run succeeds and leaves [L12 = 1/3] and [L21 = 0] at the interior cell
    (1,1,1), before and after the last loop nest. *)
Theorem Leonard_not_symmetric :
  interior 1 1 1 1 1 1 = true /\
  exists s st',
    DS_pre 1 1 1 1 1 1 uv_fresh unit_store = Some s /\
    DynamicSmagorinsky 1 1 1 1 1 1 1 1 uv_fresh unit_store = Some st' /\
    s L12 1 1 1 = (1 / 3)%R /\ s L21 1 1 1 = 0%R /\
    st' L12 1 1 1 = (1 / 3)%R /\ st' L21 1 1 1 = 0%R.
Proof.
  split; [reflexivity|].
  exists (stage_pre 1 1 1 1 1 1 uv_fresh unit_store),
         (stage_final 1 1 1 1 1 1 1 1 uv_fresh unit_store).
  split; [apply DS_pre_run, unit_store_density|].
  split; [apply DynamicSmagorinsky_run; [apply unit_store_density|lra]|].
  assert (I : interior 1 1 1 1 1 1 = true) by reflexivity.
  pose proof (@stage_pre_Leonard 1 1 1 1 1 1 uv_fresh unit_store 1 1 1 I) as E.
  cbv zeta in E.
  destruct (filter_calls 1 1 1 uv_fresh (stage_prod 1 1 1 uv_fresh unit_store))
    as (Fu & Fv & _ & Fuv & Fvu). cbv zeta in Fu, Fv, Fuv, Fvu.
  destruct (@at_rest_products 1 1 1 uv_fresh eq_refl eq_refl eq_refl eq_refl)
    as (P12 & P21 & Pu & Pv).
  unfold stage_filt in E. rewrite Fu, Fv, Fuv, Fvu, P12, P21, Pu, Pv in E.
  change (uv_fresh (Scratch uv_)) with (const3 1) in E.
  change (uv_fresh (Scratch vu_)) with (const3 0) in E.
  change (uv_fresh (Scratch u_)) with (const3 0) in E.
  change (uv_fresh (Scratch v_)) with (const3 0) in E.
  change (uv_fresh (Own uv_)) with (const3 0) in E.
  change (uv_fresh (Own vu_)) with (const3 0) in E.
  change (uv_fresh (Own u_)) with (const3 0) in E.
  change (uv_fresh (Own v_)) with (const3 0) in E.
  rewrite !filter_corner in E.
  assert (E12 : stage_pre 1 1 1 1 1 1 uv_fresh unit_store L12 1 1 1 = (1 / 3)%R).
  { change (t12 (Leonard (stage_pre 1 1 1 1 1 1 uv_fresh unit_store) 1 1 1) = (1 / 3)%R).
    rewrite E. cbn. lra. }
  assert (E21 : stage_pre 1 1 1 1 1 1 uv_fresh unit_store L21 1 1 1 = 0%R).
  { change (t21 (Leonard (stage_pre 1 1 1 1 1 1 uv_fresh unit_store) 1 1 1) = 0%R).
    rewrite E. cbn. lra. }
  split; [exact E12|]. split; [exact E21|].
  unfold stage_final. rewrite !final_keeps by reflexivity.
  split; assumption.
Qed.

(** * Further properties of the filter *)



Section FilterDefined.
Variables LEN HIG DEP : Z.
Variables m_ m__ Uin : Array3.
Variable h : kernel.



End FilterDefined.

Section FilterReads.
Variables LEN HIG DEP : Z.
Variables m_ m__ Uin Uin' : Array3.
Variable h : kernel.
Hypothesis Hag : forall i j k, padded LEN HIG DEP i j k = true -> Uin i j k = Uin' i j k.

Lemma after1_reads a b c :
  after1 LEN HIG DEP m__ Uin h a b c = after1 LEN HIG DEP m__ Uin' h a b c.
Proof.
  unfold after1. destruct (box1 LEN HIG DEP a b c) eqn:B; [|reflexivity].
  unfold box1, LENN, HIGG, DEPP in B. apply inboxb_spec in B. unfold inbox in B.
  rewrite !Hag by (apply padded_spec; lia). reflexivity.
Qed.

Lemma after2_reads a b c :
  after2 LEN HIG DEP m_ m__ Uin h a b c = after2 LEN HIG DEP m_ m__ Uin' h a b c.
Proof. unfold after2. rewrite !after1_reads. reflexivity. Qed.

Lemma after3_reads a b c :
  after3 LEN HIG DEP m_ m__ Uin h a b c = after3 LEN HIG DEP m_ m__ Uin' h a b c.
Proof. unfold after3. rewrite !after2_reads, after1_reads. reflexivity. Qed.
End FilterReads.

(** X4.  The filter reads its argument inside the padded grid only: two
    arguments that agree on the (LEN+2) x (HIG+2) x (DEP+2) cells of the
    grid give the same returned array, at every cell. *)
Theorem filter_reads_grid_only (LEN HIG DEP : Z) (m_ m__ Uin Uin' : Array3) (h : kernel) :
  (forall i j k, padded LEN HIG DEP i j k = true -> Uin i j k = Uin' i j k) ->
  forall i j k,
    filter_ LEN HIG DEP m_ m__ Uin h i j k = filter_ LEN HIG DEP m_ m__ Uin' h i j k.
Proof. intros Hag i j k. rewrite !filter_cellwise. apply after3_reads, Hag. Qed.

Lemma filter_reads_grid_only_witness :
  filter_ 1 1 1 (const3 7) (const3 9) (const3 5) FilterKer 1 1 1 =
  filter_ 1 1 1 (const3 7) (const3 9)
    (fun i j k => if padded 1 1 1 i j k then 5%R else 0%R) FilterKer 1 1 1.
Proof.
  apply (@filter_reads_grid_only 1 1 1 (const3 7) (const3 9) (const3 5)
           (fun i j k => if padded 1 1 1 i j k then 5%R else 0%R) FilterKer).
  intros i j k P. rewrite P. reflexivity.
Defined.

(** X5.  The third pass starts at [i = 1] and writes into the buffer of
    the first pass, so the plane [i = 0] of the returned array is the
    argument filtered along [j] only; the plane [i = LEN + 1] is assigned
    by no pass and holds what [Array3D] returned. *)
Theorem filter_ghost_planes (LEN HIG DEP : Z) (m_ m__ Uin : Array3) (h : kernel) j k :
  0 <= LEN -> 1 <= j <= HIG -> 0 <= k <= DEP ->
  filter_ LEN HIG DEP m_ m__ Uin h 0 j k =
    tap h (Uin 0 (j - 1) k) (Uin 0 j k) (Uin 0 (j + 1) k) /\
  filter_ LEN HIG DEP m_ m__ Uin h (LEN + 1) j k = m__ (LEN + 1) j k.
Proof.
  intros HL Hj Hk. rewrite !filter_cellwise. unfold after3, after1.
  assert (B30 : box3 LEN HIG DEP 0 j k = false).
  { unfold box3. destruct (inboxb _ _ _ _ _ _ _ _ _) eqn:E; [|reflexivity].
    apply inboxb_spec in E. unfold inbox in E. lia. }
  assert (B10 : box1 LEN HIG DEP 0 j k = true).
  { unfold box1, LENN, HIGG, DEPP. apply inboxb_spec. unfold inbox. lia. }
  assert (B3L : box3 LEN HIG DEP (LEN + 1) j k = false).
  { unfold box3, LENN. destruct (inboxb _ _ _ _ _ _ _ _ _) eqn:E; [|reflexivity].
    apply inboxb_spec in E. unfold inbox in E. lia. }
  assert (B1L : box1 LEN HIG DEP (LEN + 1) j k = false).
  { unfold box1, LENN. destruct (inboxb _ _ _ _ _ _ _ _ _) eqn:E; [|reflexivity].
    apply inboxb_spec in E. unfold inbox in E. lia. }
  rewrite B30, B10, B3L, B1L. split; reflexivity.
Qed.

Lemma filter_ghost_planes_witness :
  filter_ 1 1 1 (const3 7) (const3 9) (const3 5) FilterKer 0 1 1 =
    tap FilterKer (const3 5 0 (1 - 1) 1) (const3 5 0 1 1) (const3 5 0 (1 + 1) 1) /\
  filter_ 1 1 1 (const3 7) (const3 9) (const3 5) FilterKer (1 + 1) 1 1 =
    const3 9 (1 + 1) 1 1.
Proof.
  apply (@filter_ghost_planes 1 1 1 (const3 7) (const3 9) (const3 5) FilterKer 1 1); lia.
Defined.

(** * Further properties of the estimator *)

(** X6.  With a positive guard, the run is defined exactly when the
    density is zero at no cell of the padded grid, ghost cells, edges
    and corners included. *)
Theorem DynamicSmagorinsky_defined_iff (LEN HIG DEP : Z)
  (dx dy dz DD small : real) (fresh : buffer -> Array3) (st : Store var) :
  (0 < small)%R ->
  (DynamicSmagorinsky LEN HIG DEP dx dy dz DD small fresh st <> None <->
   forall a b c, padded LEN HIG DEP a b c = true -> st rho a b c <> 0%R).
Proof.
  intros Hs. split.
  - intros Hrun.
    apply (proj1 (prim_run_iff LEN HIG DEP (DS_alloc fresh st))).
    intros E. apply Hrun.
    unfold DynamicSmagorinsky, DS_pre, seq, lift. rewrite E. reflexivity.
  - intros Hrho. rewrite DynamicSmagorinsky_run by assumption. discriminate.
Qed.

Lemma DynamicSmagorinsky_defined_iff_witness :
  DynamicSmagorinsky 1 1 1 1 1 1 1 1 zero_fresh unit_store <> None <->
  forall a b c, padded 1 1 1 a b c = true -> unit_store rho a b c <> 0%R.
Proof.
  apply (@DynamicSmagorinsky_defined_iff 1 1 1 1 1 1 1 1 zero_fresh unit_store). lra.
Defined.

(** ** Where the tensors are symmetric *)





Section Symmetry.
Variables LEN HIG DEP : Z.
Variables dx dy dz DD small : real.
Variable fresh : buffer -> Array3.
Variable st : Store var.


End Symmetry.








(** * The writer [Output] of [src/output.c] *)

(** One data line of the file: position, density, velocity, pressure,
    temperature and vorticity magnitude, in the order of
    [fprintf(pF, "%g %g %g %g %g %g %g %g %g %g\n", ...)]. *)
Record line : Type := Line {
  o_x : real; o_y : real; o_z : real;
  o_rho : real; o_u : real; o_v : real; o_w : real;
  o_p : real; o_T : real; o_vort : real
}.

(** What a call leaves: [exit(-1)] when the file cannot be opened, or the
    file with the zone sizes of its header and its data lines.  The fixed
    text of the header is left out. *)
Inductive outcome : Type :=
| Exit (code : Z)
| Wrote (zone : Z * Z * Z) (lines : list line).

Notation "'TRY' a ':=' m 'IN' k" :=
  (match m with Some a => k | None => None end)
  (at level 10, a name, m at level 99, k at level 200).

Section Output.
(** [def.h] and [global.h]: sizes, spacings, gas constants and the five
    conservative fields. *)
Variables LEN HIG DEP : Z.
Variables deltaX deltaY deltaZ _2deltaX _2deltaY _2deltaZ K_1 R_VOZD : real.
Variables U1 U2 U3 U4 U5 : Array3.

(** The body of the innermost loop: the line of cell [(i,j,k)]. *)
Definition Output_line (i j k : Z) : option line :=
  let xc := (IZR (i - 1) * deltaX + / 2 * deltaX)%R in
  let yc := (IZR (j - 1) * deltaY + / 2 * deltaY)%R in
  let zc := (IZR (k - 1) * deltaZ + / 2 * deltaZ)%R in
  let Rr := U1 i j k in
  TRY Uu := rdiv (U2 i j k) Rr IN
  TRY Vv := rdiv (U3 i j k) Rr IN
  TRY Ww := rdiv (U4 i j k) Rr IN
  let P := ((U5 i j k - / 2 * Rr * (Uu * Uu + Vv * Vv + Ww * Ww)) * K_1)%R in
  TRY T := rdiv P (R_VOZD * Rr) IN
  TRY v1 := rdiv (U3 (i + 1) j k) (U1 (i + 1) j k) IN
  TRY v2 := rdiv (U3 (i - 1) j k) (U1 (i - 1) j k) IN
  let dv_dx := ((v1 - v2) * _2deltaX)%R in
  TRY w1 := rdiv (U4 (i + 1) j k) (U1 (i + 1) j k) IN
  TRY w2 := rdiv (U4 (i - 1) j k) (U1 (i - 1) j k) IN
  let dw_dx := ((w1 - w2) * _2deltaX)%R in
  TRY u3 := rdiv (U2 i (j + 1) k) (U1 i (j + 1) k) IN
  TRY u4 := rdiv (U2 i (j - 1) k) (U1 i (j - 1) k) IN
  let du_dy := ((u3 - u4) * _2deltaY)%R in
  TRY w3 := rdiv (U4 i (j + 1) k) (U1 i (j + 1) k) IN
  TRY w4 := rdiv (U4 i (j - 1) k) (U1 i (j - 1) k) IN
  let dw_dy := ((w3 - w4) * _2deltaY)%R in
  TRY u5 := rdiv (U2 i j (k + 1)) (U1 i j (k + 1)) IN
  TRY u6 := rdiv (U2 i j (k - 1)) (U1 i j (k - 1)) IN
  let du_dz := ((u5 - u6) * _2deltaZ)%R in
  TRY v5 := rdiv (U3 i j (k + 1)) (U1 i j (k + 1)) IN
  TRY v6 := rdiv (U3 i j (k - 1)) (U1 i j (k - 1)) IN
  let dv_dz := ((v5 - v6) * _2deltaZ)%R in
  let omega23 := (/ 2 * (dw_dy - dv_dz))%R in
  let omega13 := (/ 2 * (du_dz - dw_dx))%R in
  let omega12 := (/ 2 * (dv_dx - du_dy))%R in
  let Omega := sqrt (omega12 * omega12 + omega13 * omega13 + omega23 * omega23) in
  Some (Line xc yc zc Rr Uu Vv Ww P T Omega).

(** The three loops, [k] outermost and [i] innermost, each iteration
    appending its line to the file. *)
Definition Output_lines : option (list line) :=
  for3E 1 (DEPP DEP) 1 (HIGG HIG) 1 (LENN LEN)
    (fun k j i written => TRY l := Output_line i j k IN Some (written ++ [l])) [].

(** [fopen_ok] tells whether [fopen] returned a file. *)
Definition Output (fopen_ok : bool) : option outcome :=
  if fopen_ok
  then TRY ls := Output_lines IN Some (Wrote (LEN, HIG, DEP) ls)
  else Some (Exit (-1)).
End Output.

(** ** Lines written by a loop *)

(** The results of [f] over a list, when none fails. *)
Fixpoint mapM {A B : Type} (f : A -> option B) (l : list A) : option (list B) :=
  match l with
  | [] => Some []
  | a :: l' =>
      TRY b := f a IN
      TRY bs := mapM f l' IN
      Some (b :: bs)
  end.

Lemma foldE_append {A B : Type} (f : A -> option B) (l : list A) (acc : list B) :
  foldE (fun a written => TRY b := f a IN Some (written ++ [b])) l acc =
  TRY bs := mapM f l IN Some (acc ++ bs).
Proof.
  revert acc; induction l as [|a l IH]; intros acc; simpl.
  - rewrite app_nil_r. reflexivity.
  - destruct (f a) as [b|]; [|reflexivity]. rewrite IH.
    destruct (mapM f l) as [bs|]; [|reflexivity].
    rewrite <- app_assoc. reflexivity.
Qed.

Lemma mapM_some_iff {A B : Type} (f : A -> option B) (l : list A) :
  mapM f l <> None <-> forall a, In a l -> f a <> None.
Proof.
  induction l as [|a l IH]; simpl.
  - split; [intros _ a []|discriminate].
  - destruct (f a) as [b|] eqn:E.
    + destruct (mapM f l) as [bs|].
      * split; [|discriminate]. intros _ a' [<-|Hin]; [rewrite E; discriminate|].
        apply (proj1 IH); [discriminate|exact Hin].
      * split; [intros N; contradiction N; reflexivity|].
        intros Hall. exfalso. apply (proj2 IH); [|reflexivity].
        intros a' Hin. apply Hall. right. exact Hin.
    + split; [intros N; contradiction N; reflexivity|].
      intros Hall. exfalso. apply (Hall a); [left; reflexivity|exact E].
Qed.

Lemma mapM_length {A B : Type} (f : A -> option B) (l : list A) (bs : list B) :
  mapM f l = Some bs -> length bs = length l.
Proof.
  revert bs; induction l as [|a l IH]; intros bs; simpl.
  - intros E. injection E as <-. reflexivity.
  - destruct (f a) as [b|]; [|discriminate].
    destruct (mapM f l) as [bs'|]; [|discriminate].
    intros E. injection E as <-. simpl. f_equal. apply IH. reflexivity.
Qed.

Lemma mapM_nth {A B : Type} (f : A -> option B) (l : list A) (bs : list B) n a :
  mapM f l = Some bs -> nth_error l n = Some a -> nth_error bs n = f a.
Proof.
  revert bs n; induction l as [|a0 l IH]; intros bs n; simpl.
  - intros _ E. destruct n; discriminate.
  - destruct (f a0) as [b|] eqn:F; [|discriminate].
    destruct (mapM f l) as [bs'|]; [|discriminate].
    intros E. injection E as <-. destruct n as [|n]; simpl.
    + intros E. injection E as <-. symmetry. exact F.
    + apply IH. reflexivity.
Qed.

(** ** The order in which a loop nest visits its cells *)

Lemma zrange_length lo hi : length (zrange lo hi) = Z.to_nat (hi - lo).
Proof. unfold zrange. rewrite length_map, length_seq. reflexivity. Qed.

Lemma zrange_nth lo hi n :
  (n < Z.to_nat (hi - lo))%nat -> nth_error (zrange lo hi) n = Some (lo + Z.of_nat n).
Proof.
  intros Hn. unfold zrange. rewrite nth_error_map.
  rewrite (nth_error_nth' _ 0%nat) by (rewrite length_seq; exact Hn).
  rewrite seq_nth by exact Hn. reflexivity.
Qed.

Lemma flat_map_length_const {A B : Type} (f : A -> list B) (l : list A) (m : nat) :
  (forall a, length (f a) = m) -> length (flat_map f l) = (length l * m)%nat.
Proof.
  intros Hm. induction l as [|a l IH]; simpl; [reflexivity|].
  rewrite length_app, Hm, IH. reflexivity.
Qed.

Lemma flat_map_nth_const {A B : Type} (f : A -> list B) (l : list A) (m : nat) :
  (forall a, length (f a) = m) ->
  forall p q x, (q < m)%nat -> nth_error l p = Some x ->
    nth_error (flat_map f l) (p * m + q) = nth_error (f x) q.
Proof.
  intros Hm. induction l as [|a l IH]; intros p q x Hq Hp.
  - destruct p; discriminate.
  - destruct p as [|p]; simpl in *.
    + injection Hp as <-. rewrite nth_error_app1 by (rewrite Hm; exact Hq). reflexivity.
    + rewrite nth_error_app2 by (rewrite Hm; lia).
      rewrite Hm. replace (m + p * m + q - m)%nat with (p * m + q)%nat by lia.
      apply IH; assumption.
Qed.

Lemma cells_length ilo ihi jlo jhi klo khi :
  length (cells ilo ihi jlo jhi klo khi) =
  (Z.to_nat (ihi - ilo) * (Z.to_nat (jhi - jlo) * Z.to_nat (khi - klo)))%nat.
Proof.
  unfold cells.
  rewrite (flat_map_length_const _ _
             (m := (Z.to_nat (jhi - jlo) * Z.to_nat (khi - klo))%nat)).
  - rewrite zrange_length. reflexivity.
  - intros i. rewrite (flat_map_length_const _ _ (m := Z.to_nat (khi - klo))).
    + rewrite zrange_length. reflexivity.
    + intros j. rewrite length_map, zrange_length. reflexivity.
Qed.

(** The cell [(i,j,k)] of the box is visited after all cells with a
    smaller first index, then a smaller second, then a smaller third. *)
Lemma cells_nth ilo ihi jlo jhi klo khi i j k :
  inbox ilo ihi jlo jhi klo khi i j k ->
  nth_error (cells ilo ihi jlo jhi klo khi)
    (Z.to_nat (i - ilo) * (Z.to_nat (jhi - jlo) * Z.to_nat (khi - klo))
     + (Z.to_nat (j - jlo) * Z.to_nat (khi - klo) + Z.to_nat (k - klo)))%nat =
  Some (i, j, k).
Proof.
  intros (Hi & Hj & Hk). unfold cells.
  rewrite (flat_map_nth_const _ _
             (m := (Z.to_nat (jhi - jlo) * Z.to_nat (khi - klo))%nat)) with (x := i).
  - rewrite (flat_map_nth_const _ _ (m := Z.to_nat (khi - klo))) with (x := j).
    + rewrite nth_error_map, zrange_nth by lia.
      simpl. do 2 f_equal. lia.
    + intros j'. rewrite length_map, zrange_length. reflexivity.
    + lia.
    + rewrite zrange_nth by lia. f_equal. lia.
  - intros i'. rewrite (flat_map_length_const _ _ (m := Z.to_nat (khi - klo))).
    + rewrite zrange_length. reflexivity.
    + intros j'. rewrite length_map, zrange_length. reflexivity.
  - assert (Z.to_nat (j - jlo) < Z.to_nat (jhi - jlo))%nat by lia.
    assert (Z.to_nat (k - klo) < Z.to_nat (khi - klo))%nat by lia.
    nia.
  - rewrite zrange_nth by lia. f_equal. lia.
Qed.

(** ** The lines of [Output] *)

Section OutputFacts.
Variables LEN HIG DEP : Z.
Variables deltaX deltaY deltaZ _2deltaX _2deltaY _2deltaZ K_1 R_VOZD : real.
Variables U1 U2 U3 U4 U5 : Array3.

(** The divisors of the line of cell [(i,j,k)]: the density there, with
    the gas constant, and the densities of its six neighbours. *)
Definition line_divisors (i j k : Z) : Prop :=
  U1 i j k <> 0%R /\ (R_VOZD * U1 i j k)%R <> 0%R /\
  U1 (i + 1) j k <> 0%R /\ U1 (i - 1) j k <> 0%R /\
  U1 i (j + 1) k <> 0%R /\ U1 i (j - 1) k <> 0%R /\
  U1 i j (k + 1) <> 0%R /\ U1 i j (k - 1) <> 0%R.

Lemma Output_line_defined i j k :
  Output_line deltaX deltaY deltaZ _2deltaX _2deltaY _2deltaZ K_1 R_VOZD
    U1 U2 U3 U4 U5 i j k <> None <-> line_divisors i j k.
Proof.
  unfold Output_line, line_divisors, rdiv. cbv zeta.
  destruct (Req_dec_T (U1 i j k) 0);
    [split; [intros N; contradiction N; reflexivity|tauto]|].
  destruct (Req_dec_T (R_VOZD * U1 i j k) 0);
    [split; [intros N; contradiction N; reflexivity|tauto]|].
  destruct (Req_dec_T (U1 (i + 1) j k) 0);
    [split; [intros N; contradiction N; reflexivity|tauto]|].
  destruct (Req_dec_T (U1 (i - 1) j k) 0);
    [split; [intros N; contradiction N; reflexivity|tauto]|].
  destruct (Req_dec_T (U1 i (j + 1) k) 0);
    [split; [intros N; contradiction N; reflexivity|tauto]|].
  destruct (Req_dec_T (U1 i (j - 1) k) 0);
    [split; [intros N; contradiction N; reflexivity|tauto]|].
  destruct (Req_dec_T (U1 i j (k + 1)) 0);
    [split; [intros N; contradiction N; reflexivity|tauto]|].
  destruct (Req_dec_T (U1 i j (k - 1)) 0);
    [split; [intros N; contradiction N; reflexivity|tauto]|].
  split; [intros _; tauto|discriminate].
Qed.

Lemma Output_lines_mapM :
  Output_lines LEN HIG DEP deltaX deltaY deltaZ _2deltaX _2deltaY _2deltaZ K_1 R_VOZD
    U1 U2 U3 U4 U5 =
  mapM (fun c : cell =>
          let '(k, j, i) := c in
          Output_line deltaX deltaY deltaZ _2deltaX _2deltaY _2deltaZ K_1 R_VOZD
            U1 U2 U3 U4 U5 i j k)
    (cells 1 (DEPP DEP) 1 (HIGG HIG) 1 (LENN LEN)).
Proof.
  unfold Output_lines. rewrite for3E_fold.
  rewrite (foldE_ext _
    (fun (c : cell) written =>
       TRY b := (let '(k, j, i) := c in
                 Output_line deltaX deltaY deltaZ _2deltaX _2deltaY _2deltaZ K_1 R_VOZD
                   U1 U2 U3 U4 U5 i j k)
       IN Some (written ++ [b]))).
  - rewrite foldE_append. destruct (mapM _ _); reflexivity.
  - intros [[k j] i] written. reflexivity.
Qed.
End OutputFacts.

(** X12.  When no divisor of an interior cell is zero, [Output] writes
    exactly [LEN * HIG * DEP] data lines, the product of the zone sizes
    its header announces, and the line of cell [(i,j,k)] is the one at
    position [(i-1) + LEN ((j-1) + HIG (k-1))]: [i] runs fastest, then
    [j], then [k]. *)
Theorem Output_file_shape (LEN HIG DEP : Z)
  (deltaX deltaY deltaZ _2deltaX _2deltaY _2deltaZ K_1 R_VOZD : real)
  (U1 U2 U3 U4 U5 : Array3) :
  0 <= LEN -> 0 <= HIG -> 0 <= DEP ->
  (forall i j k, interior LEN HIG DEP i j k = true -> line_divisors R_VOZD U1 i j k) ->
  exists ls,
    Output LEN HIG DEP deltaX deltaY deltaZ _2deltaX _2deltaY _2deltaZ K_1 R_VOZD
      U1 U2 U3 U4 U5 true = Some (Wrote (LEN, HIG, DEP) ls) /\
    Z.of_nat (length ls) = LEN * HIG * DEP /\
    forall i j k, interior LEN HIG DEP i j k = true ->
      nth_error ls (Z.to_nat ((i - 1) + LEN * ((j - 1) + HIG * (k - 1)))) =
      Output_line deltaX deltaY deltaZ _2deltaX _2deltaY _2deltaZ K_1 R_VOZD
        U1 U2 U3 U4 U5 i j k.
Proof.
  intros HL HH HD Hdiv. unfold Output. rewrite Output_lines_mapM.
  destruct (mapM _ (cells 1 (DEPP DEP) 1 (HIGG HIG) 1 (LENN LEN))) as [ls|] eqn:E.
  - exists ls. split; [reflexivity|]. split.
    + rewrite (mapM_length _ _ E), cells_length. unfold LENN, HIGG, DEPP.
      replace (DEP + 1 - 1) with DEP by lia.
      replace (HIG + 1 - 1) with HIG by lia.
      replace (LEN + 1 - 1) with LEN by lia.
      rewrite !Nat2Z.inj_mul, !Z2Nat.id by assumption. ring.
    + intros i j k I.
      assert (B : inbox 1 (DEPP DEP) 1 (HIGG HIG) 1 (LENN LEN) k j i).
      { apply interior_spec in I. unfold inbox, LENN, HIGG, DEPP. lia. }
      pose proof (cells_nth B) as N.
      rewrite <- (mapM_nth _ _ _ E N). f_equal.
      apply interior_spec in I. unfold LENN, HIGG, DEPP.
      replace (HIG + 1 - 1) with HIG by lia.
      replace (LEN + 1 - 1) with LEN by lia.
      apply Nat2Z.inj.
      rewrite Nat2Z.inj_add, Nat2Z.inj_add, !Nat2Z.inj_mul, !Z2Nat.id by nia.
      ring.
  - exfalso. revert E. apply mapM_some_iff. intros [[k j] i] Hin.
    apply in_cells in Hin. apply Output_line_defined, Hdiv.
    apply interior_spec. unfold inbox, LENN, HIGG, DEPP in Hin. lia.
Qed.

Lemma const_divisors (i j k : Z) : line_divisors 1 (const3 1) i j k.
Proof. unfold line_divisors, const3. repeat split; lra. Qed.

Lemma Output_file_shape_witness :
  exists ls,
    Output 2 2 2 1 1 1 1 1 1 1 1 (const3 1) (const3 0) (const3 0) (const3 0) (const3 1)
      true = Some (Wrote (2, 2, 2) ls) /\
    Z.of_nat (length ls) = 2 * 2 * 2 /\
    forall i j k, interior 2 2 2 i j k = true ->
      nth_error ls (Z.to_nat ((i - 1) + 2 * ((j - 1) + 2 * (k - 1)))) =
      Output_line 1 1 1 1 1 1 1 1 (const3 1) (const3 0) (const3 0) (const3 0) (const3 1)
        i j k.
Proof.
  apply (@Output_file_shape 2 2 2 1 1 1 1 1 1 1 1
           (const3 1) (const3 0) (const3 0) (const3 0) (const3 1)).
  - lia.
  - lia.
  - lia.
  - intros i j k _. apply const_divisors.
Defined.

(** [Output] on an opened file succeeds when no divisor of an interior
    cell is zero. *)
Lemma Output_defined_of_divisors (LEN HIG DEP : Z)
  (deltaX deltaY deltaZ _2deltaX _2deltaY _2deltaZ K_1 R_VOZD : real)
  (U1 U2 U3 U4 U5 : Array3) :
  (forall i j k, interior LEN HIG DEP i j k = true -> line_divisors R_VOZD U1 i j k) ->
  Output LEN HIG DEP deltaX deltaY deltaZ _2deltaX _2deltaY _2deltaZ K_1 R_VOZD
    U1 U2 U3 U4 U5 true <> None.
Proof.
  intros Hdiv. unfold Output. rewrite Output_lines_mapM.
  match goal with
  | |- (TRY ls := ?m IN _) <> None =>
      assert (K : m <> None -> (TRY ls := m IN Some (Wrote (LEN, HIG, DEP) ls)) <> None)
        by (destruct m; intros N; [discriminate|contradiction N; reflexivity])
  end.
  apply K, mapM_some_iff.
  intros [[k j] i] Hin. apply in_cells in Hin.
  apply Output_line_defined, Hdiv. apply interior_spec.
  unfold inbox, LENN, HIGG, DEPP in Hin. lia.
Qed.

(** X13.  [Output] on an opened file is defined exactly when, at every
    interior cell, the density of the cell times the gas constant and the
    densities of its six neighbours are not zero; the edges and corners
    of the padded grid are never divided by. *)
Theorem Output_defined_iff (LEN HIG DEP : Z)
  (deltaX deltaY deltaZ _2deltaX _2deltaY _2deltaZ K_1 R_VOZD : real)
  (U1 U2 U3 U4 U5 : Array3) :
  Output LEN HIG DEP deltaX deltaY deltaZ _2deltaX _2deltaY _2deltaZ K_1 R_VOZD
    U1 U2 U3 U4 U5 true <> None <->
  (forall i j k, interior LEN HIG DEP i j k = true -> line_divisors R_VOZD U1 i j k).
Proof.
  unfold Output. rewrite Output_lines_mapM.
  match goal with
  | |- (TRY ls := ?m IN _) <> None <-> _ =>
      assert (K : (TRY ls := m IN Some (Wrote (LEN, HIG, DEP) ls)) <> None <-> m <> None)
        by (destruct m; split; intros N; try discriminate; contradiction N; reflexivity)
  end.
  split.
  - rewrite K, mapM_some_iff. intros Hall i j k I.
    apply (Output_line_defined deltaX deltaY deltaZ _2deltaX _2deltaY _2deltaZ K_1
             R_VOZD U1 U2 U3 U4 U5).
    apply (Hall (k, j, i)). apply in_cells.
    apply interior_spec in I. unfold inbox, LENN, HIGG, DEPP. lia.
  - intros Hdiv.
    pose proof (@Output_defined_of_divisors LEN HIG DEP deltaX deltaY deltaZ
                  _2deltaX _2deltaY _2deltaZ K_1 R_VOZD U1 U2 U3 U4 U5 Hdiv) as G.
    unfold Output in G. rewrite Output_lines_mapM in G. exact G.
Qed.



(** * The program in binary64 *)

(** [type.h] is not under [src/].  Here [real] is read as the C type
    [double]: [output.c] declares its own scalars [double] next to its
    [real] ones, the literals of [turbulence.c] are [double] literals and
    [sqrt] is the [double] function of [math.h].  A [double] is an IEEE 754
    binary64 number, here a primitive [float].  Every operation rounds on
    its own to the nearest number, ties to even, with no fused
    multiply-add and no wider intermediate; a division by zero gives an
    infinity or a NaN and the run goes on; a comparison with a NaN is
    false.  No statement fails: every run below ends in [Some] store.  The
    arrays that [Array3D] returns can hold any [double], infinities and
    NaN included.  The statements are those of the first reading, with
    the operations of the code in their order. *)
Module B64.

Notation real := float (only parsing).

Definition Array3 : Type := ArrayOf real.
Definition Store (V : Type) : Type := StoreOf real V.
Definition stmt (V : Type) : Type := stmtOf real V.

(** The kernel [real h[3]] and the read [h[l]]. *)
Definition kernel : Type := list real.

Definition hk (h : kernel) (l : Z) : real := nth (Z.to_nat l) h 0%float.

(** The sum the inner loop [for (l = 0; l < 3; l++) tmp += x_l * h[l]]
    leaves in [tmp], which starts at [0.]. *)
Definition tap (h : kernel) (x0 x1 x2 : real) : real :=
  (0 + x0 * hk h 0 + x1 * hk h 1 + x2 * hk h 2)%float.

Definition const3 (c : real) : Array3 := fun _ _ _ => c.

(** [real FilterKer[3] = { 1./3., 1./3., 1./3. };] *)
Definition FilterKer : kernel := [1 / 3; 1 / 3; 1 / 3]%float.

(** The literal [0.15]: the binary64 number nearest to 15/100. *)
Definition Cd_max : real := 0x1.3333333333333p-3%float.

Section Filter.
Variables LEN HIG DEP : Z.

  (** First pass: along [j], from [U] into [U__]. *)
Definition pass1_body (h : kernel) (i j k : Z) (s : Store fvar) : Store fvar :=
    let tmp := 0%float in
    let tmp := for_ 0 3 (fun l tmp => (tmp + s U i (j + l - 1)%Z k * hk h l)%float) tmp in
    wr U__ i j k tmp s.

  (** Second pass: along [k], from [U__] into [U_]. *)
Definition pass2_body (h : kernel) (i j k : Z) (s : Store fvar) : Store fvar :=
    let tmp := 0%float in
    let tmp := for_ 0 3 (fun l tmp => (tmp + s U__ i j (k + l - 1)%Z * hk h l)%float) tmp in
    wr U_ i j k tmp s.

  (** Third pass: along [i], from [U_] back into [U__]. *)
Definition pass3_body (h : kernel) (i j k : Z) (s : Store fvar) : Store fvar :=
    let tmp := 0%float in
    let tmp := for_ 0 3 (fun l tmp => (tmp + s U_ (i + l - 1)%Z j k * hk h l)%float) tmp in
    wr U__ i j k tmp s.

  (** The store at entry: the argument and what the two buffers that
      [Array3D] returns hold. *)
Definition filter_entry (m_ m__ Uin : Array3) : Store fvar :=
    fun x => match x with U => Uin | U_ => m_ | U__ => m__ end.

  (** The three loop nests of [filter_], in order. *)
Definition filter_run (m_ m__ Uin : Array3) (h : kernel) : Store fvar :=
    let s := filter_entry m_ m__ Uin in
    let s := for3 0 (LENN LEN) 1 (HIGG HIG) 0 (DEPP DEP) (pass1_body h) s in
    let s := for3 0 (LENN LEN) 0 (HIGG HIG) 1 (DEPP DEP) (pass2_body h) s in
    let s := for3 1 (LENN LEN) 0 (HIGG HIG) 0 (DEPP DEP) (pass3_body h) s in
    s.

  (** [return U__;] *)
Definition filter_ (m_ m__ Uin : Array3) (h : kernel) : Array3 :=
    filter_run m_ m__ Uin h U__.
End Filter.

Section DynamicSmagorinsky.
(** [def.h]: the interior sizes, the factors [1/(2 h)] of the central
    differences, the squared filter width and the guard of the division. *)
Variables LEN HIG DEP : Z.
Variables _2deltaX _2deltaY _2deltaZ DD small : real.

(** What every buffer [Array3D] returns holds ([helpers.h] is not under
    [src/]). *)
Variable fresh : buffer -> Array3.

(** [x = Array3D( LEN+2, HIG+2, DEP+2 );] *)
Definition Array3D (x : var) (st : Store var) : Store var :=
  bind_array x (fresh (Own x)) st.

(** [x = filter_(src, FilterKer);] *)
Definition call_filter (x src : var) (st : Store var) : Store var :=
  bind_array x
    (filter_ LEN HIG DEP (fresh (Scratch x)) (fresh (Own x)) (st src) FilterKer) st.

Definition DS_alloc (st : Store var) : Store var :=
  let st := Array3D magStrain st in
  let st := Array3D u st in
  let st := Array3D v st in
  let st := Array3D w st in
  let st := Array3D A11 st in
  let st := Array3D A12 st in
  let st := Array3D A13 st in
  let st := Array3D A21 st in
  let st := Array3D A22 st in
  let st := Array3D A23 st in
  let st := Array3D A31 st in
  let st := Array3D A32 st in
  let st := Array3D A33 st in
  let st := Array3D B11_ st in
  let st := Array3D B12_ st in
  let st := Array3D B13_ st in
  let st := Array3D B21_ st in
  let st := Array3D B22_ st in
  let st := Array3D B23_ st in
  let st := Array3D B31_ st in
  let st := Array3D B32_ st in
  let st := Array3D B33_ st in
  let st := Array3D L11 st in
  let st := Array3D L12 st in
  let st := Array3D L13 st in
  let st := Array3D L21 st in
  let st := Array3D L22 st in
  let st := Array3D L23 st in
  let st := Array3D L31 st in
  let st := Array3D L32 st in
  let st := Array3D L33 st in
  st.

(** Conservative to primitive variables. *)
Definition prim_body (i j k : Z) : stmt var :=
  LET rr := (fun st => 1 / st rho i j k)%float IN
  assign u i j k (fun st => st ru i j k * rr)%float ;;
  assign v i j k (fun st => st rv i j k * rr)%float ;;
  assign w i j k (fun st => st rw i j k * rr)%float.

(** The products [u_i u_j], kept in the arrays of the Leonard tensor. *)
Definition prod_body (i j k : Z) : stmt var :=
  assign L11 i j k (fun st => st u i j k * st u i j k)%float ;;
  assign L12 i j k (fun st => st u i j k * st v i j k)%float ;;
  assign L13 i j k (fun st => st u i j k * st w i j k)%float ;;
  assign L21 i j k (fun st => st v i j k * st u i j k)%float ;;
  assign L22 i j k (fun st => st v i j k * st v i j k)%float ;;
  assign L23 i j k (fun st => st v i j k * st w i j k)%float ;;
  assign L31 i j k (fun st => st w i j k * st u i j k)%float ;;
  assign L32 i j k (fun st => st w i j k * st v i j k)%float ;;
  assign L33 i j k (fun st => st w i j k * st w i j k)%float.

Definition DS_filter_velocities (st : Store var) : Store var :=
  let st := call_filter u_ u st in
  let st := call_filter v_ v st in
  let st := call_filter w_ w st in
  let st := call_filter uu_ L11 st in
  let st := call_filter uv_ L12 st in
  let st := call_filter uw_ L13 st in
  let st := call_filter vu_ L21 st in
  let st := call_filter vv_ L22 st in
  let st := call_filter vw_ L23 st in
  let st := call_filter wu_ L31 st in
  let st := call_filter wv_ L32 st in
  let st := call_filter ww_ L33 st in
  st.

(** Leonard stresses, the two strain tensors and the tensors A and B. *)
Definition main_body (i j k : Z) : stmt var :=
  assign L11 i j k (fun st => st uu_ i j k - st u_ i j k * st u_ i j k)%float ;;
  assign L12 i j k (fun st => st uv_ i j k - st u_ i j k * st v_ i j k)%float ;;
  assign L13 i j k (fun st => st uw_ i j k - st u_ i j k * st w_ i j k)%float ;;
  assign L21 i j k (fun st => st vu_ i j k - st v_ i j k * st u_ i j k)%float ;;
  assign L22 i j k (fun st => st vv_ i j k - st v_ i j k * st v_ i j k)%float ;;
  assign L23 i j k (fun st => st vw_ i j k - st v_ i j k * st w_ i j k)%float ;;
  assign L31 i j k (fun st => st wu_ i j k - st w_ i j k * st u_ i j k)%float ;;
  assign L32 i j k (fun st => st wv_ i j k - st w_ i j k * st v_ i j k)%float ;;
  assign L33 i j k (fun st => st ww_ i j k - st w_ i j k * st w_ i j k)%float ;;
  LET du_dx := (fun st => (st u (i + 1)%Z j k - st u (i - 1)%Z j k) * _2deltaX)%float IN
  LET du_dy := (fun st => (st u i (j + 1)%Z k - st u i (j - 1)%Z k) * _2deltaY)%float IN
  LET du_dz := (fun st => (st u i j (k + 1)%Z - st u i j (k - 1)%Z) * _2deltaZ)%float IN
  LET dv_dx := (fun st => (st v (i + 1)%Z j k - st v (i - 1)%Z j k) * _2deltaX)%float IN
  LET dv_dy := (fun st => (st v i (j + 1)%Z k - st v i (j - 1)%Z k) * _2deltaY)%float IN
  LET dv_dz := (fun st => (st v i j (k + 1)%Z - st v i j (k - 1)%Z) * _2deltaZ)%float IN
  LET dw_dx := (fun st => (st w (i + 1)%Z j k - st w (i - 1)%Z j k) * _2deltaX)%float IN
  LET dw_dy := (fun st => (st w i (j + 1)%Z k - st w i (j - 1)%Z k) * _2deltaY)%float IN
  LET dw_dz := (fun st => (st w i j (k + 1)%Z - st w i j (k - 1)%Z) * _2deltaZ)%float IN
  let S11 := du_dx in
  let S12 := (0.5 * (du_dy + dv_dx))%float in
  let S13 := (0.5 * (du_dz + dw_dx))%float in
  let S21 := (0.5 * (dv_dx + du_dy))%float in
  let S22 := dv_dy in
  let S23 := (0.5 * (dv_dz + dw_dy))%float in
  let S31 := (0.5 * (dw_dx + du_dz))%float in
  let S32 := (0.5 * (dw_dy + dv_dz))%float in
  let S33 := dw_dz in
  let S := PrimFloat.sqrt (2 * (S11 * S11 + S12 * S12 + S13 * S13
                      + S21 * S21 + S22 * S22 + S23 * S23
                      + S31 * S31 + S32 * S32 + S33 * S33))%float in
  assign magStrain i j k (fun _ => S) ;;
  LET du_dx := (fun st => (st u_ (i + 1)%Z j k - st u_ (i - 1)%Z j k) * _2deltaX)%float IN
  LET du_dy := (fun st => (st u_ i (j + 1)%Z k - st u_ i (j - 1)%Z k) * _2deltaY)%float IN
  LET du_dz := (fun st => (st u_ i j (k + 1)%Z - st u_ i j (k - 1)%Z) * _2deltaZ)%float IN
  LET dv_dx := (fun st => (st v_ (i + 1)%Z j k - st v_ (i - 1)%Z j k) * _2deltaX)%float IN
  LET dv_dy := (fun st => (st v_ i (j + 1)%Z k - st v_ i (j - 1)%Z k) * _2deltaY)%float IN
  LET dv_dz := (fun st => (st v_ i j (k + 1)%Z - st v_ i j (k - 1)%Z) * _2deltaZ)%float IN
  LET dw_dx := (fun st => (st w_ (i + 1)%Z j k - st w_ (i - 1)%Z j k) * _2deltaX)%float IN
  LET dw_dy := (fun st => (st w_ i (j + 1)%Z k - st w_ i (j - 1)%Z k) * _2deltaY)%float IN
  LET dw_dz := (fun st => (st w_ i j (k + 1)%Z - st w_ i j (k - 1)%Z) * _2deltaZ)%float IN
  let S11_ := du_dx in
  let S12_ := (0.5 * (du_dy + dv_dx))%float in
  let S13_ := (0.5 * (du_dz + dw_dx))%float in
  let S21_ := (0.5 * (dv_dx + du_dy))%float in
  let S22_ := dv_dy in
  let S23_ := (0.5 * (dv_dz + dw_dy))%float in
  let S31_ := (0.5 * (dw_dx + du_dz))%float in
  let S32_ := (0.5 * (dw_dy + dv_dz))%float in
  let S33_ := dw_dz in
  let S_ := PrimFloat.sqrt (2 * (S11_ * S11_ + S12_ * S12_ + S13_ * S13_
                       + S21_ * S21_ + S22_ * S22_ + S23_ * S23_
                       + S31_ * S31_ + S32_ * S32_ + S33_ * S33_))%float in
  assign B11_ i j k (fun _ => S_ * S11_)%float ;;
  assign B12_ i j k (fun _ => S_ * S12_)%float ;;
  assign B13_ i j k (fun _ => S_ * S13_)%float ;;
  assign B21_ i j k (fun _ => S_ * S21_)%float ;;
  assign B22_ i j k (fun _ => S_ * S22_)%float ;;
  assign B23_ i j k (fun _ => S_ * S23_)%float ;;
  assign B31_ i j k (fun _ => S_ * S31_)%float ;;
  assign B32_ i j k (fun _ => S_ * S32_)%float ;;
  assign B33_ i j k (fun _ => S_ * S33_)%float ;;
  assign A11 i j k (fun _ => S * S11)%float ;;
  assign A12 i j k (fun _ => S * S12)%float ;;
  assign A13 i j k (fun _ => S * S13)%float ;;
  assign A21 i j k (fun _ => S * S21)%float ;;
  assign A22 i j k (fun _ => S * S22)%float ;;
  assign A23 i j k (fun _ => S * S23)%float ;;
  assign A31 i j k (fun _ => S * S31)%float ;;
  assign A32 i j k (fun _ => S * S32)%float ;;
  assign A33 i j k (fun _ => S * S33)%float.

Definition DS_filter_A (st : Store var) : Store var :=
  let st := call_filter A11_ A11 st in
  let st := call_filter A12_ A12 st in
  let st := call_filter A13_ A13 st in
  let st := call_filter A21_ A21 st in
  let st := call_filter A22_ A22 st in
  let st := call_filter A23_ A23 st in
  let st := call_filter A31_ A31 st in
  let st := call_filter A32_ A32 st in
  let st := call_filter A33_ A33 st in
  st.

(** [if ( Cd > 0.15 ) Cd = 0.15; else if ( Cd < 0.0 ) Cd = 0.0;]  A NaN
    fails both comparisons and is kept. *)
Definition clip (Cd : real) : real :=
  if (Cd_max <? Cd)%float then Cd_max
  else if (Cd <? 0)%float then 0%float
  else Cd.

(** The tensor M, the deviatoric Leonard tensor, the coefficient and the
    eddy viscosity. *)
Definition final_body (i j k : Z) : stmt var :=
  LET M11 := (fun st => DD * (4 * st B11_ i j k - st A11_ i j k))%float IN
  LET M12 := (fun st => DD * (4 * st B12_ i j k - st A12_ i j k))%float IN
  LET M13 := (fun st => DD * (4 * st B13_ i j k - st A13_ i j k))%float IN
  LET M21 := (fun st => DD * (4 * st B21_ i j k - st A21_ i j k))%float IN
  LET M22 := (fun st => DD * (4 * st B22_ i j k - st A22_ i j k))%float IN
  LET M23 := (fun st => DD * (4 * st B23_ i j k - st A23_ i j k))%float IN
  LET M31 := (fun st => DD * (4 * st B31_ i j k - st A31_ i j k))%float IN
  LET M32 := (fun st => DD * (4 * st B32_ i j k - st A32_ i j k))%float IN
  LET M33 := (fun st => DD * (4 * st B33_ i j k - st A33_ i j k))%float IN
  LET _trace13 :=
    (fun st => - (1 / 3) * (st L11 i j k + st L22 i j k + st L33 i j k))%float IN
  assign L11 i j k (fun st => st L11 i j k + _trace13)%float ;;
  assign L22 i j k (fun st => st L22 i j k + _trace13)%float ;;
  assign L33 i j k (fun st => st L33 i j k + _trace13)%float ;;
  LET LLMM :=
    (fun st => st L11 i j k * M11 + st L12 i j k * M12 + st L13 i j k * M13
               + st L21 i j k * M21 + st L22 i j k * M22 + st L23 i j k * M23
               + st L31 i j k * M31 + st L32 i j k * M32 + st L33 i j k * M33)%float IN
  let MMMM := (M11 * M11 + M12 * M12 + M13 * M13
               + M21 * M21 + M22 * M22 + M23 * M23
               + M31 * M31 + M32 * M32 + M33 * M33)%float in
  let Cd := (-0.5 * (LLMM / (MMMM + small)))%float in
  let Cd := clip Cd in
  assign mu_SGS i j k (fun st => st rho i j k * Cd * DD * st magStrain i j k)%float.

(** The run up to the last loop nest. *)
Definition DS_pre : stmt var :=
  lift DS_alloc ;;
  for3E 0 (LENN LEN + 1) 0 (HIGG HIG + 1) 0 (DEPP DEP + 1) prim_body ;;
  for3E 0 (LENN LEN + 1) 0 (HIGG HIG + 1) 0 (DEPP DEP + 1) prod_body ;;
  lift DS_filter_velocities ;;
  for3E 1 (LENN LEN) 1 (HIGG HIG) 1 (DEPP DEP) main_body ;;
  lift DS_filter_A.

(** The whole function.  The calls to [free3D] that end it are left out:
    the store keeps the last contents of the local arrays. *)
Definition DynamicSmagorinsky : stmt var :=
  DS_pre ;;
  for3E 1 (LENN LEN) 1 (HIGG HIG) 1 (DEPP DEP) final_body.
End DynamicSmagorinsky.


(** ** Tensors at a cell *)

Record tensor : Type := T9 {
  t11 : real; t12 : real; t13 : real;
  t21 : real; t22 : real; t23 : real;
  t31 : real; t32 : real; t33 : real
}.

(** The nine-term double contraction [a : b], summed from the left as the
    code writes it. *)
Definition ddot (a b : tensor) : real :=
  (t11 a * t11 b + t12 a * t12 b + t13 a * t13 b
   + t21 a * t21 b + t22 a * t22 b + t23 a * t23 b
   + t31 a * t31 b + t32 a * t32 b + t33 a * t33 b)%float.

(** The strain tensor of the velocity [(u, v, w)] at [(i,j,k)], by central
    differences with the factors [dx], [dy], [dz]. *)
Definition strain (dx dy dz : real) (u v w : Array3) (i j k : Z) : tensor :=
  let du_dx := ((u (i + 1)%Z j k - u (i - 1)%Z j k) * dx)%float in
  let du_dy := ((u i (j + 1)%Z k - u i (j - 1)%Z k) * dy)%float in
  let du_dz := ((u i j (k + 1)%Z - u i j (k - 1)%Z) * dz)%float in
  let dv_dx := ((v (i + 1)%Z j k - v (i - 1)%Z j k) * dx)%float in
  let dv_dy := ((v i (j + 1)%Z k - v i (j - 1)%Z k) * dy)%float in
  let dv_dz := ((v i j (k + 1)%Z - v i j (k - 1)%Z) * dz)%float in
  let dw_dx := ((w (i + 1)%Z j k - w (i - 1)%Z j k) * dx)%float in
  let dw_dy := ((w i (j + 1)%Z k - w i (j - 1)%Z k) * dy)%float in
  let dw_dz := ((w i j (k + 1)%Z - w i j (k - 1)%Z) * dz)%float in
  T9 du_dx (0.5 * (du_dy + dv_dx)) (0.5 * (du_dz + dw_dx))
     (0.5 * (dv_dx + du_dy)) dv_dy (0.5 * (dv_dz + dw_dy))
     (0.5 * (dw_dx + du_dz)) (0.5 * (dw_dy + dv_dz)) dw_dz.

(** The magnitude [sqrt (2 S:S)] of a strain tensor. *)
Definition mag (s : tensor) : real := PrimFloat.sqrt (2 * ddot s s).

(** The Leonard tensor a store holds at a cell. *)
Definition Leonard (s : Store var) (i j k : Z) : tensor :=
  T9 (s L11 i j k) (s L12 i j k) (s L13 i j k)
     (s L21 i j k) (s L22 i j k) (s L23 i j k)
     (s L31 i j k) (s L32 i j k) (s L33 i j k).

(** The tensor [M = DD (4 B - filtered A)] of the last loop nest. *)
Definition Mtensor (DD : real) (s : Store var) (i j k : Z) : tensor :=
  T9 (DD * (4 * s B11_ i j k - s A11_ i j k)) (DD * (4 * s B12_ i j k - s A12_ i j k))
     (DD * (4 * s B13_ i j k - s A13_ i j k)) (DD * (4 * s B21_ i j k - s A21_ i j k))
     (DD * (4 * s B22_ i j k - s A22_ i j k)) (DD * (4 * s B23_ i j k - s A23_ i j k))
     (DD * (4 * s B31_ i j k - s A31_ i j k)) (DD * (4 * s B32_ i j k - s A32_ i j k))
     (DD * (4 * s B33_ i j k - s A33_ i j k))%float.

(** The deviatoric correction: [_trace13] added to the diagonal. *)
Definition dev (l : tensor) : tensor :=
  let _trace13 := (- (1 / 3) * (t11 l + t22 l + t33 l))%float in
  T9 (t11 l + _trace13) (t12 l) (t13 l)
     (t21 l) (t22 l + _trace13) (t23 l)
     (t31 l) (t32 l) (t33 l + _trace13)%float.

(** The coefficient before clipping. *)
Definition Cd_raw (small : real) (l m : tensor) : real :=
  (-0.5 * (ddot (dev l) m / (ddot m m + small)))%float.

(** The primitive velocity as the first loop nest computes it:
    [rr = 1./rho; u = ru*rr]. *)
Definition velocity (q rho_ : Array3) : Array3 :=
  fun a b c => (q a b c * (1 / rho_ a b c))%float.

(** ** Comparisons and signs in binary64 *)

Lemma SFcompare_antisym64 (x y : spec_float) :
  SFcompare y x = option_map CompOpp (SFcompare x y).
Proof.
  destruct x as [sx|sx| |sx mx ex], y as [sy|sy| |sy my ey]; simpl; try reflexivity;
    try (destruct sx; reflexivity); try (destruct sy; reflexivity);
    try (destruct sx, sy; reflexivity).
  rewrite (Z.compare_antisym ex ey), !Pos.compare_cont_spec.
  cbn [Pos.switch_Eq]. rewrite (Pos.compare_antisym mx my).
  destruct sx, sy; simpl; try reflexivity;
    destruct (ex ?= ey)%Z; simpl; try reflexivity;
    destruct (mx ?= my)%positive; reflexivity.
Qed.

(** Two numbers, neither a NaN, are ordered one way or the other. *)
Lemma ltb_false_leb64 (x y : real) :
  PrimFloat.is_nan x = false -> PrimFloat.is_nan y = false ->
  (x <? y)%float = false -> (y <=? x)%float = true.
Proof.
  unfold PrimFloat.is_nan.
  rewrite !FloatAxioms.eqb_spec, FloatAxioms.ltb_spec, FloatAxioms.leb_spec.
  unfold SFeqb, SFltb, SFleb. rewrite (SFcompare_antisym64 (Prim2SF x) (Prim2SF y)).
  destruct (SFcompare (Prim2SF x) (Prim2SF y)) as [[]|] eqn:E; simpl; try congruence.
  intros Nx Ny _. exfalso.
  destruct (Prim2SF x) as [sx|sx| |sx mx ex], (Prim2SF y) as [sy|sy| |sy my ey];
    simpl in *; try discriminate;
    try (destruct sx; discriminate); try (destruct sy; discriminate).
Qed.

Lemma Prim2SF_zero64 : Prim2SF 0%float = S754_zero false.
Proof. reflexivity. Qed.

Lemma Prim2SF_Cd_max64 : Prim2SF Cd_max = S754_finite false 5404319552844595 (-55).
Proof. reflexivity. Qed.

(** The literal [0.15] is the quotient of 15 by 100, rounded. *)
Lemma Cd_max_decimal64 : Cd_max = (15 / 100)%float.
Proof. reflexivity. Qed.

(** A number below zero is not above [0.15]. *)
Lemma below_zero_not_above64 (c : real) :
  (c <? 0)%float = true -> (Cd_max <? c)%float = false.
Proof.
  rewrite !FloatAxioms.ltb_spec, Prim2SF_zero64, Prim2SF_Cd_max64. unfold SFltb.
  destruct (Prim2SF c) as [s|s| |s m e]; simpl; try discriminate;
    destruct s; simpl; try discriminate; reflexivity.
Qed.

(** The sign of a number: not negative, or not a number at all. *)
Definition sign_ok (x : spec_float) : bool :=
  match x with
  | S754_nan | S754_zero _ => true
  | S754_infinity s | S754_finite s _ _ => negb s
  end.

Definition not_negative (x : real) : Prop :=
  PrimFloat.is_nan x = true \/ (0 <=? x)%float = true.

Lemma leb_sign_ok64 (x : real) : (0 <=? x)%float = true -> sign_ok (Prim2SF x) = true.
Proof.
  rewrite FloatAxioms.leb_spec, Prim2SF_zero64. unfold SFleb.
  destruct (Prim2SF x) as [s|s| |s m e]; simpl; try reflexivity;
    destruct s; simpl; try discriminate; reflexivity.
Qed.

Lemma sign_ok_not_negative64 (x : real) :
  sign_ok (Prim2SF x) = true -> not_negative x.
Proof.
  unfold not_negative, PrimFloat.is_nan.
  rewrite FloatAxioms.eqb_spec, FloatAxioms.leb_spec, Prim2SF_zero64.
  unfold SFeqb, SFleb.
  destruct (Prim2SF x) as [s|s| |s m e]; simpl; intros E.
  - right. reflexivity.
  - right. destruct s; [discriminate|reflexivity].
  - left. reflexivity.
  - right. destruct s; [discriminate|reflexivity].
Qed.

(** Rounding keeps the sign it is given. *)
Lemma binary_round_aux_sign64 (sx : bool) (mx ex : Z) (lx : location) :
  sx = false -> sign_ok (binary_round_aux prec emax sx mx ex lx) = true.
Proof.
  intros ->. unfold binary_round_aux.
  destruct (shr_fexp prec emax mx ex lx) as [mrs' e'].
  destruct (shr_fexp prec emax _ e' loc_Exact) as [mrs'' e''].
  destruct (shr_m mrs''); [reflexivity| |reflexivity].
  destruct (e'' <=? emax - prec); reflexivity.
Qed.

Lemma sign_ok_mul64 (x y : real) :
  sign_ok (Prim2SF x) = true -> sign_ok (Prim2SF y) = true ->
  sign_ok (Prim2SF (x * y)%float) = true.
Proof.
  rewrite mul_spec. unfold SF64mul, SFmul.
  destruct (Prim2SF x) as [sx|sx| |sx mx ex], (Prim2SF y) as [sy|sy| |sy my ey];
    simpl; try reflexivity; intros Hx Hy;
    try (destruct sx; try discriminate; destruct sy; try discriminate; reflexivity).
  apply binary_round_aux_sign64.
  destruct sx; try discriminate; destruct sy; try discriminate; reflexivity.
Qed.

Lemma sign_ok_sqrt64 (x : real) : sign_ok (Prim2SF (PrimFloat.sqrt x)) = true.
Proof.
  rewrite sqrt_spec. unfold SF64sqrt, SFsqrt.
  destruct (Prim2SF x) as [s|s| |s m e]; try reflexivity.
  - destruct s; reflexivity.
  - destruct s; [reflexivity|].
    destruct (SFsqrt_core_binary prec emax (Z.pos m) e) as [[mz ez] lz].
    apply binary_round_aux_sign64. reflexivity.
Qed.

(** ** The clip of the coefficient *)

Lemma clip_above64 (c : real) : (Cd_max <? c)%float = true -> clip c = Cd_max.
Proof. intros E. unfold clip. rewrite E. reflexivity. Qed.

Lemma clip_below64 (c : real) : (c <? 0)%float = true -> clip c = 0%float.
Proof.
  intros E. unfold clip. rewrite (below_zero_not_above64 E), E. reflexivity.
Qed.

Lemma clip_inside64 (c : real) :
  (Cd_max <? c)%float = false -> (c <? 0)%float = false -> clip c = c.
Proof. intros E1 E2. unfold clip. rewrite E1, E2. reflexivity. Qed.

(** The clipped coefficient lies between [0.0] and [0.15], unless it is a
    NaN. *)
Lemma clip_range64 (c : real) :
  PrimFloat.is_nan (clip c) = true \/
  ((0 <=? clip c)%float = true /\ (clip c <=? Cd_max)%float = true).
Proof.
  unfold clip. destruct (Cd_max <? c)%float eqn:E1; [right; split; reflexivity|].
  destruct (c <? 0)%float eqn:E2; [right; split; reflexivity|].
  destruct (PrimFloat.is_nan c) eqn:N; [left; reflexivity|right].
  split; apply ltb_false_leb64; try assumption; reflexivity.
Qed.

(** A number that compares is not a NaN. *)
Lemma SFcompare_refl64 (x : spec_float) :
  x <> S754_nan -> SFcompare x x = Some Eq.
Proof.
  destruct x as [s|s| |s m e]; simpl; intros N; try reflexivity.
  - destruct s; reflexivity.
  - contradiction N; reflexivity.
  - rewrite Z.compare_refl, Pos.compare_cont_refl. destruct s; reflexivity.
Qed.

Lemma ltb_not_nan64 (x y : real) :
  (x <? y)%float = true -> PrimFloat.is_nan x = false /\ PrimFloat.is_nan y = false.
Proof.
  unfold PrimFloat.is_nan. rewrite FloatAxioms.ltb_spec, !FloatAxioms.eqb_spec.
  unfold SFltb, SFeqb. intros E.
  rewrite !SFcompare_refl64; [split; reflexivity| |];
    intros N; rewrite N in E; simpl in E;
    destruct (Prim2SF x), (Prim2SF y); discriminate.
Qed.

(** It is a NaN exactly when the coefficient was one. *)
Lemma clip_nan64 (c : real) : PrimFloat.is_nan (clip c) = PrimFloat.is_nan c.
Proof.
  unfold clip. destruct (Cd_max <? c)%float eqn:E1.
  - rewrite (proj2 (ltb_not_nan64 E1)). reflexivity.
  - destruct (c <? 0)%float eqn:E2; [|reflexivity].
    rewrite (proj1 (ltb_not_nan64 E2)). reflexivity.
Qed.

Lemma sign_ok_clip64 (c : real) : sign_ok (Prim2SF (clip c)) = true.
Proof.
  unfold clip. destruct (Cd_max <? c)%float eqn:E1; [reflexivity|].
  destruct (c <? 0)%float eqn:E2; [reflexivity|].
  rewrite FloatAxioms.ltb_spec, Prim2SF_zero64 in E2. unfold SFltb in E2.
  destruct (Prim2SF c) as [s|s| |s m e]; simpl in *; try reflexivity;
    destruct s; try discriminate; reflexivity.
Qed.

(** ** Zeros in binary64 *)



Definition sf_zero_or_nan (x : spec_float) : bool :=
  match x with
  | S754_zero _ | S754_nan => true
  | _ => false
  end.


Lemma Prim2SF_half64 : Prim2SF 0.5%float = S754_finite false 4503599627370496 (-53).
Proof. reflexivity. Qed.








(** Anything times a zero is a zero or a NaN, and so is anything times
    that. *)
Lemma mul_zero_or_nan_r64 (x y : real) :
  sf_zero_or_nan (Prim2SF y) = true -> sf_zero_or_nan (Prim2SF (x * y)%float) = true.
Proof.
  rewrite mul_spec. unfold SF64mul, SFmul.
  destruct (Prim2SF x) as [sx|sx| |sx mx ex], (Prim2SF y) as [sy|sy| |sy my ey];
    simpl; try discriminate; reflexivity.
Qed.

Lemma mul_zero_or_nan_l64 (x y : real) :
  sf_zero_or_nan (Prim2SF x) = true -> sf_zero_or_nan (Prim2SF (x * y)%float) = true.
Proof.
  rewrite mul_spec. unfold SF64mul, SFmul.
  destruct (Prim2SF x) as [sx|sx| |sx mx ex], (Prim2SF y) as [sy|sy| |sy my ey];
    simpl; try discriminate; reflexivity.
Qed.

Lemma zero_or_nan_spec64 (x : real) :
  sf_zero_or_nan (Prim2SF x) = true ->
  (x =? 0)%float = true \/ PrimFloat.is_nan x = true.
Proof.
  unfold PrimFloat.is_nan. rewrite !FloatAxioms.eqb_spec, Prim2SF_zero64. unfold SFeqb.
  destruct (Prim2SF x) as [s|s| |s m e]; simpl; try discriminate; intros _.
  - left. reflexivity.
  - right. reflexivity.
Qed.

(** ** The loop nests of the estimator, cell by cell *)

Section EstimatorLocal64.
Variables dx dy dz DD small : real.

Lemma prim_body_local64 i j k : stmt_local W_prim i j k (prim_body i j k).
Proof. unfold prim_body. solve_local. Qed.

Lemma prod_body_local64 i j k : stmt_local W_prod i j k (prod_body i j k).
Proof. unfold prod_body. solve_local. Qed.

Lemma main_body_local64 i j k : stmt_local W_main i j k (main_body dx dy dz i j k).
Proof. unfold main_body. solve_local. Qed.

Lemma final_body_local64 i j k : stmt_local W_final i j k (final_body DD small i j k).
Proof. unfold final_body. solve_local. Qed.

(** No statement fails in binary64. *)
Lemma prim_body_total64 i j k : stmt_total (prim_body i j k).
Proof. unfold prim_body. solve_total. Qed.

Lemma prod_body_total64 i j k : stmt_total (prod_body i j k).
Proof. unfold prod_body. solve_total. Qed.

Lemma main_body_total64 i j k : stmt_total (main_body dx dy dz i j k).
Proof. unfold main_body. solve_total. Qed.

Lemma final_body_total64 i j k : stmt_total (final_body DD small i j k).
Proof. unfold final_body. solve_total. Qed.
End EstimatorLocal64.

Section CellValues64.
Variables dx dy dz DD small : real.
Variable s : Store var.
Variables i j k : Z.

Lemma prim_cell64 :
  cellval prim_body s u i j k = (s ru i j k * (1 / s rho i j k))%float /\
  cellval prim_body s v i j k = (s rv i j k * (1 / s rho i j k))%float /\
  cellval prim_body s w i j k = (s rw i j k * (1 / s rho i j k))%float.
Proof. repeat split; run_cell prim_body; reflexivity. Qed.

Lemma prod_cell64 :
  cellval prod_body s L11 i j k = (s u i j k * s u i j k)%float /\
  cellval prod_body s L12 i j k = (s u i j k * s v i j k)%float /\
  cellval prod_body s L13 i j k = (s u i j k * s w i j k)%float /\
  cellval prod_body s L21 i j k = (s v i j k * s u i j k)%float /\
  cellval prod_body s L22 i j k = (s v i j k * s v i j k)%float /\
  cellval prod_body s L23 i j k = (s v i j k * s w i j k)%float /\
  cellval prod_body s L31 i j k = (s w i j k * s u i j k)%float /\
  cellval prod_body s L32 i j k = (s w i j k * s v i j k)%float /\
  cellval prod_body s L33 i j k = (s w i j k * s w i j k)%float.
Proof. repeat split; run_cell prod_body; reflexivity. Qed.

Lemma main_cell_Leonard64 :
  Leonard (fun y a b c => cellval (main_body dx dy dz) s y a b c) i j k =
  T9 (s uu_ i j k - s u_ i j k * s u_ i j k) (s uv_ i j k - s u_ i j k * s v_ i j k)
     (s uw_ i j k - s u_ i j k * s w_ i j k) (s vu_ i j k - s v_ i j k * s u_ i j k)
     (s vv_ i j k - s v_ i j k * s v_ i j k) (s vw_ i j k - s v_ i j k * s w_ i j k)
     (s wu_ i j k - s w_ i j k * s u_ i j k) (s wv_ i j k - s w_ i j k * s v_ i j k)
     (s ww_ i j k - s w_ i j k * s w_ i j k)%float.
Proof. unfold Leonard. f_equal; run_cell main_body; reflexivity. Qed.

Lemma main_cell_magStrain64 :
  cellval (main_body dx dy dz) s magStrain i j k =
  mag (strain dx dy dz (s u) (s v) (s w) i j k).
Proof. run_cell main_body. reflexivity. Qed.

Lemma final_cell_mu64 :
  cellval (final_body DD small) s mu_SGS i j k =
  (s rho i j k * clip (Cd_raw small (Leonard s i j k) (Mtensor DD s i j k)) * DD
   * s magStrain i j k)%float.
Proof. run_cell final_body. reflexivity. Qed.

End CellValues64.

(** The arrays a loop nest does not assign keep their values. *)
Section LoopKeeps64.
Variables dx dy dz DD small : real.
Variables ilo ihi jlo jhi klo khi : Z.
Variable s : Store var.
Variable y : var.
Variables a b c : Z.

Lemma prim_keeps64 :
  W_prim y = false -> cellwise ilo ihi jlo jhi klo khi prim_body s y a b c = s y a b c.
Proof. apply cellwise_frame, prim_body_local64. Qed.

Lemma prod_keeps64 :
  W_prod y = false -> cellwise ilo ihi jlo jhi klo khi prod_body s y a b c = s y a b c.
Proof. apply cellwise_frame, prod_body_local64. Qed.

Lemma main_keeps64 :
  W_main y = false ->
  cellwise ilo ihi jlo jhi klo khi (main_body dx dy dz) s y a b c = s y a b c.
Proof. apply cellwise_frame, main_body_local64. Qed.


End LoopKeeps64.

(** ** The stores between the loop nests *)

Section Stages64.
Variables LEN HIG DEP : Z.
Variables dx dy dz DD small : real.
Variable fresh : buffer -> Array3.
Variable st : Store var.

Definition stage_prim : Store var :=
  cellwise 0 (LENN LEN + 1) 0 (HIGG HIG + 1) 0 (DEPP DEP + 1) prim_body
    (DS_alloc fresh st).

Definition stage_prod : Store var :=
  cellwise 0 (LENN LEN + 1) 0 (HIGG HIG + 1) 0 (DEPP DEP + 1) prod_body stage_prim.

Definition stage_filt : Store var :=
  DS_filter_velocities LEN HIG DEP fresh stage_prod.

Definition stage_main : Store var :=
  cellwise 1 (LENN LEN) 1 (HIGG HIG) 1 (DEPP DEP) (main_body dx dy dz) stage_filt.

Definition stage_pre : Store var :=
  DS_filter_A LEN HIG DEP fresh stage_main.

Definition stage_final : Store var :=
  cellwise 1 (LENN LEN) 1 (HIGG HIG) 1 (DEPP DEP) (final_body DD small) stage_pre.

(** Every loop nest runs to its end. *)
Lemma prim_run64 ilo ihi jlo jhi klo khi (s : Store var) :
  for3E ilo ihi jlo jhi klo khi prim_body s =
  Some (cellwise ilo ihi jlo jhi klo khi prim_body s).
Proof.
  apply (for3E_local _ prim_body_local64). intros a b c _. apply prim_body_total64.
Qed.

Lemma prod_run64 ilo ihi jlo jhi klo khi (s : Store var) :
  for3E ilo ihi jlo jhi klo khi prod_body s =
  Some (cellwise ilo ihi jlo jhi klo khi prod_body s).
Proof.
  apply (for3E_local _ prod_body_local64). intros a b c _. apply prod_body_total64.
Qed.

Lemma main_run64 ilo ihi jlo jhi klo khi (s : Store var) :
  for3E ilo ihi jlo jhi klo khi (main_body dx dy dz) s =
  Some (cellwise ilo ihi jlo jhi klo khi (main_body dx dy dz) s).
Proof.
  apply (for3E_local _ (main_body_local64 dx dy dz)).
  intros a b c _. apply main_body_total64.
Qed.

Lemma final_run64 ilo ihi jlo jhi klo khi (s : Store var) :
  for3E ilo ihi jlo jhi klo khi (final_body DD small) s =
  Some (cellwise ilo ihi jlo jhi klo khi (final_body DD small) s).
Proof.
  apply (for3E_local _ (final_body_local64 DD small)).
  intros a b c _. apply final_body_total64.
Qed.

Lemma DS_pre_run64 :
  DS_pre LEN HIG DEP dx dy dz fresh st = Some stage_pre.
Proof.
  unfold DS_pre, seq, lift. rewrite prim_run64, prod_run64, main_run64. reflexivity.
Qed.

Lemma DynamicSmagorinsky_run64 :
  DynamicSmagorinsky LEN HIG DEP dx dy dz DD small fresh st = Some stage_final.
Proof.
  unfold DynamicSmagorinsky, seq. rewrite DS_pre_run64. apply final_run64.
Qed.

Lemma DS_alloc_other64 y : is_local_array y = false -> DS_alloc fresh st y = st y.
Proof. destruct y; intros E; try discriminate E; reflexivity. Qed.

Lemma DS_filter_velocities_other64 (s : Store var) y :
  is_filtered_velocity y = false -> DS_filter_velocities LEN HIG DEP fresh s y = s y.
Proof. destruct y; intros E; try discriminate E; reflexivity. Qed.

Lemma DS_filter_A_other64 (s : Store var) y :
  is_filtered_A y = false -> DS_filter_A LEN HIG DEP fresh s y = s y.
Proof. destruct y; intros E; try discriminate E; reflexivity. Qed.

(** The arrays the loop nests up to the last one do not assign come
    through unchanged. *)
Lemma stage_pre_argument64 y a b c :
  is_local_array y = false -> stage_pre y a b c = st y a b c.
Proof.
  intros E. unfold stage_pre.
  rewrite DS_filter_A_other64 by (destruct y; try discriminate E; reflexivity).
  unfold stage_main.
  rewrite main_keeps64
    by (destruct y; try discriminate E; reflexivity).
  unfold stage_filt.
  rewrite DS_filter_velocities_other64 by (destruct y; try discriminate E; reflexivity).
  unfold stage_prod.
  rewrite prod_keeps64
    by (destruct y; try discriminate E; reflexivity).
  unfold stage_prim.
  rewrite prim_keeps64
    by (destruct y; try discriminate E; reflexivity).
  apply (f_equal (fun f => f a b c)), DS_alloc_other64, E.
Qed.

(** The velocities the differences of the main loop nest read. *)
Lemma stage_filt_velocity64 a b c :
  padded LEN HIG DEP a b c = true ->
  stage_filt u a b c = velocity (st ru) (st rho) a b c /\
  stage_filt v a b c = velocity (st rv) (st rho) a b c /\
  stage_filt w a b c = velocity (st rw) (st rho) a b c.
Proof.
  intros P. unfold stage_filt.
  rewrite !DS_filter_velocities_other64 by reflexivity. unfold stage_prod.
  rewrite !prod_keeps64 by reflexivity.
  unfold stage_prim. rewrite <- padded_box in P.
  rewrite !cellwise_in by exact P.
  destruct (prim_cell64 (DS_alloc fresh st) a b c) as (Eu & Ev & Ew).
  rewrite Eu, Ev, Ew. repeat split; reflexivity.
Qed.
End Stages64.

Lemma strain_ext64 dx dy dz (u v w u' v' w' : Array3) i j k :
  (forall a b c, near i j k a b c ->
     u a b c = u' a b c /\ v a b c = v' a b c /\ w a b c = w' a b c) ->
  strain dx dy dz u v w i j k = strain dx dy dz u' v' w' i j k.
Proof.
  intros Hn.
  destruct (Hn (i + 1) j k) as (U1 & V1 & W1); [unfold near; lia|].
  destruct (Hn (i - 1) j k) as (U2 & V2 & W2); [unfold near; lia|].
  destruct (Hn i (j + 1) k) as (U3 & V3 & W3); [unfold near; lia|].
  destruct (Hn i (j - 1) k) as (U4 & V4 & W4); [unfold near; lia|].
  destruct (Hn i j (k + 1)) as (U5 & V5 & W5); [unfold near; lia|].
  destruct (Hn i j (k - 1)) as (U6 & V6 & W6); [unfold near; lia|].
  unfold strain.
  rewrite U1, U2, U3, U4, U5, U6, V1, V2, V3, V4, V5, V6, W1, W2, W3, W4, W5, W6.
  reflexivity.
Qed.

Section StageFacts64.
Variables LEN HIG DEP : Z.
Variables dx dy dz DD small : real.
Variable fresh : buffer -> Array3.
Variable st : Store var.

(** The strain magnitude the main loop nest records. *)
Lemma stage_pre_magStrain64 i j k :
  interior LEN HIG DEP i j k = true ->
  stage_pre LEN HIG DEP dx dy dz fresh st magStrain i j k =
  mag (strain dx dy dz (velocity (st ru) (st rho)) (velocity (st rv) (st rho))
         (velocity (st rw) (st rho)) i j k).
Proof.
  intros I. unfold stage_pre. rewrite DS_filter_A_other64 by reflexivity.
  unfold stage_main. rewrite cellwise_in by exact I.
  rewrite main_cell_magStrain64. f_equal. apply strain_ext64.
  intros a b c N. apply stage_filt_velocity64.
  exact (near_padded _ _ _ I N).
Qed.

(** The eddy viscosity the last loop nest assigns. *)
Lemma stage_final_mu64 i j k :
  interior LEN HIG DEP i j k = true ->
  let s := stage_pre LEN HIG DEP dx dy dz fresh st in
  stage_final LEN HIG DEP dx dy dz DD small fresh st mu_SGS i j k =
  (st rho i j k * clip (Cd_raw small (Leonard s i j k) (Mtensor DD s i j k)) * DD
   * mag (strain dx dy dz (velocity (st ru) (st rho)) (velocity (st rv) (st rho))
            (velocity (st rw) (st rho)) i j k))%float.
Proof.
  intros I s. unfold stage_final. rewrite cellwise_in by exact I.
  rewrite final_cell_mu64. fold s. unfold s at 1 4.
  rewrite stage_pre_argument64 by reflexivity.
  rewrite stage_pre_magStrain64 by exact I. reflexivity.
Qed.

End StageFacts64.

(** ** Uniform flow *)


Section UniformStrain64.
Variables dx dy dz : real.
Variables fu fv fw : Array3.
Variables cu cv cw : real.
Variables i j k : Z.
Hypothesis Hdx : PrimFloat.is_finite dx = true.
Hypothesis Hdy : PrimFloat.is_finite dy = true.
Hypothesis Hdz : PrimFloat.is_finite dz = true.
Hypothesis Hcu : PrimFloat.is_finite cu = true.
Hypothesis Hcv : PrimFloat.is_finite cv = true.
Hypothesis Hcw : PrimFloat.is_finite cw = true.
Hypothesis Hu : forall a b c, near i j k a b c -> fu a b c = cu.
Hypothesis Hv : forall a b c, near i j k a b c -> fv a b c = cv.
Hypothesis Hw : forall a b c, near i j k a b c -> fw a b c = cw.





End UniformStrain64.

(** ** The passes of [filter_], cell by cell *)

Lemma inner_loop64 (h : kernel) (g : Z -> real) :
  for_ 0 3 (fun l tmp => (tmp + g l * hk h l)%float) 0%float = tap h (g 0) (g 1) (g 2).
Proof. reflexivity. Qed.

Section FilterFacts64.
Variables LEN HIG DEP : Z.
Variables m_ m__ Uin : Array3.
Variable h : kernel.

  (** [U__] after the first pass. *)
Definition after1 (a b c : Z) : real :=
    if box1 LEN HIG DEP a b c then tap h (Uin a (b - 1) c) (Uin a b c) (Uin a (b + 1) c)
    else m__ a b c.

  (** [U_] after the second pass. *)
Definition after2 (a b c : Z) : real :=
    if box2 LEN HIG DEP a b c then tap h (after1 a b (c - 1)) (after1 a b c) (after1 a b (c + 1))
    else m_ a b c.

  (** [U__] after the third pass. *)
Definition after3 (a b c : Z) : real :=
    if box3 LEN HIG DEP a b c then tap h (after2 (a - 1) b c) (after2 a b c) (after2 (a + 1) b c)
    else after1 a b c.

Lemma pass1_run64 (s : Store fvar) y a b c :
    for3 0 (LENN LEN) 1 (HIGG HIG) 0 (DEPP DEP) (pass1_body h) s y a b c =
    if name_eqb y U__ && box1 LEN HIG DEP a b c
    then tap h (s U a (b - 1) c) (s U a b c) (s U a (b + 1) c)
    else s y a b c.
  Proof.
    unfold pass1_body.
    rewrite (for3_single_write (x := U__) (
      (fun i j k s => for_ 0 3 (fun l tmp => (tmp + s U i (j + l - 1)%Z k * hk h l)%float) 0%float))).
    - rewrite (inner_loop64 h (fun l => s U a (b + l - 1) c)).
      replace (b + 0 - 1) with (b - 1) by lia.
      replace (b + 1 - 1) with b by lia.
      replace (b + 2 - 1) with (b + 1) by lia. reflexivity.
    - intros i j k s1 t A _.
      rewrite (inner_loop64 h (fun l => s1 U i (j + l - 1) k)),
              (inner_loop64 h (fun l => t U i (j + l - 1) k)).
      rewrite !(A U) by reflexivity. reflexivity.
  Qed.

Lemma pass2_run64 (s : Store fvar) y a b c :
    for3 0 (LENN LEN) 0 (HIGG HIG) 1 (DEPP DEP) (pass2_body h) s y a b c =
    if name_eqb y U_ && box2 LEN HIG DEP a b c
    then tap h (s U__ a b (c - 1)) (s U__ a b c) (s U__ a b (c + 1))
    else s y a b c.
  Proof.
    unfold pass2_body.
    rewrite (for3_single_write (x := U_) (
      (fun i j k s => for_ 0 3 (fun l tmp => (tmp + s U__ i j (k + l - 1)%Z * hk h l)%float) 0%float))).
    - rewrite (inner_loop64 h (fun l => s U__ a b (c + l - 1))).
      replace (c + 0 - 1) with (c - 1) by lia.
      replace (c + 1 - 1) with c by lia.
      replace (c + 2 - 1) with (c + 1) by lia. reflexivity.
    - intros i j k s1 t A _.
      rewrite (inner_loop64 h (fun l => s1 U__ i j (k + l - 1))),
              (inner_loop64 h (fun l => t U__ i j (k + l - 1))).
      rewrite !(A U__) by reflexivity. reflexivity.
  Qed.

Lemma pass3_run64 (s : Store fvar) y a b c :
    for3 1 (LENN LEN) 0 (HIGG HIG) 0 (DEPP DEP) (pass3_body h) s y a b c =
    if name_eqb y U__ && box3 LEN HIG DEP a b c
    then tap h (s U_ (a - 1) b c) (s U_ a b c) (s U_ (a + 1) b c)
    else s y a b c.
  Proof.
    unfold pass3_body.
    rewrite (for3_single_write (x := U__) (
      (fun i j k s => for_ 0 3 (fun l tmp => (tmp + s U_ (i + l - 1)%Z j k * hk h l)%float) 0%float))).
    - rewrite (inner_loop64 h (fun l => s U_ (a + l - 1) b c)).
      replace (a + 0 - 1) with (a - 1) by lia.
      replace (a + 1 - 1) with a by lia.
      replace (a + 2 - 1) with (a + 1) by lia. reflexivity.
    - intros i j k s1 t A _.
      rewrite (inner_loop64 h (fun l => s1 U_ (i + l - 1) j k)),
              (inner_loop64 h (fun l => t U_ (i + l - 1) j k)).
      rewrite !(A U_) by reflexivity. reflexivity.
  Qed.

  (** The array [filter_] returns, cell by cell. *)
Lemma filter_cellwise64 a b c :
    filter_ LEN HIG DEP m_ m__ Uin h a b c = after3 a b c.
  Proof.
    unfold filter_, filter_run. cbv zeta.
    rewrite pass3_run64. cbn [name_eqb fvar_Name fvar_eqb andb].
    unfold after3. 
    assert (E2 : forall a b c,
      for3 0 (LENN LEN) 0 (HIGG HIG) 1 (DEPP DEP) (pass2_body h)
        (for3 0 (LENN LEN) 1 (HIGG HIG) 0 (DEPP DEP) (pass1_body h)
           (filter_entry m_ m__ Uin)) U_ a b c = after2 a b c).
    { intros a' b' c'. rewrite pass2_run64. cbn [name_eqb fvar_Name fvar_eqb andb].
      unfold after2, after1. rewrite !pass1_run64.
      cbn [name_eqb fvar_Name fvar_eqb andb filter_entry]. reflexivity. }
    rewrite !E2. destruct (box3 LEN HIG DEP a b c); [reflexivity|].
    rewrite pass2_run64. cbn [name_eqb fvar_Name fvar_eqb andb].
    rewrite pass1_run64. reflexivity.
  Qed.

End FilterFacts64.

(** One pass along each axis, where the pass reads assigned cells. *)
Definition along_j (h : kernel) (f : Array3) : Array3 :=
  fun a b c => tap h (f a (b - 1) c) (f a b c) (f a (b + 1) c).

Definition along_k (h : kernel) (f : Array3) : Array3 :=
  fun a b c => tap h (f a b (c - 1)) (f a b c) (f a b (c + 1)).

Definition along_i (h : kernel) (f : Array3) : Array3 :=
  fun a b c => tap h (f (a - 1) b c) (f a b c) (f (a + 1) b c).

(** The three passes in the order of the code: along [j], then [k], then [i]. *)
Definition passes (h : kernel) (f : Array3) : Array3 :=
  along_i h (along_k h (along_j h f)).

Section FilterDefined64.
Variables LEN HIG DEP : Z.
Variables m_ m__ Uin : Array3.
Variable h : kernel.

Lemma after1_defined64 a b c :
  def1 LEN HIG DEP a b c = true ->
  after1 LEN HIG DEP m__ Uin h a b c = along_j h Uin a b c.
Proof. intros D. unfold after1. rewrite (def1_box1 _ _ _ _ _ _ D). reflexivity. Qed.

Lemma after2_defined64 a b c :
  def2 LEN HIG DEP a b c = true ->
  after2 LEN HIG DEP m_ m__ Uin h a b c = along_k h (along_j h Uin) a b c.
Proof.
  intros D. unfold after2. rewrite (def2_box2 _ _ _ _ _ _ D).
  unfold def2 in D. rewrite !andb_true_iff in D. destruct D as [[[_ P0] P1] P2].
  rewrite !after1_defined64 by assumption. reflexivity.
Qed.

Lemma after3_defined64 a b c :
  def3 LEN HIG DEP a b c = true ->
  after3 LEN HIG DEP m_ m__ Uin h a b c = passes h Uin a b c.
Proof.
  intros D. unfold after3. rewrite (def3_box3 _ _ _ _ _ _ D).
  unfold def3 in D. rewrite !andb_true_iff in D. destruct D as [[[_ P0] P1] P2].
  rewrite !after2_defined64 by assumption. reflexivity.
Qed.
End FilterDefined64.

(** The three passes read the 27 cells around the cell only. *)
Lemma passes_ext64 (h : kernel) (U1 U2 : Array3) i j k :
  (forall a b c, i - 1 <= a <= i + 1 -> j - 1 <= b <= j + 1 -> k - 1 <= c <= k + 1 ->
     U1 a b c = U2 a b c) ->
  passes h U1 i j k = passes h U2 i j k.
Proof.
  intros E. unfold passes, along_i, along_k, along_j.
  rewrite !E by lia. reflexivity.
Qed.

(** The filter at a defined cell, of an array known on the stencil. *)
Lemma filter_passes64 LEN HIG DEP (m_ m__ Uin f : Array3) (h : kernel) i j k :
  def3 LEN HIG DEP i j k = true ->
  (forall a b c, i - 1 <= a <= i + 1 -> j - 1 <= b <= j + 1 -> k - 1 <= c <= k + 1 ->
     Uin a b c = f a b c) ->
  filter_ LEN HIG DEP m_ m__ Uin h i j k = passes h f i j k.
Proof.
  intros D E. rewrite filter_cellwise64, after3_defined64 by exact D.
  apply passes_ext64, E.
Qed.
(** ** The estimator away from the boundary, as a function of its inputs *)

Definition scale (c : real) (t : tensor) : tensor :=
  T9 (c * t11 t) (c * t12 t) (c * t13 t)
     (c * t21 t) (c * t22 t) (c * t23 t)
     (c * t31 t) (c * t32 t) (c * t33 t)%float.

(** The tensors a store holds at a cell in the arrays [A], [B_], [A_]. *)
Definition Atensor (s : Store var) (i j k : Z) : tensor :=
  T9 (s A11 i j k) (s A12 i j k) (s A13 i j k)
     (s A21 i j k) (s A22 i j k) (s A23 i j k)
     (s A31 i j k) (s A32 i j k) (s A33 i j k).

Definition Btensor (s : Store var) (i j k : Z) : tensor :=
  T9 (s B11_ i j k) (s B12_ i j k) (s B13_ i j k)
     (s B21_ i j k) (s B22_ i j k) (s B23_ i j k)
     (s B31_ i j k) (s B32_ i j k) (s B33_ i j k).

Definition Ahat (s : Store var) (i j k : Z) : tensor :=
  T9 (s A11_ i j k) (s A12_ i j k) (s A13_ i j k)
     (s A21_ i j k) (s A22_ i j k) (s A23_ i j k)
     (s A31_ i j k) (s A32_ i j k) (s A33_ i j k).

(** [M = DD (4 B - Ahat)], component by component. *)
Definition combine_M (DD : real) (b a : tensor) : tensor :=
  T9 (DD * (4 * t11 b - t11 a)) (DD * (4 * t12 b - t12 a)) (DD * (4 * t13 b - t13 a))
     (DD * (4 * t21 b - t21 a)) (DD * (4 * t22 b - t22 a)) (DD * (4 * t23 b - t23 a))
     (DD * (4 * t31 b - t31 a)) (DD * (4 * t32 b - t32 a)) (DD * (4 * t33 b - t33 a))%float.

(** The test filter: the three passes with the box kernel. *)
Definition hat (f : Array3) : Array3 := passes FilterKer f.

Section Ideal64.
Variables dx dy dz DD small : real.
(** The density and the three momenta. *)
Variables r qu qv qw : Array3.

Definition ideal_strain (i j k : Z) : tensor :=
  strain dx dy dz (velocity qu r) (velocity qv r) (velocity qw r) i j k.

Definition ideal_A (i j k : Z) : tensor :=
  scale (mag (ideal_strain i j k)) (ideal_strain i j k).

Definition ideal_strain_hat (i j k : Z) : tensor :=
  strain dx dy dz (hat (velocity qu r)) (hat (velocity qv r)) (hat (velocity qw r)) i j k.

Definition ideal_B (i j k : Z) : tensor :=
  scale (mag (ideal_strain_hat i j k)) (ideal_strain_hat i j k).

Definition ideal_Ahat (i j k : Z) : tensor :=
  T9 (hat (fun a b c => t11 (ideal_A a b c)) i j k)
     (hat (fun a b c => t12 (ideal_A a b c)) i j k)
     (hat (fun a b c => t13 (ideal_A a b c)) i j k)
     (hat (fun a b c => t21 (ideal_A a b c)) i j k)
     (hat (fun a b c => t22 (ideal_A a b c)) i j k)
     (hat (fun a b c => t23 (ideal_A a b c)) i j k)
     (hat (fun a b c => t31 (ideal_A a b c)) i j k)
     (hat (fun a b c => t32 (ideal_A a b c)) i j k)
     (hat (fun a b c => t33 (ideal_A a b c)) i j k).

Definition times (f g : Array3) : Array3 := fun a b c => (f a b c * g a b c)%float.

(** [L_ij = hat (u_i u_j) - hat u_i hat u_j]. *)
Definition ideal_Leonard (i j k : Z) : tensor :=
  let U := velocity qu r in
  let V := velocity qv r in
  let W := velocity qw r in
  T9 (hat (times U U) i j k - hat U i j k * hat U i j k)
     (hat (times U V) i j k - hat U i j k * hat V i j k)
     (hat (times U W) i j k - hat U i j k * hat W i j k)
     (hat (times V U) i j k - hat V i j k * hat U i j k)
     (hat (times V V) i j k - hat V i j k * hat V i j k)
     (hat (times V W) i j k - hat V i j k * hat W i j k)
     (hat (times W U) i j k - hat W i j k * hat U i j k)
     (hat (times W V) i j k - hat W i j k * hat V i j k)
     (hat (times W W) i j k - hat W i j k * hat W i j k)%float.

Definition ideal_M (i j k : Z) : tensor :=
  combine_M DD (ideal_B i j k) (ideal_Ahat i j k).

(** The dynamic Smagorinsky viscosity as a function of the four fields. *)
Definition ideal_mu (i j k : Z) : real :=
  (r i j k * clip (Cd_raw small (ideal_Leonard i j k) (ideal_M i j k)) * DD
   * mag (ideal_strain i j k))%float.
End Ideal64.

(** The calls of the filter, one by one. *)
Lemma filter_calls64 LEN HIG DEP (fresh : buffer -> Array3) (s : Store var) :
  let f x src :=
    filter_ LEN HIG DEP (fresh (Scratch x)) (fresh (Own x)) (s src) FilterKer in
  DS_filter_velocities LEN HIG DEP fresh s u_ = f u_ u /\
  DS_filter_velocities LEN HIG DEP fresh s v_ = f v_ v /\
  DS_filter_velocities LEN HIG DEP fresh s w_ = f w_ w /\
  DS_filter_velocities LEN HIG DEP fresh s uv_ = f uv_ L12 /\
  DS_filter_velocities LEN HIG DEP fresh s vu_ = f vu_ L21.
Proof. repeat split; reflexivity. Qed.

Lemma filter_product_calls64 LEN HIG DEP (fresh : buffer -> Array3) (s : Store var) :
  let f x src :=
    filter_ LEN HIG DEP (fresh (Scratch x)) (fresh (Own x)) (s src) FilterKer in
  DS_filter_velocities LEN HIG DEP fresh s uw_ = f uw_ L13 /\
  DS_filter_velocities LEN HIG DEP fresh s wu_ = f wu_ L31 /\
  DS_filter_velocities LEN HIG DEP fresh s vw_ = f vw_ L23 /\
  DS_filter_velocities LEN HIG DEP fresh s wv_ = f wv_ L32.
Proof. repeat split; reflexivity. Qed.

Lemma filter_A_calls64 LEN HIG DEP (fresh : buffer -> Array3) (s : Store var) :
  let f x src :=
    filter_ LEN HIG DEP (fresh (Scratch x)) (fresh (Own x)) (s src) FilterKer in
  DS_filter_A LEN HIG DEP fresh s A12_ = f A12_ A12 /\
  DS_filter_A LEN HIG DEP fresh s A21_ = f A21_ A21 /\
  DS_filter_A LEN HIG DEP fresh s A13_ = f A13_ A13 /\
  DS_filter_A LEN HIG DEP fresh s A31_ = f A31_ A31 /\
  DS_filter_A LEN HIG DEP fresh s A23_ = f A23_ A23 /\
  DS_filter_A LEN HIG DEP fresh s A32_ = f A32_ A32.
Proof. repeat split; reflexivity. Qed.

(** The Leonard tensor the main loop nest leaves. *)
Lemma stage_pre_Leonard64 LEN HIG DEP dx dy dz (fresh : buffer -> Array3)
  (st : Store var) i j k :
  interior LEN HIG DEP i j k = true ->
  let s := stage_filt LEN HIG DEP fresh st in
  Leonard (stage_pre LEN HIG DEP dx dy dz fresh st) i j k =
  T9 (s uu_ i j k - s u_ i j k * s u_ i j k) (s uv_ i j k - s u_ i j k * s v_ i j k)
     (s uw_ i j k - s u_ i j k * s w_ i j k) (s vu_ i j k - s v_ i j k * s u_ i j k)
     (s vv_ i j k - s v_ i j k * s v_ i j k) (s vw_ i j k - s v_ i j k * s w_ i j k)
     (s wu_ i j k - s w_ i j k * s u_ i j k) (s wv_ i j k - s w_ i j k * s v_ i j k)
     (s ww_ i j k - s w_ i j k * s w_ i j k)%float.
Proof.
  intros I s. unfold Leonard, stage_pre.
  rewrite !DS_filter_A_other64 by reflexivity. unfold stage_main.
  rewrite !cellwise_in by exact I.
  exact (main_cell_Leonard64 dx dy dz (stage_filt LEN HIG DEP fresh st) i j k).
Qed.

Lemma main_cell_A64 dx dy dz (s : Store var) i j k :
  let S := strain dx dy dz (s u) (s v) (s w) i j k in
  T9 (cellval (main_body dx dy dz) s A11 i j k) (cellval (main_body dx dy dz) s A12 i j k)
     (cellval (main_body dx dy dz) s A13 i j k) (cellval (main_body dx dy dz) s A21 i j k)
     (cellval (main_body dx dy dz) s A22 i j k) (cellval (main_body dx dy dz) s A23 i j k)
     (cellval (main_body dx dy dz) s A31 i j k) (cellval (main_body dx dy dz) s A32 i j k)
     (cellval (main_body dx dy dz) s A33 i j k) = scale (mag S) S.
Proof. cbv zeta. unfold scale. f_equal; run_cell main_body; reflexivity. Qed.

Lemma main_cell_B64 dx dy dz (s : Store var) i j k :
  let S := strain dx dy dz (s u_) (s v_) (s w_) i j k in
  T9 (cellval (main_body dx dy dz) s B11_ i j k) (cellval (main_body dx dy dz) s B12_ i j k)
     (cellval (main_body dx dy dz) s B13_ i j k) (cellval (main_body dx dy dz) s B21_ i j k)
     (cellval (main_body dx dy dz) s B22_ i j k) (cellval (main_body dx dy dz) s B23_ i j k)
     (cellval (main_body dx dy dz) s B31_ i j k) (cellval (main_body dx dy dz) s B32_ i j k)
     (cellval (main_body dx dy dz) s B33_ i j k) = scale (mag S) S.
Proof. cbv zeta. unfold scale. f_equal; run_cell main_body; reflexivity. Qed.

Lemma filter_square_calls64 LEN HIG DEP (fresh : buffer -> Array3) (s : Store var) :
  let f x src :=
    filter_ LEN HIG DEP (fresh (Scratch x)) (fresh (Own x)) (s src) FilterKer in
  DS_filter_velocities LEN HIG DEP fresh s uu_ = f uu_ L11 /\
  DS_filter_velocities LEN HIG DEP fresh s vv_ = f vv_ L22 /\
  DS_filter_velocities LEN HIG DEP fresh s ww_ = f ww_ L33.
Proof. repeat split; reflexivity. Qed.

Lemma filter_A_diagonal_calls64 LEN HIG DEP (fresh : buffer -> Array3) (s : Store var) :
  let f x src :=
    filter_ LEN HIG DEP (fresh (Scratch x)) (fresh (Own x)) (s src) FilterKer in
  DS_filter_A LEN HIG DEP fresh s A11_ = f A11_ A11 /\
  DS_filter_A LEN HIG DEP fresh s A22_ = f A22_ A22 /\
  DS_filter_A LEN HIG DEP fresh s A33_ = f A33_ A33.
Proof. repeat split; reflexivity. Qed.

Section IdealStages64.
Variables LEN HIG DEP : Z.
Variables dx dy dz DD small : real.
Variable fresh : buffer -> Array3.
Variable st : Store var.

Lemma stage_prod_velocity64 a b c :
  padded LEN HIG DEP a b c = true ->
  stage_prod LEN HIG DEP fresh st u a b c = velocity (st ru) (st rho) a b c /\
  stage_prod LEN HIG DEP fresh st v a b c = velocity (st rv) (st rho) a b c /\
  stage_prod LEN HIG DEP fresh st w a b c = velocity (st rw) (st rho) a b c.
Proof.
  intros P.
  pose proof (@stage_filt_velocity64 LEN HIG DEP fresh st a b c P) as K.
  unfold stage_filt in K.
  rewrite !DS_filter_velocities_other64 in K by reflexivity. exact K.
Qed.

Lemma stage_prod_products64 a b c :
  padded LEN HIG DEP a b c = true ->
  let U := velocity (st ru) (st rho) in
  let V := velocity (st rv) (st rho) in
  let W := velocity (st rw) (st rho) in
  let s := stage_prod LEN HIG DEP fresh st in
  (s L11 a b c = times U U a b c /\ s L12 a b c = times U V a b c /\
   s L13 a b c = times U W a b c) /\
  (s L21 a b c = times V U a b c /\ s L22 a b c = times V V a b c /\
   s L23 a b c = times V W a b c) /\
  (s L31 a b c = times W U a b c /\ s L32 a b c = times W V a b c /\
   s L33 a b c = times W W a b c).
Proof.
  intros P U V W s. destruct (@stage_prod_velocity64 a b c P) as (Eu & Ev & Ew).
  unfold stage_prod in Eu, Ev, Ew. rewrite !prod_keeps64 in Eu, Ev, Ew by reflexivity.
  unfold s, stage_prod. rewrite <- padded_box in P.
  rewrite !cellwise_in by exact P.
  destruct (prod_cell64 (stage_prim LEN HIG DEP fresh st) a b c)
    as (E11 & E12 & E13 & E21 & E22 & E23 & E31 & E32 & E33).
  rewrite E11, E12, E13, E21, E22, E23, E31, E32, E33, Eu, Ev, Ew.
  unfold times. repeat split; reflexivity.
Qed.

Lemma stencil_padded64 i j k a b c :
  def3 LEN HIG DEP i j k = true ->
  i - 1 <= a <= i + 1 -> j - 1 <= b <= j + 1 -> k - 1 <= c <= k + 1 ->
  padded LEN HIG DEP a b c = true.
Proof. intros D Ha Hb Hc. apply padded_spec. apply def3_spec in D. lia. Qed.

(** The filtered velocities at a defined cell. *)
Lemma stage_filt_hat_velocity64 i j k :
  def3 LEN HIG DEP i j k = true ->
  let s := stage_filt LEN HIG DEP fresh st in
  s u_ i j k = hat (velocity (st ru) (st rho)) i j k /\
  s v_ i j k = hat (velocity (st rv) (st rho)) i j k /\
  s w_ i j k = hat (velocity (st rw) (st rho)) i j k.
Proof.
  intros D s. unfold s, stage_filt.
  destruct (filter_calls64 LEN HIG DEP fresh (stage_prod LEN HIG DEP fresh st))
    as (Fu & Fv & Fw & _). cbv zeta in Fu, Fv, Fw. rewrite Fu, Fv, Fw.
  repeat split; apply filter_passes64; try exact D; intros a b c Ha Hb Hc;
    apply (@stage_prod_velocity64 a b c (@stencil_padded64 i j k a b c D Ha Hb Hc)).
Qed.

(** The filtered products at a defined cell. *)
Lemma stage_filt_hat_products64 i j k :
  def3 LEN HIG DEP i j k = true ->
  let U := velocity (st ru) (st rho) in
  let V := velocity (st rv) (st rho) in
  let W := velocity (st rw) (st rho) in
  let s := stage_filt LEN HIG DEP fresh st in
  (s uu_ i j k = hat (times U U) i j k /\ s uv_ i j k = hat (times U V) i j k /\
   s uw_ i j k = hat (times U W) i j k) /\
  (s vu_ i j k = hat (times V U) i j k /\ s vv_ i j k = hat (times V V) i j k /\
   s vw_ i j k = hat (times V W) i j k) /\
  (s wu_ i j k = hat (times W U) i j k /\ s wv_ i j k = hat (times W V) i j k /\
   s ww_ i j k = hat (times W W) i j k).
Proof.
  intros D U V W s. unfold s, stage_filt.
  destruct (filter_calls64 LEN HIG DEP fresh (stage_prod LEN HIG DEP fresh st))
    as (_ & _ & _ & Fuv & Fvu).
  destruct (filter_product_calls64 LEN HIG DEP fresh (stage_prod LEN HIG DEP fresh st))
    as (Fuw & Fwu & Fvw & Fwv).
  destruct (filter_square_calls64 LEN HIG DEP fresh (stage_prod LEN HIG DEP fresh st))
    as (Fuu & Fvv & Fww).
  cbv zeta in Fuv, Fvu, Fuw, Fwu, Fvw, Fwv, Fuu, Fvv, Fww.
  rewrite Fuv, Fvu, Fuw, Fwu, Fvw, Fwv, Fuu, Fvv, Fww.
  assert (K : forall a b c, i - 1 <= a <= i + 1 -> j - 1 <= b <= j + 1 ->
                k - 1 <= c <= k + 1 -> _)
    by (intros a b c Ha Hb Hc;
        exact (@stage_prod_products64 a b c (@stencil_padded64 i j k a b c D Ha Hb Hc))).
  cbv zeta in K.
  split; [|split]; (split; [|split]); apply filter_passes64; try exact D;
    intros a b c Ha Hb Hc; apply (K a b c Ha Hb Hc).
Qed.

(** The Leonard tensor at a defined cell is a function of the inputs. *)
Lemma stage_pre_Leonard_ideal64 i j k :
  def3 LEN HIG DEP i j k = true ->
  Leonard (stage_pre LEN HIG DEP dx dy dz fresh st) i j k =
  ideal_Leonard (st rho) (st ru) (st rv) (st rw) i j k.
Proof.
  intros D. rewrite stage_pre_Leonard64 by (apply def3_interior, D). cbv zeta.
  destruct (@stage_filt_hat_velocity64 i j k D) as (Eu & Ev & Ew).
  destruct (@stage_filt_hat_products64 i j k D)
    as ((E11 & E12 & E13) & (E21 & E22 & E23) & (E31 & E32 & E33)).
  cbv zeta in Eu, Ev, Ew, E11, E12, E13, E21, E22, E23, E31, E32, E33.
  rewrite Eu, Ev, Ew, E11, E12, E13, E21, E22, E23, E31, E32, E33. reflexivity.
Qed.

(** The tensor A at an interior cell is a function of the inputs. *)
Lemma stage_main_A_ideal64 i j k :
  interior LEN HIG DEP i j k = true ->
  Atensor (stage_main LEN HIG DEP dx dy dz fresh st) i j k =
  ideal_A dx dy dz (st rho) (st ru) (st rv) (st rw) i j k.
Proof.
  intros I. unfold Atensor, stage_main. rewrite !cellwise_in by exact I.
  rewrite main_cell_A64. cbv zeta. unfold ideal_A, ideal_strain.
  rewrite (@strain_ext64 dx dy dz _ _ _ (velocity (st ru) (st rho))
             (velocity (st rv) (st rho)) (velocity (st rw) (st rho))); [reflexivity|].
  intros a b c N. pose proof (near_padded _ _ _ I N) as P.
  exact (@stage_filt_velocity64 LEN HIG DEP fresh st a b c P).
Qed.

(** The tensor B where the filtered velocities around the cell are defined. *)
Lemma stage_main_B_ideal64 i j k :
  2 <= i <= LEN - 2 -> 2 <= j <= HIG - 1 -> 2 <= k <= DEP - 2 ->
  Btensor (stage_main LEN HIG DEP dx dy dz fresh st) i j k =
  ideal_B dx dy dz (st rho) (st ru) (st rv) (st rw) i j k.
Proof.
  intros Hi Hj Hk.
  assert (I : interior LEN HIG DEP i j k = true) by (apply interior_spec; lia).
  unfold Btensor, stage_main. rewrite !cellwise_in by exact I.
  rewrite main_cell_B64. cbv zeta. unfold ideal_B, ideal_strain_hat.
  rewrite (@strain_ext64 dx dy dz _ _ _ (hat (velocity (st ru) (st rho)))
             (hat (velocity (st rv) (st rho))) (hat (velocity (st rw) (st rho))));
    [reflexivity|].
  intros a b c N.
  assert (D : def3 LEN HIG DEP a b c = true)
    by (apply def3_spec; unfold near in N; lia).
  apply (@stage_filt_hat_velocity64 a b c D).
Qed.

(** The filtered tensor A where the stencil stays in the interior. *)
Lemma stage_pre_Ahat_ideal64 i j k :
  2 <= i <= LEN - 1 -> 2 <= j <= HIG - 1 -> 2 <= k <= DEP - 1 ->
  Ahat (stage_pre LEN HIG DEP dx dy dz fresh st) i j k =
  ideal_Ahat dx dy dz (st rho) (st ru) (st rv) (st rw) i j k.
Proof.
  intros Hi Hj Hk.
  assert (D : def3 LEN HIG DEP i j k = true) by (apply def3_spec; lia).
  assert (K : forall a b c, i - 1 <= a <= i + 1 -> j - 1 <= b <= j + 1 ->
                k - 1 <= c <= k + 1 ->
                Atensor (stage_main LEN HIG DEP dx dy dz fresh st) a b c =
                ideal_A dx dy dz (st rho) (st ru) (st rv) (st rw) a b c).
  { intros a b c Ha Hb Hc. apply stage_main_A_ideal64. apply interior_spec. lia. }
  destruct (filter_A_calls64 LEN HIG DEP fresh (stage_main LEN HIG DEP dx dy dz fresh st))
    as (F12 & F21 & F13 & F31 & F23 & F32).
  destruct (filter_A_diagonal_calls64 LEN HIG DEP fresh
              (stage_main LEN HIG DEP dx dy dz fresh st)) as (F11 & F22 & F33).
  cbv zeta in F12, F21, F13, F31, F23, F32, F11, F22, F33.
  unfold Ahat, ideal_Ahat, stage_pre.
  rewrite F12, F21, F13, F31, F23, F32, F11, F22, F33.
  f_equal; apply filter_passes64; try exact D; intros a b c Ha Hb Hc.
  - exact (f_equal t11 (K a b c Ha Hb Hc)).
  - exact (f_equal t12 (K a b c Ha Hb Hc)).
  - exact (f_equal t13 (K a b c Ha Hb Hc)).
  - exact (f_equal t21 (K a b c Ha Hb Hc)).
  - exact (f_equal t22 (K a b c Ha Hb Hc)).
  - exact (f_equal t23 (K a b c Ha Hb Hc)).
  - exact (f_equal t31 (K a b c Ha Hb Hc)).
  - exact (f_equal t32 (K a b c Ha Hb Hc)).
  - exact (f_equal t33 (K a b c Ha Hb Hc)).
Qed.

(** The tensor M away from the boundary is a function of the inputs. *)
Lemma stage_pre_M_ideal64 i j k :
  2 <= i <= LEN - 2 -> 2 <= j <= HIG - 1 -> 2 <= k <= DEP - 2 ->
  Mtensor DD (stage_pre LEN HIG DEP dx dy dz fresh st) i j k =
  ideal_M dx dy dz DD (st rho) (st ru) (st rv) (st rw) i j k.
Proof.
  intros Hi Hj Hk.
  change (Mtensor DD (stage_pre LEN HIG DEP dx dy dz fresh st) i j k)
    with (combine_M DD (Btensor (stage_pre LEN HIG DEP dx dy dz fresh st) i j k)
            (Ahat (stage_pre LEN HIG DEP dx dy dz fresh st) i j k)).
  rewrite stage_pre_Ahat_ideal64 by lia.
  assert (EB : Btensor (stage_pre LEN HIG DEP dx dy dz fresh st) i j k =
               Btensor (stage_main LEN HIG DEP dx dy dz fresh st) i j k).
  { unfold Btensor, stage_pre. rewrite !DS_filter_A_other64 by reflexivity. reflexivity. }
  rewrite EB, stage_main_B_ideal64 by lia. reflexivity.
Qed.
End IdealStages64.

End B64.

(** * The claims on values, in binary64 *)

(** Every buffer zeroed. *)
Definition zero_fresh64 : buffer -> B64.Array3 := fun _ => B64.const3 0%float.


(** Every buffer filled with NaN. *)
Definition nan_fresh64 : buffer -> B64.Array3 := fun _ => B64.const3 nan.

(** The store at entry: the four arguments, and zeros elsewhere. *)
Definition entry64 (r qu qv qw : B64.Array3) : B64.Store var :=
  fun y =>
    match y with
    | rho => r | ru => qu | rv => qv | rw => qw
    | _ => B64.const3 0%float
    end.

(** Density one, no momentum. *)
Definition unit_store64 : B64.Store var :=
  entry64 (B64.const3 1) (B64.const3 0) (B64.const3 0) (B64.const3 0).

(** Every buffer zeroed, but for the scratch buffer of the call that
    filters [u v], which holds ones. *)
Definition uv_fresh64 : buffer -> B64.Array3 :=
  fun b => match b with Scratch uv_ => B64.const3 1%float | _ => B64.const3 0%float end.

(** Density 1 and the momentum [2^600] along x: finite, but its square is
    not. *)
Definition fast_x64 : B64.Store var :=
  entry64 (B64.const3 1) (B64.const3 0x1p+600) (B64.const3 0) (B64.const3 0).

(** The same along y. *)
Definition fast_y64 : B64.Store var :=
  entry64 (B64.const3 1) (B64.const3 0) (B64.const3 0x1p+600) (B64.const3 0).

(** Density 1, [u] 3 on the plane [j = 1] and 1 elsewhere, [v] 3 on the
    plane [i = 2] and 1 elsewhere, [w] 0. *)
Definition sheared64 : B64.Store var :=
  entry64 (B64.const3 1)
    (fun a b c => if b =? 1 then 3%float else 1%float)
    (fun a b c => if a =? 2 then 3%float else 1%float)
    (B64.const3 0).


(** C1, as stated.  A finite input on which the coefficient is a NaN: both
    comparisons of the clip are false, the NaN is kept, it is not in
    [0, 0.15], and the eddy viscosity written is a NaN. *)
Lemma coefficient_not_clamped :
  exists s st',
    B64.DS_pre 1 1 1 1 1 1 zero_fresh64 fast_x64 = Some s /\
    B64.DynamicSmagorinsky 1 1 1 1 1 1 1 0x1p-20 zero_fresh64 fast_x64 = Some st' /\
    let Cd :=
      B64.clip (B64.Cd_raw 0x1p-20 (B64.Leonard s 1 1 1) (B64.Mtensor 1 s 1 1 1)) in
    PrimFloat.is_nan Cd = true /\
    (0 <=? Cd)%float = false /\ (Cd <=? B64.Cd_max)%float = false /\
    PrimFloat.is_nan (st' mu_SGS 1 1 1) = true.
Proof.
  eexists. eexists.
  split; [apply B64.DS_pre_run64|].
  split; [apply B64.DynamicSmagorinsky_run64|].
  vm_compute. repeat split; reflexivity.
Qed.

(** C1, amended.  In binary64 every run ends, and at every interior cell
    the eddy viscosity written is [rho * Cd * DD * |S|], multiplied from
    the left, where [|S|] is the strain magnitude of the velocities
    [ru * (1/rho)], [rv * (1/rho)], [rw * (1/rho)] and [Cd] comes from
    [raw = -0.5 * (L:M / (M:M + small))], with the deviatoric Leonard tensor
    and the tensor M of the store before the last loop nest: [Cd] is
    [0.15] when [raw > 0.15], [0.0] when [raw < 0.0], and [raw] itself
    otherwise, so it lies in [0, 0.15] unless it is a NaN, which it is
    exactly when [raw] is. *)
Theorem viscosity_formula_binary64 (LEN HIG DEP : Z)
  (dx dy dz DD small : float) (fresh : buffer -> B64.Array3) (st : B64.Store var) :
  exists s st',
    B64.DS_pre LEN HIG DEP dx dy dz fresh st = Some s /\
    B64.DynamicSmagorinsky LEN HIG DEP dx dy dz DD small fresh st = Some st' /\
    forall i j k, interior LEN HIG DEP i j k = true ->
      let L := B64.dev (B64.Leonard s i j k) in
      let M := B64.Mtensor DD s i j k in
      let raw := (-0.5 * (B64.ddot L M / (B64.ddot M M + small)))%float in
      exists Cd,
        ((B64.Cd_max <? raw)%float = true -> Cd = B64.Cd_max) /\
        ((raw <? 0)%float = true -> Cd = 0%float) /\
        ((B64.Cd_max <? raw)%float = false -> (raw <? 0)%float = false -> Cd = raw) /\
        (PrimFloat.is_nan Cd = true \/
         ((0 <=? Cd)%float = true /\ (Cd <=? B64.Cd_max)%float = true)) /\
        PrimFloat.is_nan Cd = PrimFloat.is_nan raw /\
        st' mu_SGS i j k =
        (st rho i j k * Cd * DD
         * B64.mag (B64.strain dx dy dz (B64.velocity (st ru) (st rho))
                      (B64.velocity (st rv) (st rho)) (B64.velocity (st rw) (st rho))
                      i j k))%float.
Proof.
  exists (B64.stage_pre LEN HIG DEP dx dy dz fresh st),
         (B64.stage_final LEN HIG DEP dx dy dz DD small fresh st).
  split; [apply B64.DS_pre_run64|].
  split; [apply B64.DynamicSmagorinsky_run64|].
  intros i j k I L M raw. exists (B64.clip raw).
  split; [apply B64.clip_above64|].
  split; [apply B64.clip_below64|].
  split; [apply B64.clip_inside64|].
  split; [apply B64.clip_range64|].
  split; [apply B64.clip_nan64|].
  rewrite (B64.stage_final_mu64 LEN HIG DEP dx dy dz DD small fresh st i j k I).
  reflexivity.
Qed.

(** C3, as stated.  A finite input with density 1 everywhere on which the
    eddy viscosity written at the interior cell is a NaN, so that
    [0 <= mu_SGS] is false. *)
Lemma viscosity_not_a_number :
  exists st',
    B64.DynamicSmagorinsky 1 1 1 1 1 1 1 0x1p-20 zero_fresh64 fast_y64 = Some st' /\
    (forall a b c, (0 <=? fast_y64 rho a b c)%float = true) /\
    (0 <=? st' mu_SGS 1%Z 1%Z 1%Z)%float = false.
Proof.
  eexists. split; [apply B64.DynamicSmagorinsky_run64|].
  split; [intros a b c; reflexivity|]. vm_compute. reflexivity.
Qed.

(** C3, amended.  When the density at an interior cell and the squared
    filter width are not negative, the eddy viscosity written at the cell
    is not negative: it is a NaN or it is [>= 0]. *)
Theorem viscosity_not_negative_binary64 (LEN HIG DEP : Z)
  (dx dy dz DD small : float) (fresh : buffer -> B64.Array3) (st : B64.Store var) :
  (0 <=? DD)%float = true ->
  (forall i j k, interior LEN HIG DEP i j k = true -> (0 <=? st rho i j k)%float = true) ->
  exists st',
    B64.DynamicSmagorinsky LEN HIG DEP dx dy dz DD small fresh st = Some st' /\
    forall i j k, interior LEN HIG DEP i j k = true ->
      PrimFloat.is_nan (st' mu_SGS i j k) = true \/ (0 <=? st' mu_SGS i j k)%float = true.
Proof.
  intros HD Hrho.
  exists (B64.stage_final LEN HIG DEP dx dy dz DD small fresh st).
  split; [apply B64.DynamicSmagorinsky_run64|].
  intros i j k I. apply B64.sign_ok_not_negative64.
  rewrite (B64.stage_final_mu64 LEN HIG DEP dx dy dz DD small fresh st i j k I).
  cbv zeta. unfold B64.mag.
  apply B64.sign_ok_mul64; [|apply B64.sign_ok_sqrt64].
  apply B64.sign_ok_mul64; [|apply B64.leb_sign_ok64, HD].
  apply B64.sign_ok_mul64; [|apply B64.sign_ok_clip64].
  apply B64.leb_sign_ok64, Hrho, I.
Qed.

Lemma viscosity_not_negative_binary64_witness :
  exists st',
    B64.DynamicSmagorinsky 3 3 3 1 1 1 1 0x1p-20 zero_fresh64 sheared64 = Some st' /\
    forall i j k, interior 3 3 3 i j k = true ->
      PrimFloat.is_nan (st' mu_SGS i j k) = true \/ (0 <=? st' mu_SGS i j k)%float = true.
Proof.
  apply (@viscosity_not_negative_binary64 3 3 3 1 1 1 1 0x1p-20 zero_fresh64 sheared64).
  - reflexivity.
  - intros i j k _. reflexivity.
Defined.









(** C8.  The identity kernel (0, 1, 0) does not return the field on the
    last interior plane when the buffer holds a NaN: at the interior cell
    (1,1,1) of the 1 x 1 x 1 grid the third pass adds [0 * U_[2][1][1]], a
    cell no pass assigned, and 0 times NaN is NaN.  With zeroed buffers
    the field comes back, and so it does at the cell (1,1,1) of the
    2 x 2 x 2 grid, all of whose stencil points were assigned, whatever
    the buffers held. *)
Theorem identity_kernel_not_identity :
  interior 1 1 1 1 1 1 = true /\
  PrimFloat.is_nan
    (B64.filter_ 1 1 1 (B64.const3 nan) (B64.const3 0%float) (B64.const3 5%float)
       [0; 1; 0]%float 1 1 1) = true /\
  B64.filter_ 1 1 1 (B64.const3 0%float) (B64.const3 0%float) (B64.const3 5%float)
    [0; 1; 0]%float 1 1 1 = 5%float /\
  def3 2 2 2 1 1 1 = true /\
  B64.filter_ 2 2 2 (B64.const3 nan) (B64.const3 nan) (B64.const3 5%float)
    [0; 1; 0]%float 1 1 1 = 5%float.
Proof. vm_compute. repeat split; reflexivity. Qed.

(** * More on the values, in binary64 *)

(** X1.  At every cell all of whose stencil points were assigned
    ([1 <= i <= LEN-1], [1 <= j <= HIG], [1 <= k <= DEP-1]) the array the
    filter returns is the kernel applied along [i] to the kernel applied
    along [k] to the kernel applied along [j] to the argument, each
    application being the sum [((0 + x0 h[0]) + x1 h[1]) + x2 h[2]] in
    binary64: a function of the argument alone, whatever the two buffers
    held. *)
Theorem filter_passes_binary64 (LEN HIG DEP : Z) (m_ m__ Uin : B64.Array3)
  (h : B64.kernel) (i j k : Z) :
  def3 LEN HIG DEP i j k = true ->
  B64.filter_ LEN HIG DEP m_ m__ Uin h i j k =
  B64.along_i h (B64.along_k h (B64.along_j h Uin)) i j k.
Proof.
  intros D. rewrite B64.filter_cellwise64. apply B64.after3_defined64, D.
Qed.

Lemma filter_passes_binary64_witness :
  B64.filter_ 2 2 2 (B64.const3 nan) (B64.const3 infinity) (B64.const3 7)
    B64.FilterKer 1 1 1 =
  B64.along_i B64.FilterKer
    (B64.along_k B64.FilterKer (B64.along_j B64.FilterKer (B64.const3 7))) 1 1 1.
Proof.
  apply (@filter_passes_binary64 2 2 2 (B64.const3 nan) (B64.const3 infinity)
           (B64.const3 7) B64.FilterKer 1 1 1).
  reflexivity.
Defined.

(** X8.  Backscatter is cut: at an interior cell where the coefficient
    [-0.5 * (L:M / (M:M + small))] is below zero, the coefficient used is
    [0.0] and the eddy viscosity written, [rho * 0.0 * DD * |S|], is a zero
    or, when a factor is infinite or a NaN, a NaN. *)
Theorem backscatter_cut_binary64 (LEN HIG DEP : Z)
  (dx dy dz DD small : float) (fresh : buffer -> B64.Array3) (st s : B64.Store var)
  (i j k : Z) :
  interior LEN HIG DEP i j k = true ->
  B64.DS_pre LEN HIG DEP dx dy dz fresh st = Some s ->
  (-0.5 * (B64.ddot (B64.dev (B64.Leonard s i j k)) (B64.Mtensor DD s i j k)
           / (B64.ddot (B64.Mtensor DD s i j k) (B64.Mtensor DD s i j k) + small))
   <? 0)%float = true ->
  exists st',
    B64.DynamicSmagorinsky LEN HIG DEP dx dy dz DD small fresh st = Some st' /\
    ((st' mu_SGS i j k =? 0)%float = true \/
     PrimFloat.is_nan (st' mu_SGS i j k) = true).
Proof.
  intros I Hs Hraw. rewrite B64.DS_pre_run64 in Hs. injection Hs as <-.
  exists (B64.stage_final LEN HIG DEP dx dy dz DD small fresh st).
  split; [apply B64.DynamicSmagorinsky_run64|].
  apply B64.zero_or_nan_spec64.
  rewrite (B64.stage_final_mu64 LEN HIG DEP dx dy dz DD small fresh st i j k I).
  cbv zeta. unfold B64.Cd_raw. rewrite (B64.clip_below64 Hraw).
  apply B64.mul_zero_or_nan_l64, B64.mul_zero_or_nan_l64, B64.mul_zero_or_nan_r64.
  reflexivity.
Qed.

Lemma backscatter_cut_binary64_witness :
  exists st',
    B64.DynamicSmagorinsky 3 3 3 1 1 1 1 0x1p-20 zero_fresh64 sheared64 = Some st' /\
    ((st' mu_SGS 1%Z 1%Z 1%Z =? 0)%float = true \/
     PrimFloat.is_nan (st' mu_SGS 1 1 1) = true).
Proof.
  apply (@backscatter_cut_binary64 3 3 3 1 1 1 1 0x1p-20 zero_fresh64 sheared64
           (B64.stage_pre 3 3 3 1 1 1 zero_fresh64 sheared64) 1 1 1).
  - reflexivity.
  - apply B64.DS_pre_run64.
  - vm_compute. reflexivity.
Defined.

(** X18.  Two cells away from the low faces and from the high faces in i
    and k (one cell from the high face in j), the eddy viscosity that
    [DynamicSmagorinsky] writes is, in binary64, a function of the four
    input arrays and of the scalars alone: it is [ideal_mu], built with
    the operations of the code in their order from the three filter
    passes of the velocities, of their products and of [|S| S].  It does
    not depend on what the freshly allocated arrays held, NaN included. *)
Theorem inner_viscosity_binary64 (LEN HIG DEP : Z)
  (dx dy dz DD small : float) (fresh : buffer -> B64.Array3) (st : B64.Store var)
  (i j k : Z) :
  2 <= i <= LEN - 2 -> 2 <= j <= HIG - 1 -> 2 <= k <= DEP - 2 ->
  exists st',
    B64.DynamicSmagorinsky LEN HIG DEP dx dy dz DD small fresh st = Some st' /\
    st' mu_SGS i j k =
    B64.ideal_mu dx dy dz DD small (st rho) (st ru) (st rv) (st rw) i j k.
Proof.
  intros Hi Hj Hk.
  exists (B64.stage_final LEN HIG DEP dx dy dz DD small fresh st).
  split; [apply B64.DynamicSmagorinsky_run64|].
  assert (I : interior LEN HIG DEP i j k = true) by (apply interior_spec; lia).
  assert (D : def3 LEN HIG DEP i j k = true) by (apply def3_spec; lia).
  rewrite (B64.stage_final_mu64 LEN HIG DEP dx dy dz DD small fresh st i j k I).
  cbv zeta.
  rewrite (@B64.stage_pre_Leonard_ideal64 LEN HIG DEP dx dy dz fresh st i j k D).
  rewrite (@B64.stage_pre_M_ideal64 LEN HIG DEP dx dy dz DD fresh st i j k Hi Hj Hk).
  reflexivity.
Qed.

Lemma inner_viscosity_binary64_witness :
  exists st',
    B64.DynamicSmagorinsky 4 3 4 1 1 1 1 0x1p-20 nan_fresh64 sheared64 = Some st' /\
    st' mu_SGS 2 2 2 =
    B64.ideal_mu 1 1 1 1 0x1p-20 (sheared64 rho) (sheared64 ru) (sheared64 rv)
      (sheared64 rw) 2 2 2.
Proof.
  apply (@inner_viscosity_binary64 4 3 4 1 1 1 1 0x1p-20 nan_fresh64 sheared64 2 2 2);
    lia.
Defined.

(** X19.  The failing input of C2 in binary64: the zero field filtered by
    the box kernel comes out at the interior cell (1,1,1) as 0 when the
    buffers held zeros, as [1./3.] when the buffer [U_] held ones, and as
    a NaN when it held NaN. *)
Theorem filter_interior_buffer_binary64 :
  interior 1 1 1 1 1 1 = true /\
  B64.filter_ 1 1 1 (B64.const3 0%float) (B64.const3 0%float) (B64.const3 0%float)
    B64.FilterKer 1 1 1 = 0%float /\
  B64.filter_ 1 1 1 (B64.const3 1%float) (B64.const3 0%float) (B64.const3 0%float)
    B64.FilterKer 1 1 1 = (1 / 3)%float /\
  PrimFloat.is_nan
    (B64.filter_ 1 1 1 (B64.const3 nan) (B64.const3 0%float) (B64.const3 0%float)
       B64.FilterKer 1 1 1) = true.
Proof. vm_compute. repeat split; reflexivity. Qed.

(** X20.  The failing input of C6 in binary64: with density one and no
    momentum, when every buffer held zeros but the buffer [U_] of the call
    that filters [u v], which held ones, the run leaves [L12 = 1./3.] and
    [L21 = 0] at the interior cell (1,1,1), before and after the last loop
    nest. *)
Theorem Leonard_asymmetric_binary64 :
  interior 1 1 1 1 1 1 = true /\
  exists s st',
    B64.DS_pre 1 1 1 1 1 1 uv_fresh64 unit_store64 = Some s /\
    B64.DynamicSmagorinsky 1 1 1 1 1 1 1 1 uv_fresh64 unit_store64 = Some st' /\
    s L12 1 1 1 = (1 / 3)%float /\ s L21 1 1 1 = 0%float /\
    st' L12 1 1 1 = (1 / 3)%float /\ st' L21 1 1 1 = 0%float.
Proof.
  split; [reflexivity|].
  eexists. eexists.
  split; [apply B64.DS_pre_run64|].
  split; [apply B64.DynamicSmagorinsky_run64|].
  vm_compute. repeat split; reflexivity.
Qed.
